(** * Frontier exploration action server: [explore_server.cpp]

    A shallow embedding of [robot_explore::ExampleExplorationServer]:
    the containment test [pointInPolygon] over IEEE-754 binary32/binary64
    numbers, and the mission controller [executeCB] as a function from an
    environment (the ROS middleware and the collaborating services) to the
    trace of interactions it performs. *)

From Stdlib Require Import String ZArith QArith List Bool Lia.
From Stdlib Require Import Floats.SpecFloat.
Import ListNotations.

Local Open Scope Z_scope.

(** ** Floating-point numbers

    [geometry_msgs/Point] carries [float64] coordinates and
    [geometry_msgs/Point32] (the vertices of a [geometry_msgs/Polygon])
    carries [float32] coordinates.  Both are represented by the
    Standard Library's [spec_float] with the operations of the matching
    format. C++ evaluates an operation on two [float] operands in binary32
    and converts a [float] operand to [double] when the other one is a
    [double]. *)

Module B32.
Definition prec : Z := 24.
Definition emax : Z := 128.
Definition t := spec_float.
Definition valid (a : t) : bool := valid_binary prec emax a.
Definition sub (a b : t) : t := SFsub prec emax a b.
Definition of_Z (n : Z) : t := binary_normalize prec emax n 0 false.
End B32.

Module B64.
Definition prec : Z := 53.
Definition emax : Z := 1024.
Definition t := spec_float.
Definition valid (a : t) : bool := valid_binary prec emax a.
Definition add (a b : t) : t := SFadd prec emax a b.
Definition sub (a b : t) : t := SFsub prec emax a b.
Definition mul (a b : t) : t := SFmul prec emax a b.
Definition div (a b : t) : t := SFdiv prec emax a b.
Definition ltb (a b : t) : bool := SFltb a b.
Definition leb (a b : t) : bool := SFleb a b.
(** [a > b] of C++ *)
Definition gtb (a b : t) : bool := SFltb b a.
Definition of_Z (n : Z) : t := binary_normalize prec emax n 0 false.
(** The implicit conversion [float -> double]: exact, the mantissa is
    re-aligned to the binary64 format. *)
Definition of_b32 (a : B32.t) : t :=
  match a with
  | S754_finite s m e => binary_round prec emax s m e
  | _ => a
  end.
End B64.

Definition is_zero (a : spec_float) : bool :=
  match a with S754_zero _ => true | _ => false end.

Definition is_nan (a : spec_float) : bool :=
  match a with S754_nan => true | _ => false end.

(** ** Messages *)

Module Point.
Record t := mk { x : B64.t; y : B64.t; z : B64.t }.
End Point.

Module Point32.
Record t := mk { x : B32.t; y : B32.t; z : B32.t }.
Definition zero : t := mk (S754_zero false) (S754_zero false) (S754_zero false).
Definition valid (p : t) : bool := B32.valid (x p) && B32.valid (y p) && B32.valid (z p).
End Point32.

Module Polygon.
Record t := mk { points : list Point32.t }.
(** every coordinate is a binary32 number *)
Definition valid (p : t) : bool := forallb Point32.valid (points p).
End Polygon.

(** ** [pointInPolygon]

    [for (int i = 0, j = size-1; i < size; j = i++)]: the loop runs [size]
    times with [i = 0 .. size-1] and [j] the value [i] had one round
    earlier, [size-1] in the first round.  A polygon arrives in a ROS
    message, whose length is below 2^32 bytes, so [size], [i] and [cross]
    stay within [int]. *)

Section PointInPolygon.
Variable point : Point.t.

(** [(pj.x-pi.x) * (point.y-pi.y) / (pj.y-pi.y) + pi.x] *)
Definition crossing_x (pi pj : Point32.t) : B64.t :=
  B64.add
    (B64.div
       (B64.mul (B64.of_b32 (B32.sub (Point32.x pj) (Point32.x pi)))
                (B64.sub (Point.y point) (B64.of_b32 (Point32.y pi))))
       (B64.of_b32 (B32.sub (Point32.y pj) (Point32.y pi))))
    (B64.of_b32 (Point32.x pi)).

(** [(pi.y > point.y) != (pj.y > point.y)] *)
Definition y_guard (pi pj : Point32.t) : bool :=
  xorb (B64.gtb (B64.of_b32 (Point32.y pi)) (Point.y point))
       (B64.gtb (B64.of_b32 (Point32.y pj)) (Point.y point)).

(** the condition of the [if] in the loop body *)
Definition edge_test (pi pj : Point32.t) : bool :=
  y_guard pi pj && B64.ltb (Point.x point) (crossing_x pi pj).

Definition at_index (pts : list Point32.t) (k : Z) : Point32.t :=
  nth (Z.to_nat k) pts Point32.zero.

Fixpoint pointInPolygon_loop (pts : list Point32.t) (rounds : nat)
         (i j cross : Z) : Z :=
  match rounds with
  | O => cross
  | S rounds' =>
      let cross' :=
        if edge_test (at_index pts i) (at_index pts j)
        then cross + 1 else cross in
      pointInPolygon_loop pts rounds' (i + 1) i cross'
  end.

Definition pointInPolygon (polygon : Polygon.t) : bool :=
  let pts := Polygon.points polygon in
  let size := Z.of_nat (length pts) in
  let cross := pointInPolygon_loop pts (length pts) 0 (size - 1) 0 in
  negb (Z.rem cross 2 =? 0).

(** *** The same function on the C++ abstract machine

    [x / y] with [y] zero and [points[k]] with [k] out of range are
    undefined in C++.  This evaluator follows the same steps and answers
    [None] as soon as one of them would be evaluated; [&&] evaluates its
    right operand only when the left one is true. *)

Definition at_index_checked (pts : list Point32.t) (k : Z) : option Point32.t :=
  if (k <? 0) then None else nth_error pts (Z.to_nat k).

Definition crossing_x_checked (pi pj : Point32.t) : option B64.t :=
  let divisor := B64.of_b32 (B32.sub (Point32.y pj) (Point32.y pi)) in
  if is_zero divisor then None
  else Some (crossing_x pi pj).

Definition edge_test_checked (pi pj : Point32.t) : option bool :=
  if y_guard pi pj then
    match crossing_x_checked pi pj with
    | Some cx => Some (B64.ltb (Point.x point) cx)
    | None => None
    end
  else Some false.

Fixpoint pointInPolygon_loop_checked (pts : list Point32.t) (rounds : nat)
         (i j cross : Z) : option Z :=
  match rounds with
  | O => Some cross
  | S rounds' =>
      match at_index_checked pts i, at_index_checked pts j with
      | Some pi, Some pj =>
          match edge_test_checked pi pj with
          | Some b =>
              pointInPolygon_loop_checked pts rounds' (i + 1) i
                (if b then cross + 1 else cross)
          | None => None
          end
      | _, _ => None
      end
  end.

Definition pointInPolygon_checked (polygon : Polygon.t) : option bool :=
  let pts := Polygon.points polygon in
  let size := Z.of_nat (length pts) in
  match pointInPolygon_loop_checked pts (length pts) 0 (size - 1) 0 with
  | Some cross => Some (negb (Z.rem cross 2 =? 0))
  | None => None
  end.

(** *** The containment test as the specification words it

    An edge joins vertex [i] to the vertex at the previous index,
    wrapping around.  It counts as a crossing when one endpoint lies
    above [point.y] and the other one at or below it, and [point.x] is
    to the left of the point where the edge meets the horizontal line
    through the point.  The point is inside when the number of crossings
    is odd.

    The specification speaks of numbers: a coordinate stands for the
    rational number it represents, and the abscissa where the edge meets
    the line is the exact one.  An edge with a coordinate that is an
    infinity or NaN is no crossing. *)

Definition previous_index (size i : nat) : nat :=
  ((i + size - 1) mod size)%nat.

Definition edge_at (pts : list Point32.t) (i : nat) : Point32.t * Point32.t :=
  (nth i pts Point32.zero,
   nth (previous_index (length pts) i) pts Point32.zero).

Definition edges (pts : list Point32.t) : list (Point32.t * Point32.t) :=
  map (edge_at pts) (seq 0 (length pts)).

(** the rational number a floating-point number stands for *)
Definition number (a : spec_float) : option Q :=
  match a with
  | S754_zero _ => Some 0%Q
  | S754_finite s m e =>
      Some (inject_Z (if s then Z.neg m else Z.pos m) * Qpower 2 e)%Q
  | _ => None
  end.

Definition Qltb (a b : Q) : bool := negb (Qle_bool b a).

Definition vertex_number (p : Point32.t) : option (Q * Q) :=
  match number (Point32.x p), number (Point32.y p) with
  | Some x, Some y => Some (x, y)
  | _, _ => None
  end.

Definition point_number : option (Q * Q) :=
  match number (Point.x point), number (Point.y point) with
  | Some x, Some y => Some (x, y)
  | _, _ => None
  end.

(** the abscissa at height [y] of the line through (xi, yi) and (xj, yj) *)
Definition interpolate (xi yi xj yj y : Q) : Q :=
  (xi + (xj - xi) * (y - yi) / (yj - yi))%Q.

Definition is_crossing (e : Point32.t * Point32.t) : bool :=
  match point_number, vertex_number (fst e), vertex_number (snd e) with
  | Some (x, y), Some (xi, yi), Some (xj, yj) =>
      ((Qltb y yi && Qle_bool yj y) || (Qltb y yj && Qle_bool yi y))
      && Qltb x (interpolate xi yi xj yj y)
  | _, _, _ => false
  end.

Definition crossings (polygon : Polygon.t) : nat :=
  length (filter is_crossing (edges (Polygon.points polygon))).

(** *** The crossing condition in floating-point arithmetic

    The same condition with the comparisons of IEEE 754 and with the
    abscissa [(pj.x - pi.x) * (point.y - pi.y) / (pj.y - pi.y) + pi.x]
    evaluated in floating point: the two differences of vertex
    coordinates are rounded to binary32, the difference with [point.y],
    the product, the quotient and the sum to binary64. *)

Definition exceeds (a : B32.t) : bool :=
  B64.gtb (B64.of_b32 a) (Point.y point).

Definition at_or_below (a : B32.t) : bool :=
  B64.leb (B64.of_b32 a) (Point.y point).

Definition straddles (pi pj : Point32.t) : bool :=
  (exceeds (Point32.y pi) && at_or_below (Point32.y pj))
  || (exceeds (Point32.y pj) && at_or_below (Point32.y pi)).

Definition rounded_abscissa (pi pj : Point32.t) : spec_float :=
  let dx := SFsub 24 128 (Point32.x pj) (Point32.x pi) in
  let dy := SFsub 24 128 (Point32.y pj) (Point32.y pi) in
  let t := SFsub 53 1024 (Point.y point) (B64.of_b32 (Point32.y pi)) in
  SFadd 53 1024
    (SFdiv 53 1024 (SFmul 53 1024 (B64.of_b32 dx) t) (B64.of_b32 dy))
    (B64.of_b32 (Point32.x pi)).

Definition is_rounded_crossing (e : Point32.t * Point32.t) : bool :=
  straddles (fst e) (snd e)
  && SFltb (Point.x point) (rounded_abscissa (fst e) (snd e)).

Definition rounded_crossings (polygon : Polygon.t) : nat :=
  length (filter is_rounded_crossing (edges (Polygon.points polygon))).

End PointInPolygon.

(** ** Messages of the mission controller *)

Module Quaternion.
Record t := mk { x : B64.t; y : B64.t; z : B64.t; w : B64.t }.
End Quaternion.

Module Header.
Record t := mk { seq : Z; stamp : Z; frame_id : string }.
End Header.

Module Pose.
Record t := mk { position : Point.t; orientation : Quaternion.t }.
End Pose.

Module PoseStamped.
Record t := mk { header : Header.t; pose : Pose.t }.
End PoseStamped.

Module PointStamped.
Record t := mk { header : Header.t; point : Point.t }.
End PointStamped.

Module PolygonStamped.
Record t := mk { header : Header.t; polygon : Polygon.t }.
End PolygonStamped.

(** [robot_explore/ExploreTask.action], the goal part *)
Module ExploreTaskGoal.
Record t := mk { explore_boundary : PolygonStamped.t;
                 explore_center : PointStamped.t }.
End ExploreTaskGoal.

(** [actionlib::SimpleClientGoalState::StateEnum] *)
Inductive SimpleClientGoalState :=
| PENDING | ACTIVE | RECALLED | REJECTED | PREEMPTED | ABORTED | SUCCEEDED | LOST.

Definition is_SUCCEEDED (s : SimpleClientGoalState) : bool :=
  match s with SUCCEEDED => true | _ => false end.

Definition zero64 : B64.t := S754_zero false.

(** a default-constructed [geometry_msgs::PoseStamped] *)
Definition PoseStamped_default : PoseStamped.t :=
  PoseStamped.mk (Header.mk 0 0 "")
    (Pose.mk (Point.mk zero64 zero64 zero64)
             (Quaternion.mk zero64 zero64 zero64 zero64)).

(** [tf::createQuaternionMsgFromYaw(0)]: the identity rotation *)
Definition createQuaternionMsgFromYaw_0 : Quaternion.t :=
  Quaternion.mk zero64 zero64 zero64 (B64.of_Z 1).

(** [int retry]: a 32-bit signed counter *)
Definition int_wrap (n : Z) : Z := (n + 2 ^ 31) mod 2 ^ 32 - 2 ^ 31.
Definition int_decr (n : Z) : Z := int_wrap (n - 1).

(** ** Interactions

    Everything [executeCB] asks of or tells the outside world is an
    event; the history is the list of events so far, newest first. *)

Inductive Event :=
| RosOk (answer : bool)                                (* ros::ok() *)
| IsPreemptRequested (answer : bool)                   (* as_.isPreemptRequested() *)
| BoundaryWaitForExistence (answer : bool)             (* updateBoundaryPolygon.waitForExistence() *)
| BoundaryCall (request : PolygonStamped.t) (answer : bool)  (* updateBoundaryPolygon.call(srv) *)
| MoveWaitForServer (answer : bool)                    (* moveClient.waitForServer() *)
| SendGoalAndWait (target : PoseStamped.t) (state : SimpleClientGoalState)
                                                       (* moveClient.sendGoalAndWait; getState *)
| FrontierWaitForExistence (answer : bool)             (* getNextFrontier.waitForExistence() *)
| GetRobotPose (answer : PoseStamped.t)                (* explore_costmap_ros.getRobotPose *)
| TransformPose (frame : string) (pose : PoseStamped.t) (answer : option PoseStamped.t)
                                                       (* tf_listener_.transformPose; None: it threw *)
| FrontierCall (start_pose : PoseStamped.t) (answer : option PoseStamped.t)
                                                       (* getNextFrontier.call(srv) *)
| Sleep                                                (* ros::Duration(0.5).sleep() *)
| SetSucceeded                                         (* as_.setSucceeded() *)
| SetAborted.                                          (* as_.setAborted() *)

Definition History := list Event.

(** The outside world answers each question knowing all that happened
    before, so a signal may change between any two questions. *)
Module Env.
Record t := mk {
  ros_ok : History -> bool;
  isPreemptRequested : History -> bool;
  updateBoundaryPolygon_waitForExistence : History -> bool;
  updateBoundaryPolygon_call : History -> PolygonStamped.t -> bool;
  moveClient_waitForServer : History -> bool;
  moveClient_sendGoalAndWait : History -> PoseStamped.t -> SimpleClientGoalState;
  getNextFrontier_waitForExistence : History -> bool;
  getNextFrontier_call : History -> PoseStamped.t -> option PoseStamped.t;
  getRobotPose : History -> PoseStamped.t;
  transformPose : History -> string -> PoseStamped.t -> option PoseStamped.t
}.
End Env.

(** How a [while] loop is left *)
Inductive Flow (A : Type) :=
| Break (a : A)        (* by [break] *)
| LoopEnd (a : A)      (* its condition was false *)
| Return               (* by [return]: [executeCB] is over *)
| Throw.               (* by an exception of [transformPose] *)
Arguments Break {A} a.
Arguments LoopEnd {A} a.
Arguments Return {A}.
Arguments Throw {A}.

(** How [executeCB] ends *)
Inductive Termination := Returned | Threw.

Section ExecuteCB.
Variable env : Env.t.
Variable goal : ExploreTaskGoal.t.

(** *** Questions to the outside world *)

Definition ros_ok (h : History) : bool * History :=
  let b := Env.ros_ok env h in (b, RosOk b :: h).

Definition isPreemptRequested (h : History) : bool * History :=
  let b := Env.isPreemptRequested env h in (b, IsPreemptRequested b :: h).

Definition updateBoundaryPolygon_waitForExistence (h : History) : bool * History :=
  let b := Env.updateBoundaryPolygon_waitForExistence env h in
  (b, BoundaryWaitForExistence b :: h).

Definition updateBoundaryPolygon_call (req : PolygonStamped.t) (h : History)
  : bool * History :=
  let b := Env.updateBoundaryPolygon_call env h req in (b, BoundaryCall req b :: h).

Definition moveClient_waitForServer (h : History) : bool * History :=
  let b := Env.moveClient_waitForServer env h in (b, MoveWaitForServer b :: h).

Definition moveClient_sendGoalAndWait (target : PoseStamped.t) (h : History)
  : SimpleClientGoalState * History :=
  let s := Env.moveClient_sendGoalAndWait env h target in
  (s, SendGoalAndWait target s :: h).

Definition getNextFrontier_waitForExistence (h : History) : bool * History :=
  let b := Env.getNextFrontier_waitForExistence env h in
  (b, FrontierWaitForExistence b :: h).

Definition getNextFrontier_call (start_pose : PoseStamped.t) (h : History)
  : option PoseStamped.t * History :=
  let r := Env.getNextFrontier_call env h start_pose in
  (r, FrontierCall start_pose r :: h).

Definition getRobotPose (h : History) : PoseStamped.t * History :=
  let p := Env.getRobotPose env h in (p, GetRobotPose p :: h).

Definition transformPose (frame : string) (p : PoseStamped.t) (h : History)
  : option PoseStamped.t * History :=
  let r := Env.transformPose env h frame p in (r, TransformPose frame p r :: h).

(** *** The steps of [executeCB] *)

Definition boundary_frame : string :=
  Header.frame_id (PolygonStamped.header (ExploreTaskGoal.explore_boundary goal)).

Definition boundary_polygon : Polygon.t :=
  PolygonStamped.polygon (ExploreTaskGoal.explore_boundary goal).

Definition center_pose : PoseStamped.t :=
  PoseStamped.mk
    (PointStamped.header (ExploreTaskGoal.explore_center goal))
    (Pose.mk (PointStamped.point (ExploreTaskGoal.explore_center goal))
             createQuaternionMsgFromYaw_0).

(** set region boundary on costmap: lines 59-76 *)
Fixpoint setBoundary_loop (fuel : nat) (retry : Z) (h : History)
  : option (Flow unit * History) :=
  match fuel with
  | O => None
  | S fuel' =>
      let '(ok, h) := ros_ok h in
      if negb ok then Some (LoopEnd tt, h) else
      let '(preempt, h) := isPreemptRequested h in
      if preempt then Some (LoopEnd tt, h) else
      let '(called, h) :=
        updateBoundaryPolygon_call (ExploreTaskGoal.explore_boundary goal) h in
      if called then Some (Break tt, h) else
      let retry := int_decr retry in
      if retry =? 0 then Some (Return, SetAborted :: h) else
      let '(ok, h) := ros_ok h in
      if negb ok then Some (Return, SetAborted :: h) else
      setBoundary_loop fuel' retry (Sleep :: h)
  end.

(** move to room center (lines 87-111) and move to the exploration goal
    (lines 171-192): the two loops have the same body but for the
    target and for [success = true], which the caller does on [Break] *)
Fixpoint navigate_loop (fuel : nat) (retry : Z) (target : PoseStamped.t)
         (h : History) : option (Flow unit * History) :=
  match fuel with
  | O => None
  | S fuel' =>
      let '(ok, h) := ros_ok h in
      if negb ok then Some (LoopEnd tt, h) else
      let '(state, h) := moveClient_sendGoalAndWait target h in
      if is_SUCCEEDED state then Some (Break tt, h) else
      let retry := int_decr retry in
      if retry =? 0 then Some (Return, SetAborted :: h) else
      let '(ok, h) := ros_ok h in
      if negb ok then Some (Return, SetAborted :: h) else
      navigate_loop fuel' retry target (Sleep :: h)
  end.

(** lines 140-143: the pose checked against the boundary *)
Definition boundary_check_pose (start_pose : PoseStamped.t) (h : History)
  : option PoseStamped.t * History :=
  if String.eqb (Header.frame_id (PoseStamped.header start_pose)) boundary_frame
  then (Some start_pose, h)
  else transformPose boundary_frame start_pose h.

(** lines 137-168: find the pose to move to *)
Fixpoint frontier_loop (fuel : nat) (retry : Z) (success : bool)
         (start_pose goal_pose : PoseStamped.t) (h : History)
  : option (Flow PoseStamped.t * History) :=
  match fuel with
  | O => None
  | S fuel' =>
      let '(ok, h) := ros_ok h in
      if negb ok then Some (LoopEnd goal_pose, h) else
      let '(checked, h) := boundary_check_pose start_pose h in
      match checked with
      | None => Some (Throw, h)
      | Some eval_pose =>
          if negb (pointInPolygon (Pose.position (PoseStamped.pose eval_pose))
                                  boundary_polygon)
          then Some (Break center_pose, h)
          else
            let '(found, h) := getNextFrontier_call start_pose h in
            match found with
            | Some next_frontier => Some (Break next_frontier, h)
            | None =>
                let retry := int_decr retry in
                if (retry =? 0) && success then Some (Return, SetSucceeded :: h)
                else if retry =? 0 then Some (Return, SetAborted :: h)
                else
                  let '(ok, h) := ros_ok h in
                  if negb ok then Some (Return, SetAborted :: h)
                  else frontier_loop fuel' retry success start_pose goal_pose h
            end
      end
  end.

(** The passes of the loop of lines 137-168 within one round:
    [frontier_pass k start_pose h] is the state in which the condition of
    line 137 is evaluated for the (k+1)-th time, the round having set
    [retry = 5] at history [h]: the counter [retry] and the history.
    Another pass follows when [ros::ok()] answered true, the pose was
    found inside, the Frontier Service failed, the budget is not used up
    and [ros::ok()] answered true again (line 161). *)
Fixpoint frontier_pass (k : nat) (start_pose : PoseStamped.t) (h : History)
  : option (Z * History) :=
  match k with
  | O => Some (5, h)
  | S k' =>
      match frontier_pass k' start_pose h with
      | None => None
      | Some (retry, h) =>
          let '(ok, h) := ros_ok h in
          if negb ok then None else
          let '(checked, h) := boundary_check_pose start_pose h in
          match checked with
          | None => None
          | Some eval_pose =>
              if negb (pointInPolygon (Pose.position (PoseStamped.pose eval_pose))
                                      boundary_polygon)
              then None
              else
                let '(found, h) := getNextFrontier_call start_pose h in
                match found with
                | Some _ => None
                | None =>
                    let retry := int_decr retry in
                    if retry =? 0 then None else
                    let '(ok, h) := ros_ok h in
                    if negb ok then None else Some (retry, h)
                end
          end
      end
  end.

(** One round of the loop of lines 122-193, after its condition: the
    new value of [success], or the end of [executeCB]. *)
Definition explore_body (fuel : nat) (success : bool) (h : History)
  : option ((bool + Termination) * History) :=
  let '(robot_pose, h) := getRobotPose h in
  match frontier_loop fuel 5 success robot_pose PoseStamped_default h with
  | None => None
  | Some (Return, h) => Some (inr Returned, h)
  | Some (Throw, h) => Some (inr Threw, h)
  | Some (Break goal_pose, h) | Some (LoopEnd goal_pose, h) =>
      match navigate_loop fuel 5 goal_pose h with
      | None => None
      | Some (Return, h) => Some (inr Returned, h)
      | Some (Throw, h) => Some (inr Threw, h)
      | Some (Break _, h) => Some (inl true, h)
      | Some (LoopEnd _, h) => Some (inl success, h)
      end
  end.

(** loop until all frontiers are explored: lines 122-193.  [rounds]
    bounds the rounds of this loop, [fuel] those of the loops inside. *)
Fixpoint explore_loop (rounds fuel : nat) (success : bool) (h : History)
  : option (Termination * History) :=
  match rounds with
  | O => None
  | S rounds' =>
      let '(ok, h) := ros_ok h in
      if negb ok then Some (Returned, h) else
      match explore_body fuel success h with
      | None => None
      | Some (inr t, h) => Some (t, h)
      | Some (inl success, h) => explore_loop rounds' fuel success h
      end
  end.

(** [executeCB]: [None] when [fuel] rounds of some loop were not enough *)
Definition executeCB (fuel : nat) (h : History) : option (Termination * History) :=
  let '(exists_, h) := updateBoundaryPolygon_waitForExistence h in
  if negb exists_ then Some (Returned, SetAborted :: h) else
  match setBoundary_loop fuel 5 h with
  | None => None
  | Some (Return, h) => Some (Returned, h)
  | Some (Throw, h) => Some (Threw, h)
  | Some (Break _, h) | Some (LoopEnd _, h) =>
      let '(connected, h) := moveClient_waitForServer h in
      if negb connected then Some (Returned, SetAborted :: h) else
      match navigate_loop fuel 5 center_pose h with
      | None => None
      | Some (Return, h) => Some (Returned, h)
      | Some (Throw, h) => Some (Threw, h)
      | Some (Break _, h) | Some (LoopEnd _, h) =>
          let '(exists_, h) := getNextFrontier_waitForExistence h in
          if negb exists_ then Some (Returned, SetAborted :: h) else
          explore_loop fuel fuel false h
      end
  end.

End ExecuteCB.

(** ** Properties of histories *)

Definition history_of (r : option (Termination * History)) : History :=
  match r with Some (_, h) => h | None => [] end.

(** a request to the Boundary, Navigation or Frontier Service *)
Definition is_collaborator_call (e : Event) : bool :=
  match e with
  | BoundaryCall _ _ | SendGoalAndWait _ _ | FrontierCall _ _ => true
  | _ => false
  end.

Definition is_outcome (e : Event) : bool :=
  match e with SetSucceeded | SetAborted => true | _ => false end.

Definition is_succeeded (e : Event) : bool :=
  match e with SetSucceeded => true | _ => false end.

Definition is_aborted (e : Event) : bool :=
  match e with SetAborted => true | _ => false end.

Definition is_sleep (e : Event) : bool :=
  match e with Sleep => true | _ => false end.

Definition is_shutdown_seen (e : Event) : bool :=
  match e with RosOk false => true | _ => false end.

Definition is_preempt_seen (e : Event) : bool :=
  match e with IsPreemptRequested true => true | _ => false end.

Definition is_ok_check (e : Event) : bool :=
  match e with RosOk _ => true | _ => false end.

Definition is_navigation_success (e : Event) : bool :=
  match e with SendGoalAndWait _ SUCCEEDED => true | _ => false end.

Definition is_frontier_call (e : Event) : bool :=
  match e with FrontierCall _ _ => true | _ => false end.

Definition is_frontier_failure (e : Event) : bool :=
  match e with FrontierCall _ None => true | _ => false end.

Definition is_frontier_found (e : Event) : bool :=
  match e with FrontierCall _ (Some _) => true | _ => false end.

Definition is_boundary_call (e : Event) : bool :=
  match e with BoundaryCall _ _ => true | _ => false end.

Definition is_navigation (e : Event) : bool :=
  match e with SendGoalAndWait _ _ => true | _ => false end.

Definition count (p : Event -> bool) (h : History) : nat := length (filter p h).

(** The check right before event [e], the history before it being [h]:
    every request follows a [ros::ok()] that answered true, the Boundary
    request also an [isPreemptRequested()] that answered false, and each
    round of the explore loop starts after a [ros::ok()] that answered
    true. *)
Definition guarded_step (e : Event) (h : History) : bool :=
  match e with
  | BoundaryCall _ _ =>
      match h with IsPreemptRequested false :: RosOk true :: _ => true | _ => false end
  | SendGoalAndWait _ _ =>
      match h with RosOk true :: _ => true | _ => false end
  | FrontierCall _ _ =>
      match h with
      | RosOk true :: _ => true
      | TransformPose _ _ _ :: RosOk true :: _ => true
      | _ => false
      end
  | GetRobotPose _ =>
      match h with RosOk true :: _ => true | _ => false end
  | _ => true
  end.

Fixpoint guarded (h : History) : bool :=
  match h with
  | [] => true
  | e :: h' => guarded_step e h' && guarded h'
  end.

(** the event right after each delay is a [ros::ok()] check *)
Fixpoint delays_checked (h : History) : bool :=
  match h with
  | [] => true
  | e :: h' =>
      match h' with Sleep :: _ => is_ok_check e | _ => true end
      && delays_checked h'
  end.

(** the history does not stop in the middle of a delay *)
Definition settled (h : History) : bool :=
  match h with Sleep :: _ => false | _ => true end.

(** no request is issued once [ros::ok()] has answered false *)
Fixpoint quiet_after_shutdown (h : History) : bool :=
  match h with
  | [] => true
  | e :: h' =>
      (negb (is_collaborator_call e) || negb (existsb is_shutdown_seen h'))
      && quiet_after_shutdown h'
  end.

(** a delay at whose end [ros::ok()] answered false *)
Fixpoint delay_cancelled (h : History) : bool :=
  match h with
  | RosOk false :: ((Sleep :: _) as h') => true
  | _ :: h' => delay_cancelled h'
  | [] => false
  end.

(** no request is issued after a delay that ended with [ros::ok()] false *)
Fixpoint quiet_after_cancelled_delay (h : History) : bool :=
  match h with
  | [] => true
  | e :: h' =>
      (negb (is_collaborator_call e) || negb (delay_cancelled h'))
      && quiet_after_cancelled_delay h'
  end.

(** a request was issued after [isPreemptRequested()] answered true *)
Fixpoint call_after_preempt (h : History) : bool :=
  match h with
  | [] => false
  | e :: h' =>
      (is_collaborator_call e && existsb is_preempt_seen h')
      || call_after_preempt h'
  end.

(** Shutdown is final: once [ros::ok()] has answered false it keeps
    answering false. *)
Definition shutdown_is_final (env : Env.t) : Prop :=
  forall h, existsb is_shutdown_seen h = true -> Env.ros_ok env h = false.

(** No cancellation: [ros::ok()] holds and no preemption is requested. *)
Definition no_cancellation (env : Env.t) : Prop :=
  forall h, Env.ros_ok env h = true /\ Env.isPreemptRequested env h = false.



(** the boundary check of lines 140-148 reports the pose outside *)
Definition left_boundary (env : Env.t) (goal : ExploreTaskGoal.t)
           (start_pose : PoseStamped.t) (h : History) : bool :=
  match fst (boundary_check_pose env goal start_pose h) with
  | Some eval_pose =>
      negb (pointInPolygon (Pose.position (PoseStamped.pose eval_pose))
                           (boundary_polygon goal))
  | None => false
  end.

(** the events a navigation loop towards [target] can add *)
Definition navigation_event (target : PoseStamped.t) (e : Event) : Prop :=
  match e with
  | RosOk _ | Sleep | SetAborted => True
  | SendGoalAndWait t _ => t = target
  | _ => False
  end.

(** the events the loop that looks for a frontier can add *)
Definition frontier_event (e : Event) : Prop :=
  match e with
  | RosOk _ | TransformPose _ _ _ | FrontierCall _ _
  | SetSucceeded | SetAborted => True
  | _ => False
  end.

(** the events the loop that sets the boundary can add *)
Definition boundary_event (e : Event) : Prop :=
  match e with
  | RosOk _ | IsPreemptRequested _ | BoundaryCall _ _ | Sleep | SetAborted => True
  | _ => False
  end.

(** An operation seen from history [h] on: [op] tells whether an attempt
    made after the events [new] succeeds, [attempt] recognises its
    attempts.  It fails each of its first [n] attempts; it succeeds at
    the attempt that follows [n] earlier ones. *)
Definition fails_until (n : nat) (attempt : Event -> bool)
           (op : History -> bool) (h : History) : Prop :=
  forall new, (count attempt new < n)%nat -> op (new ++ h) = false.

Definition succeeds_after (n : nat) (attempt : Event -> bool)
           (op : History -> bool) (h : History) : Prop :=
  forall new, count attempt new = n -> op (new ++ h) = true.

Definition boundary_call_succeeds (env : Env.t) (goal : ExploreTaskGoal.t)
  : History -> bool :=
  fun h => Env.updateBoundaryPolygon_call env h (ExploreTaskGoal.explore_boundary goal).

Definition navigation_succeeds (env : Env.t) (target : PoseStamped.t)
  : History -> bool :=
  fun h => is_SUCCEEDED (Env.moveClient_sendGoalAndWait env h target).

Definition frontier_call_succeeds (env : Env.t) (start_pose : PoseStamped.t)
  : History -> bool :=
  fun h => match Env.getNextFrontier_call env h start_pose with
           | Some _ => true
           | None => false
           end.

(** from history [h] on, the boundary check finds the pose inside *)
Definition stays_inside (env : Env.t) (goal : ExploreTaskGoal.t)
           (start_pose : PoseStamped.t) (h : History) : Prop :=
  forall new,
    exists eval_pose,
      fst (boundary_check_pose env goal start_pose (new ++ h)) = Some eval_pose
      /\ pointInPolygon (Pose.position (PoseStamped.pose eval_pose))
                        (boundary_polygon goal) = true.

(** all navigation requests of [h] go to [target] *)
Definition navigates_only_to (target : PoseStamped.t) (h : History) : Prop :=
  forall t s, In (SendGoalAndWait t s) h -> t = target.

(** What [executeCB] keeps true of its history at every step: each
    event is guarded, each recorded answer of [ros::ok()] is the one the
    world gave, and a delay is followed by a [ros::ok()] check. *)
Definition traced_step (env : Env.t) (e : Event) (h : History) : bool :=
  guarded_step e h
  && match e with RosOk b => Bool.eqb b (Env.ros_ok env h) | _ => true end
  && match h with Sleep :: _ => is_ok_check e | _ => true end.

Fixpoint well_traced (env : Env.t) (h : History) : bool :=
  match h with
  | [] => true
  | e :: h' => traced_step env e h' && well_traced env h'
  end.

(** ** Facts about rounding, stated for any format *)

Section Format.
Variables prec emax : Z.

(** not a zero; if finite, with an exponent of the format *)
Definition away_from_zero (a : spec_float) : Prop :=
  match a with
  | S754_zero _ => False
  | S754_finite _ _ e => emin prec emax <= e
  | _ => True
  end.

Definition finite_or_inf (a : spec_float) : Prop :=
  match a with
  | S754_finite _ _ e => emin prec emax <= e
  | S754_infinity _ => True
  | _ => False
  end.
End Format.

(** [a == b] of IEEE 754 for numbers that are not NaN *)
Definition same_number (a b : spec_float) : Prop :=
  (is_zero a = true /\ is_zero b = true) \/ a = b.

(** ** Scenarios

    A square boundary of side 4 in frame [map] with its center at
    (2,2), and worlds in which every service exists. *)

Module Scenario.
Definition p32 (x y : Z) : Point32.t :=
  Point32.mk (B32.of_Z x) (B32.of_Z y) (S754_zero false).

Definition p64 (x y : Z) : Point.t :=
  Point.mk (B64.of_Z x) (B64.of_Z y) zero64.

Definition map_header : Header.t := Header.mk 0 0 "map".

Definition pose_at (x y : Z) : PoseStamped.t :=
  PoseStamped.mk map_header (Pose.mk (p64 x y) createQuaternionMsgFromYaw_0).

Definition square : Polygon.t :=
  Polygon.mk [p32 0 0; p32 4 0; p32 4 4; p32 0 4].

Definition goal : ExploreTaskGoal.t :=
  ExploreTaskGoal.mk (PolygonStamped.mk map_header square)
                     (PointStamped.mk map_header (p64 2 2)).

Definition inside_pose : PoseStamped.t := pose_at 1 1.
Definition outside_pose : PoseStamped.t := pose_at 5 5.
Definition frontier_pose : PoseStamped.t := pose_at 3 3.

Definition world (ok preempt boundary : History -> bool)
           (navigation : History -> SimpleClientGoalState)
           (frontier : History -> option PoseStamped.t)
           (robot : History -> PoseStamped.t) : Env.t :=
  Env.mk ok preempt
         (fun _ => true) (fun h _ => boundary h)
         (fun _ => true) (fun h _ => navigation h)
         (fun _ => true) (fun h _ => frontier h)
         robot
         (fun _ _ p => Some p).

Definition always {A} (a : A) : History -> A := fun _ => a.

(** [ros::ok()] answers true until [stop] holds or it has answered
    false once *)
Definition until (stop : History -> bool) : History -> bool :=
  fun h => negb (existsb is_shutdown_seen h || stop h).

(** the robot is outside the boundary at the first round of the
    explore loop and inside from then on; no frontier is ever found *)
Definition robot_outside_once (h : History) : PoseStamped.t :=
  if existsb (fun e => match e with GetRobotPose _ => true | _ => false end) h
  then inside_pose else outside_pose.


(** the same with a preemption request pending from the start *)
Definition preempted_from_start : Env.t :=
  world (always true) (always true) (always true) (always SUCCEEDED)
        (always None) robot_outside_once.

(** one frontier is found and reached, then the Frontier Service
    fails for good *)
Definition one_frontier (h : History) : option PoseStamped.t :=
  if existsb is_frontier_found h then None else Some frontier_pose.

Definition one_frontier_then_nothing : Env.t :=
  world (always true) (always false) (always true) (always SUCCEEDED)
        one_frontier (always inside_pose).

(** the node is shut down while the robot drives to its first
    frontier: [ros::ok()] is false once two navigations succeeded *)
Definition ok_until_first_frontier (h : History) : bool :=
  until (fun h => (2 <=? count is_navigation_success h)%nat) h.

Definition shutdown_after_first_frontier : Env.t :=
  world ok_until_first_frontier (always false) (always true) (always SUCCEEDED)
        (always (Some frontier_pose)) (always inside_pose).

(** navigation fails and the node is shut down during the first
    delay between attempts *)
Definition ok_until_sleep (h : History) : bool :=
  until (existsb is_sleep) h.

Definition shutdown_during_delay : Env.t :=
  world ok_until_sleep (always false) (always true) (always ABORTED)
        (always None) (always inside_pose).

(** navigation fails and a preemption is requested during the first
    delay between attempts *)
Definition preempt_during_delay : Env.t :=
  world (always true) (existsb is_sleep) (always true) (always ABORTED)
        (always None) (always inside_pose).

(** a service that fails twice and then succeeds *)
Definition third_time (p : Event -> bool) (h : History) : bool :=
  (2 <=? count p h)%nat.

Definition third_attempt_succeeds : Env.t :=
  world (always true) (always false) (third_time is_boundary_call)
        (fun h => if third_time is_navigation h then SUCCEEDED else ABORTED)
        (fun h => if third_time is_frontier_call h then Some frontier_pose else None)
        (always inside_pose).

(** nothing ever works, nothing is cancelled *)
Definition nothing_works : Env.t :=
  world (always true) (always false) (always false) (always ABORTED)
        (always None) (always inside_pose).

(** the robot pose comes in the frame [odom]; [tf] places it inside
    the boundary the first time it is asked and outside from then on;
    the Frontier Service finds nothing, and the node is shut down once
    two navigations succeeded *)
Definition odom_pose : PoseStamped.t :=
  PoseStamped.mk (Header.mk 0 0 "odom")
                 (Pose.mk (p64 1 1) createQuaternionMsgFromYaw_0).

Definition drifting (h : History) (frame : string) (p : PoseStamped.t)
  : option PoseStamped.t :=
  if existsb (fun e => match e with TransformPose _ _ _ => true | _ => false end) h
  then Some outside_pose else Some inside_pose.

Definition drifts_outside : Env.t :=
  Env.mk ok_until_first_frontier (always false)
         (always true) (fun _ _ => true)
         (always true) (fun _ _ => SUCCEEDED)
         (always true) (fun _ _ => None)
         (always odom_pose)
         drifting.

(** a triangle with a long sloping edge, between (5,0) and (2^27,2),
    and a point at height 1 just right of that edge, outside the
    triangle *)
Definition triangle : Polygon.t :=
  Polygon.mk [p32 5 0; p32 134217728 2; p32 5 2].

Definition beside_triangle : Point.t := p64 67108867 1.

(** the same triangle with its vertices listed the other way round, and
    a point at height 1 just left of the sloping edge, inside the
    triangle *)
Definition triangle_reversed : Polygon.t :=
  Polygon.mk [p32 5 2; p32 134217728 2; p32 5 0].

Definition within_triangle : Point.t := p64 67108866 1.

(** the two-vertex polygon (0,0), (1,3) and the point (1/3, 1), with
    1/3 rounded to binary64 *)
Definition segment : Polygon.t := Polygon.mk [p32 0 0; p32 1 3].

Definition third : B64.t := B64.div (B64.of_Z 1) (B64.of_Z 3).

Definition beside_segment : Point.t := Point.mk third (B64.of_Z 1) zero64.
End Scenario.

(** ** Notions for the further properties *)

(** the edges of a vertex list, each vertex paired with the one before
    it, [prev] being the one before the first *)
Fixpoint edges_from (prev : Point32.t) (pts : list Point32.t)
  : list (Point32.t * Point32.t) :=
  match pts with
  | [] => []
  | p :: pts' => (p, prev) :: edges_from p pts'
  end.

(** the same vertex with another third coordinate *)
Definition with_z (z : B32.t) (p : Point32.t) : Point32.t :=
  Point32.mk (Point32.x p) (Point32.y p) z.

Definition is_failed_wait (e : Event) : bool :=
  match e with
  | BoundaryWaitForExistence false | MoveWaitForServer false
  | FrontierWaitForExistence false => true
  | _ => false
  end.

Definition boundary_available (e : Event) : bool :=
  match e with BoundaryWaitForExistence true => true | _ => false end.

Definition navigation_available (e : Event) : bool :=
  match e with MoveWaitForServer true => true | _ => false end.

Definition frontier_available (e : Event) : bool :=
  match e with FrontierWaitForExistence true => true | _ => false end.

Definition is_move_wait (e : Event) : bool :=
  match e with MoveWaitForServer _ => true | _ => false end.

Definition is_preempt_check (e : Event) : bool :=
  match e with IsPreemptRequested _ => true | _ => false end.

Definition is_transform (e : Event) : bool :=
  match e with TransformPose _ _ _ => true | _ => false end.

Definition is_pose_query (e : Event) : bool :=
  match e with GetRobotPose _ => true | _ => false end.

(** a Boundary Service call or a navigation that did not succeed *)
Definition is_failed_attempt (e : Event) : bool :=
  match e with
  | BoundaryCall _ false => true
  | SendGoalAndWait _ s => negb (is_SUCCEEDED s)
  | _ => false
  end.

(** a Boundary Service call, a navigation or a Frontier Service call
    that did not succeed *)
Definition is_failure (e : Event) : bool :=
  match e with
  | BoundaryCall _ false => true
  | SendGoalAndWait _ s => negb (is_SUCCEEDED s)
  | FrontierCall _ None => true
  | _ => false
  end.

(** the latest answer of [getRobotPose] *)
Fixpoint last_robot_pose (h : History) : option PoseStamped.t :=
  match h with
  | [] => None
  | GetRobotPose p :: _ => Some p
  | _ :: h' => last_robot_pose h'
  end.

(** [executeCB] is still at work after [h]: its latest event is neither
    an outcome nor a wait for a service that does not exist *)
Definition running (h : History) : Prop :=
  match h with
  | [] => True
  | latest :: _ => is_outcome latest = false /\ is_failed_wait latest = false
  end.

(** what may come after [h]: nothing after an outcome, only
    [setAborted] after a wait that failed *)
Definition follows (e : Event) (h : History) : Prop :=
  match h with
  | [] => True
  | latest :: _ =>
      is_outcome latest = false
      /\ (is_failed_wait latest = true -> e = SetAborted)
  end.

(** where a navigation target comes from: the center of the goal, a
    pose the Frontier Service answered, or the default pose of a
    [goal_pose] never assigned, after [ros::ok()] answered false *)
Definition target_known (goal : ExploreTaskGoal.t) (target : PoseStamped.t)
           (h : History) : Prop :=
  target = center_pose goal
  \/ (exists start_pose, In (FrontierCall start_pose (Some target)) h)
  \/ (target = PoseStamped_default /\ existsb is_shutdown_seen h = true).

(** what event [e] requires of the history [h] before it *)
Definition requires (goal : ExploreTaskGoal.t) (e : Event) (h : History) : Prop :=
  match e with
  | BoundaryCall request _ =>
      request = ExploreTaskGoal.explore_boundary goal
      /\ existsb boundary_available h = true
      /\ existsb is_preempt_seen h = false
  | IsPreemptRequested _ =>
      existsb is_move_wait h = false
  | SendGoalAndWait target _ =>
      existsb navigation_available h = true
      /\ target_known goal target h
  | FrontierCall start_pose _ =>
      existsb frontier_available h = true
      /\ last_robot_pose h = Some start_pose
  | TransformPose frame pose _ =>
      frame = boundary_frame goal
      /\ last_robot_pose h = Some pose
      /\ String.eqb (Header.frame_id (PoseStamped.header pose)) frame = false
  | GetRobotPose _ =>
      existsb frontier_available h = true
  | Sleep =>
      match h with
      | RosOk true :: attempt :: _ => is_failed_attempt attempt = true
      | _ => False
      end
  | SetSucceeded =>
      match h with
      | FrontierCall _ None :: _ => True
      | _ => False
      end
  | SetAborted =>
      match h with
      | RosOk false :: attempt :: _ => is_failure attempt = true
      | latest :: _ => is_failed_wait latest || is_failure latest = true
      | [] => False
      end
  | _ => True
  end.

Fixpoint protocol (goal : ExploreTaskGoal.t) (h : History) : Prop :=
  match h with
  | [] => True
  | e :: h' => (follows e h' /\ requires goal e h') /\ protocol goal h'
  end.

(** the ways [executeCB] ends: by [return] after an outcome, by running
    off its end after [ros::ok()] answered false, by an exception of
    [transformPose] *)
Definition ended (t : Termination) (h : History) : Prop :=
  match h with
  | SetSucceeded :: _ | SetAborted :: _ | RosOk false :: _ => t = Returned
  | TransformPose _ _ None :: _ => t = Threw
  | _ => False
  end.

(** * Proofs *)

(** ** Rounding

    The Standard Library specifies the operations but proves nothing
    about them; the facts the containment test needs follow. *)

Section RoundingFacts.
Variables prec emax : Z.
Hypothesis prec_pos : 0 < prec.

Lemma digits2_pos_bounds (m : positive) :
  2 ^ (Zpos (digits2_pos m) - 1) <= Zpos m < 2 ^ Zpos (digits2_pos m).
Proof.
  induction m as [m IH | m IH |]; cbn [digits2_pos].
  - rewrite Pos2Z.inj_succ.
    replace (Z.succ (Zpos (digits2_pos m)) - 1) with (Z.succ (Zpos (digits2_pos m) - 1)) by lia.
    rewrite !Z.pow_succ_r by lia. lia.
  - rewrite Pos2Z.inj_succ.
    replace (Z.succ (Zpos (digits2_pos m)) - 1) with (Z.succ (Zpos (digits2_pos m) - 1)) by lia.
    rewrite !Z.pow_succ_r by lia. lia.
  - cbn. lia.
Qed.

Lemma shr_1_m (mrs : shr_record) :
  0 <= shr_m mrs -> shr_m (shr_1 mrs) = Z.div2 (shr_m mrs).
Proof.
  destruct mrs as [m r s]; cbn [shr_m]; intros Hm.
  destruct m as [|p|p]; [reflexivity | | lia].
  destruct p; reflexivity.
Qed.

Lemma iter_shr_1_m (n : positive) :
  forall mrs, 0 <= shr_m mrs ->
    shr_m (iter_pos shr_1 n mrs) = Z.shiftr (shr_m mrs) (Zpos n).
Proof.
  induction n as [n IH | n IH |]; intros mrs Hm; cbn [iter_pos].
  - assert (H1 : 0 <= shr_m (shr_1 mrs)).
    { rewrite shr_1_m by assumption. rewrite Z.div2_div. apply Z.div_pos; lia. }
    assert (H2 : 0 <= shr_m (iter_pos shr_1 n (shr_1 mrs))).
    { rewrite IH by assumption. apply Z.shiftr_nonneg. assumption. }
    rewrite IH by assumption. rewrite IH by assumption.
    rewrite shr_1_m by assumption.
    rewrite Z.div2_spec.
    rewrite !Z.shiftr_shiftr by lia.
    f_equal. lia.
  - assert (H2 : 0 <= shr_m (iter_pos shr_1 n mrs)).
    { rewrite IH by assumption. apply Z.shiftr_nonneg. assumption. }
    rewrite IH by assumption. rewrite IH by assumption.
    rewrite !Z.shiftr_shiftr by lia.
    f_equal. lia.
  - rewrite shr_1_m by assumption. apply Z.div2_spec.
Qed.

Lemma shr_record_of_loc_m m l : shr_m (shr_record_of_loc m l) = m.
Proof. destruct l as [|[| |]]; reflexivity. Qed.

(** Shifting a positive mantissa into the format never loses all of its
    bits, and the exponent stays at or above [emin]. *)
Lemma shr_fexp_pos (m : positive) (e : Z) (l : location) :
  emin prec emax <= e ->
  exists m', shr_m (fst (shr_fexp prec emax (Zpos m) e l)) = Zpos m'
             /\ emin prec emax <= snd (shr_fexp prec emax (Zpos m) e l).
Proof.
  intros He. unfold shr_fexp, shr.
  cbn [Zdigits2].
  pose proof (digits2_pos_bounds m) as [Hlo Hhi].
  set (d := Zpos (digits2_pos m)) in *.
  destruct (fexp prec emax (d + e) - e) as [|n|n] eqn:Hn; cbn [fst snd].
  - rewrite shr_record_of_loc_m. exists m. split; [reflexivity | lia].
  - rewrite iter_shr_1_m by (rewrite shr_record_of_loc_m; lia).
    rewrite shr_record_of_loc_m.
    unfold fexp in Hn.
    assert (Hn' : Zpos n = d - prec) by lia.
    assert (Hq : 1 <= Z.shiftr (Zpos m) (Zpos n)).
    { rewrite Z.shiftr_div_pow2 by lia.
      apply Z.div_le_lower_bound; [apply Z.pow_pos_nonneg; lia|].
      rewrite Z.mul_1_r.
      apply Z.le_trans with (2 ^ (d - 1)); [|assumption].
      apply Z.pow_le_mono_r; lia. }
    destruct (Z.shiftr (Zpos m) (Zpos n)) as [|q|q]; try lia.
    exists q. split; [reflexivity | lia].
  - rewrite shr_record_of_loc_m. exists m. split; [reflexivity | lia].
Qed.

Lemma round_nearest_even_pos (m : positive) l :
  exists m', round_nearest_even (Zpos m) l = Zpos m'.
Proof.
  destruct l as [|[| |]]; cbn [round_nearest_even]; eauto.
  - destruct (Z.even (Zpos m)); eauto.
    exists (m + 1)%positive. reflexivity.
  - exists (m + 1)%positive. reflexivity.
Qed.

Lemma binary_round_aux_pos s (m : positive) e l :
  emin prec emax <= e ->
  finite_or_inf prec emax (binary_round_aux prec emax s (Zpos m) e l).
Proof.
  intros He. unfold binary_round_aux.
  destruct (shr_fexp_pos m e l He) as (m1 & Hm1 & He1).
  destruct (shr_fexp prec emax (Zpos m) e l) as [mrs1 e1]; cbn [fst snd] in *.
  rewrite Hm1.
  destruct (round_nearest_even_pos m1 (loc_of_shr_record mrs1)) as (m2 & Hm2).
  rewrite Hm2.
  destruct (shr_fexp_pos m2 e1 loc_Exact He1) as (m3 & Hm3 & He3).
  destruct (shr_fexp prec emax (Zpos m2) e1 loc_Exact) as [mrs3 e3]; cbn [fst snd] in *.
  rewrite Hm3.
  destruct (e3 <=? emax - prec); cbn; auto.
Qed.

Lemma binary_round_pos s (m : positive) e :
  emin prec emax <= e ->
  finite_or_inf prec emax (binary_round prec emax s m e).
Proof.
  intros He. unfold binary_round, shl_align.
  destruct (fexp prec emax (Zpos (digits2_pos m) + e) - e) as [|n|n] eqn:Hn.
  - apply binary_round_aux_pos; assumption.
  - apply binary_round_aux_pos; assumption.
  - apply binary_round_aux_pos. unfold fexp. lia.
Qed.

(** A mantissa that is not negative is never rounded to a NaN. *)
Lemma shr_fexp_nonneg (m e : Z) (l : location) :
  0 <= m -> 0 <= shr_m (fst (shr_fexp prec emax m e l)).
Proof.
  intros Hm. unfold shr_fexp, shr.
  destruct (fexp prec emax (Zdigits2 m + e) - e) as [|n|n]; cbn [fst].
  - rewrite shr_record_of_loc_m. assumption.
  - rewrite iter_shr_1_m by (rewrite shr_record_of_loc_m; assumption).
    rewrite shr_record_of_loc_m. apply Z.shiftr_nonneg. assumption.
  - rewrite shr_record_of_loc_m. assumption.
Qed.

Lemma round_nearest_even_nonneg (m : Z) l :
  0 <= m -> 0 <= round_nearest_even m l.
Proof.
  intros Hm. destruct l as [|[| |]]; cbn [round_nearest_even]; try lia.
  destruct (Z.even m); lia.
Qed.

Lemma binary_round_aux_not_nan s (m e : Z) l :
  0 <= m -> is_nan (binary_round_aux prec emax s m e l) = false.
Proof.
  intros Hm. unfold binary_round_aux.
  pose proof (shr_fexp_nonneg m e l Hm) as H1.
  destruct (shr_fexp prec emax m e l) as [mrs1 e1]; cbn [fst] in H1.
  pose proof (round_nearest_even_nonneg _ (loc_of_shr_record mrs1) H1) as H2.
  pose proof (shr_fexp_nonneg _ e1 loc_Exact H2) as H3.
  destruct (shr_fexp prec emax _ e1 loc_Exact) as [mrs3 e3]; cbn [fst] in H3.
  destruct (shr_m mrs3) as [|q|q]; [reflexivity | | lia].
  destruct (e3 <=? emax - prec); reflexivity.
Qed.

Lemma binary_round_not_nan s (m : positive) e :
  is_nan (binary_round prec emax s m e) = false.
Proof.
  unfold binary_round.
  destruct (shl_align m e _) as [mz ez].
  apply binary_round_aux_not_nan. lia.
Qed.

(** *** Canonical mantissas *)

Lemma valid_finite_emin s m e :
  valid_binary prec emax (S754_finite s m e) = true ->
  emin prec emax <= e.
Proof.
  cbn [valid_binary]. unfold bounded, canonical_mantissa, fexp.
  intros H. apply andb_prop in H. destruct H as [H _].
  apply Z.eqb_eq in H. lia.
Qed.

Lemma iter_xO_value (m d : positive) :
  Zpos (Pos.iter xO m d) = Zpos m * 2 ^ Zpos d.
Proof.
  induction d as [|d IH] using Pos.peano_ind.
  - cbn. lia.
  - rewrite Pos.iter_succ, Pos2Z.inj_succ, Z.pow_succ_r by lia.
    rewrite Pos2Z.inj_xO, IH. lia.
Qed.

Lemma shl_align_value (m : positive) (e e' : Z) :
  e' <= e ->
  Zpos (fst (shl_align m e e')) = Zpos m * 2 ^ (e - e').
Proof.
  intros He. unfold shl_align.
  destruct (e' - e) as [|d|d] eqn:Hd; cbn [fst].
  - replace (e - e') with 0 by lia. lia.
  - lia.
  - rewrite iter_xO_value. f_equal. f_equal. lia.
Qed.

Lemma digits_of_shifted (m m' : positive) (k : Z) :
  0 <= k -> Zpos m' = Zpos m * 2 ^ k ->
  Zpos (digits2_pos m') = Zpos (digits2_pos m) + k.
Proof.
  intros Hk Hm.
  pose proof (digits2_pos_bounds m) as [Hlo Hhi].
  pose proof (digits2_pos_bounds m') as [Hlo' Hhi'].
  set (d := Zpos (digits2_pos m)) in *.
  set (d' := Zpos (digits2_pos m')) in *.
  assert (Hd : 0 < d) by (unfold d; lia).
  assert (Hd' : 0 < d') by (unfold d'; lia).
  assert (Hp : 0 < 2 ^ k) by (apply Z.pow_pos_nonneg; lia).
  assert (H1 : 2 ^ (d' - 1) < 2 ^ (d + k)).
  { rewrite Z.pow_add_r by lia. nia. }
  assert (H2 : 2 ^ (d + k - 1) < 2 ^ d').
  { replace (d + k - 1) with ((d - 1) + k) by lia.
    rewrite Z.pow_add_r by lia. nia. }
  apply Z.pow_lt_mono_r_iff in H1; [|lia|lia].
  apply Z.pow_lt_mono_r_iff in H2; [|lia|lia].
  lia.
Qed.

(** Two canonical numbers of the same sign and value are the same. *)
Lemma canonical_unique (mx my : positive) (ex ey : Z) :
  canonical_mantissa prec emax mx ex = true ->
  canonical_mantissa prec emax my ey = true ->
  Zpos mx * 2 ^ (ex - Z.min ex ey) = Zpos my * 2 ^ (ey - Z.min ex ey) ->
  mx = my /\ ex = ey.
Proof.
  unfold canonical_mantissa. intros Hx Hy Hv.
  apply Z.eqb_eq in Hx. apply Z.eqb_eq in Hy.
  destruct (Z.le_ge_cases ex ey) as [Hle | Hle].
  - rewrite Z.min_l in Hv by assumption.
    rewrite Z.sub_diag, Z.pow_0_r, Z.mul_1_r in Hv.
    pose proof (digits_of_shifted my mx (ey - ex) ltac:(lia) Hv) as Hd.
    rewrite Hd in Hx.
    replace (Zpos (digits2_pos my) + (ey - ex) + ex)
      with (Zpos (digits2_pos my) + ey) in Hx by lia.
    assert (Heq : ex = ey) by congruence. rewrite <- Heq in Hv.
    rewrite Z.sub_diag, Z.pow_0_r, Z.mul_1_r in Hv.
    split; [congruence | assumption].
  - rewrite Z.min_r in Hv by assumption.
    rewrite Z.sub_diag, Z.pow_0_r, Z.mul_1_r in Hv.
    symmetry in Hv.
    pose proof (digits_of_shifted mx my (ex - ey) ltac:(lia) Hv) as Hd.
    rewrite Hd in Hy.
    replace (Zpos (digits2_pos mx) + (ex - ey) + ey)
      with (Zpos (digits2_pos mx) + ex) in Hy by lia.
    assert (Heq : ex = ey) by congruence. rewrite <- Heq in Hv.
    rewrite Z.sub_diag, Z.pow_0_r, Z.mul_1_r in Hv.
    split; [congruence | assumption].
Qed.

(** The difference of two distinct numbers of the format is not a zero:
    it is NaN, an infinity, or finite with an exponent no less than
    [emin] (gradual underflow). *)

Lemma SFsub_away_from_zero (a b : spec_float) :
  valid_binary prec emax a = true ->
  valid_binary prec emax b = true ->
  ~ same_number a b ->
  away_from_zero prec emax (SFsub prec emax a b).
Proof.
  intros Ha Hb Hne.
  destruct a as [sa | sa | | sa ma ea], b as [sb | sb | | sb mb eb];
    cbn [SFsub away_from_zero]; auto.
  - exfalso. apply Hne. left. split; reflexivity.
  - eapply valid_finite_emin; eassumption.
  - destruct sa, sb; exact I.
  - eapply valid_finite_emin; eassumption.
  - pose proof (valid_finite_emin _ _ _ Ha) as Hea.
    pose proof (valid_finite_emin _ _ _ Hb) as Heb.
    cbn [valid_binary] in Ha, Hb. unfold bounded in Ha, Hb.
    apply andb_prop in Ha. destruct Ha as [Ha _].
    apply andb_prop in Hb. destruct Hb as [Hb _].
    set (ez := Z.min ea eb).
    pose proof (shl_align_value ma ea ez ltac:(unfold ez; lia)) as Hva.
    pose proof (shl_align_value mb eb ez ltac:(unfold ez; lia)) as Hvb.
    set (ma' := fst (shl_align ma ea ez)) in *.
    set (mb' := fst (shl_align mb eb ez)) in *.
    assert (Hd : cond_Zopp sa (Zpos ma') - cond_Zopp sb (Zpos mb') <> 0).
    { intros Hd. apply Hne. right.
      destruct sa, sb; cbn [cond_Zopp] in Hd; try lia.
      - assert (Hv : Zpos ma * 2 ^ (ea - ez) = Zpos mb * 2 ^ (eb - ez)) by lia.
        destruct (canonical_unique _ _ _ _ Ha Hb Hv); congruence.
      - assert (Hv : Zpos ma * 2 ^ (ea - ez) = Zpos mb * 2 ^ (eb - ez)) by lia.
        destruct (canonical_unique _ _ _ _ Ha Hb Hv); congruence. }
    assert (Hez : emin prec emax <= ez) by (unfold ez; lia).
    destruct (cond_Zopp sa (Zpos ma') - cond_Zopp sb (Zpos mb')) as [|d|d];
      [congruence | |]; cbn [binary_normalize].
    + pose proof (binary_round_pos false d ez Hez) as H.
      destruct (binary_round prec emax false d ez); cbn in *; auto.
    + pose proof (binary_round_pos true d ez Hez) as H.
      destruct (binary_round prec emax true d ez); cbn in *; auto.
Qed.
End RoundingFacts.

(** *** Comparisons *)

Lemma SFcompare_antisym (a b : spec_float) :
  SFcompare b a = match SFcompare a b with
                  | Some c => Some (CompOpp c)
                  | None => None
                  end.
Proof.
  destruct a as [sa | sa | | sa ma ea], b as [sb | sb | | sb mb eb];
    cbn [SFcompare]; try reflexivity;
    try (destruct sa; reflexivity); try (destruct sb; reflexivity);
    try (destruct sa, sb; reflexivity).
  destruct sa, sb; cbn; try reflexivity.
  - rewrite (Z.compare_antisym ea eb).
    destruct (ea ?= eb); cbn; try reflexivity.
    rewrite (Pos.compare_cont_antisym ma mb Eq). reflexivity.
  - rewrite (Z.compare_antisym ea eb).
    destruct (ea ?= eb); cbn; try reflexivity.
    rewrite (Pos.compare_cont_antisym ma mb Eq). cbn.
    destruct (Pos.compare_cont Eq ma mb); reflexivity.
Qed.

Lemma SFcompare_defined (a b : spec_float) :
  is_nan a = false -> is_nan b = false -> SFcompare a b <> None.
Proof.
  intros Ha Hb.
  destruct a as [sa | sa | | sa ma ea], b as [sb | sb | | sb mb eb];
    try discriminate; cbn [SFcompare]; discriminate.
Qed.

Lemma SFleb_negb_SFltb (a b : spec_float) :
  is_nan a = false -> is_nan b = false ->
  SFleb a b = negb (SFltb b a).
Proof.
  intros Ha Hb. unfold SFleb, SFltb.
  rewrite (SFcompare_antisym a b).
  pose proof (SFcompare_defined a b Ha Hb) as Hd.
  destruct (SFcompare a b) as [[| |]|]; [reflexivity .. | congruence].
Qed.

Lemma SFltb_nan_r (a : spec_float) : SFltb a S754_nan = false.
Proof. destruct a; reflexivity. Qed.

Lemma SFltb_nan_l (a : spec_float) : SFltb S754_nan a = false.
Proof. reflexivity. Qed.

Lemma SFleb_nan_l (a : spec_float) : SFleb S754_nan a = false.
Proof. reflexivity. Qed.

Lemma SFleb_nan_r (a : spec_float) : SFleb a S754_nan = false.
Proof. destruct a; reflexivity. Qed.

(** Comparing with a zero ignores the sign of the zero. *)
Lemma SFltb_zero_r (a : spec_float) (s s' : bool) :
  SFltb a (S754_zero s) = SFltb a (S754_zero s').
Proof. destruct a; reflexivity. Qed.

Lemma SFeqb_same_number (a b : spec_float) :
  SFeqb a b = true ->
  (is_zero a = true /\ is_zero b = true) \/ a = b.
Proof.
  unfold SFeqb.
  destruct a as [sa | sa | | sa ma ea], b as [sb | sb | | sb mb eb];
    cbn [SFcompare]; try discriminate;
    try (destruct sa; discriminate); try (destruct sb; discriminate).
  - intros _. left. split; reflexivity.
  - destruct sa, sb; try discriminate; intros _; right; reflexivity.
  - intros H. right.
    destruct sa, sb; try discriminate;
      destruct (ea ?= eb) eqn:He; try discriminate;
      apply Z.compare_eq in He;
      destruct (Pos.compare_cont Eq ma mb) eqn:Hm; try discriminate;
      apply Pos.compare_eq in Hm; congruence.
Qed.

(** ** The conversion from binary32 to binary64 *)

Lemma of_b32_nan (a : B32.t) : is_nan (B64.of_b32 a) = is_nan a.
Proof.
  destruct a as [s | s | | s m e]; try reflexivity.
  apply binary_round_not_nan.
Qed.

Lemma of_b32_away_from_zero (a : B32.t) :
  away_from_zero B32.prec B32.emax a ->
  is_zero (B64.of_b32 a) = false.
Proof.
  destruct a as [s | s | | s m e]; cbn [away_from_zero B64.of_b32 is_zero];
    try reflexivity; try contradiction.
  intros He.
  assert (Hw : emin B64.prec B64.emax <= e).
  { unfold emin, B32.prec, B32.emax, B64.prec, B64.emax in *. lia. }
  pose proof (binary_round_pos B64.prec B64.emax ltac:(reflexivity) s m e Hw) as H.
  destruct (binary_round B64.prec B64.emax s m e); cbn in H; try contradiction;
    reflexivity.
Qed.

(** ** [pointInPolygon] *)

Section PointInPolygonFacts.
Variable point : Point.t.

Lemma crossing_x_nan_i (pi pj : Point32.t) :
  is_nan (Point32.y pi) = true -> crossing_x point pi pj = S754_nan.
Proof.
  intros H. unfold crossing_x.
  destruct (Point32.y pi); try discriminate.
  cbn [B64.of_b32]. unfold B64.sub, B64.mul, B64.div, B64.add.
  replace (SFsub B64.prec B64.emax (Point.y point) S754_nan) with S754_nan
    by (destruct (Point.y point); reflexivity).
  set (dx := B64.of_b32 _).
  replace (SFmul B64.prec B64.emax dx S754_nan) with S754_nan
    by (destruct dx; reflexivity).
  reflexivity.
Qed.

Lemma crossing_x_nan_j (pi pj : Point32.t) :
  is_nan (Point32.y pj) = true -> crossing_x point pi pj = S754_nan.
Proof.
  intros H. unfold crossing_x.
  destruct (Point32.y pj); try discriminate.
  unfold B32.sub at 2. cbn [SFsub B64.of_b32].
  unfold B64.div, B64.add.
  set (n := B64.mul _ _).
  replace (SFdiv B64.prec B64.emax n S754_nan) with S754_nan
    by (destruct n; reflexivity).
  reflexivity.
Qed.

Lemma at_or_below_not_exceeds (a : B32.t) :
  is_nan a = false -> is_nan (Point.y point) = false ->
  at_or_below point a = negb (exceeds point a).
Proof.
  intros Ha Hy. unfold at_or_below, exceeds, B64.leb, B64.gtb.
  apply SFleb_negb_SFltb; [rewrite of_b32_nan|]; assumption.
Qed.

(** the abscissa of the loop body, operation by operation *)
Lemma crossing_x_rounded (pi pj : Point32.t) :
  crossing_x point pi pj = rounded_abscissa point pi pj.
Proof. reflexivity. Qed.

(** The condition of the loop body is the crossing condition in
    floating-point arithmetic, NaN coordinates included. *)
Lemma edge_test_is_rounded_crossing (pi pj : Point32.t) :
  edge_test point pi pj = is_rounded_crossing point (pi, pj).
Proof.
  unfold edge_test, is_rounded_crossing. cbn [fst snd].
  change (rounded_abscissa point pi pj) with (crossing_x point pi pj).
  change (SFltb (Point.x point) (crossing_x point pi pj))
    with (B64.ltb (Point.x point) (crossing_x point pi pj)).
  destruct (is_nan (Point32.y pi)) eqn:Hi.
  { rewrite (crossing_x_nan_i pi pj Hi). unfold B64.ltb.
    rewrite SFltb_nan_r, !andb_false_r. reflexivity. }
  destruct (is_nan (Point32.y pj)) eqn:Hj.
  { rewrite (crossing_x_nan_j pi pj Hj). unfold B64.ltb.
    rewrite SFltb_nan_r, !andb_false_r. reflexivity. }
  f_equal. unfold y_guard, straddles.
  fold (exceeds point (Point32.y pi)). fold (exceeds point (Point32.y pj)).
  destruct (is_nan (Point.y point)) eqn:Hy.
  { unfold exceeds, B64.gtb.
    destruct (Point.y point); try discriminate. reflexivity. }
  rewrite !at_or_below_not_exceeds by assumption.
  destruct (exceeds point (Point32.y pi)), (exceeds point (Point32.y pj));
    reflexivity.
Qed.

Lemma previous_index_0 (size : nat) :
  (0 < size)%nat -> previous_index size 0 = (size - 1)%nat.
Proof.
  intros H. unfold previous_index.
  rewrite Nat.add_0_l. apply Nat.mod_small. lia.
Qed.

Lemma previous_index_S (size i : nat) :
  (i < size)%nat -> previous_index size (S i) = i.
Proof.
  intros H. unfold previous_index.
  replace (S i + size - 1)%nat with (i + 1 * size)%nat by lia.
  rewrite Nat.Div0.mod_add. apply Nat.mod_small. lia.
Qed.

(** The loop invariant: with [rounds] rounds to go from index [i], [j]
    being the index before [i], the counter grows by the number of
    rounded crossings among the edges still to visit. *)
Lemma pointInPolygon_loop_counts (pts : list Point32.t) :
  forall (rounds i : nat) (j cross : Z),
    (i + rounds = length pts)%nat ->
    j = Z.of_nat (previous_index (length pts) i) ->
    pointInPolygon_loop point pts rounds (Z.of_nat i) j cross
    = cross + Z.of_nat (length (filter (is_rounded_crossing point)
                                       (map (edge_at pts) (seq i rounds)))).
Proof.
  induction rounds as [|rounds IH]; intros i j cross Hlen Hj.
  - cbn. lia.
  - cbn [pointInPolygon_loop seq map filter].
    replace (Z.of_nat i + 1) with (Z.of_nat (S i)) by lia.
    rewrite IH; [| lia | rewrite previous_index_S by lia; reflexivity].
    unfold at_index. subst j. rewrite !Nat2Z.id.
    rewrite edge_test_is_rounded_crossing. unfold edge_at at 2.
    destruct (is_rounded_crossing point _); cbn [length]; lia.
Qed.

Lemma odd_of_nat (c : nat) :
  negb (Z.rem (Z.of_nat c) 2 =? 0) = Nat.odd c.
Proof.
  rewrite Z.rem_mod_nonneg by lia.
  rewrite Zmod_odd.
  replace (Z.odd (Z.of_nat c)) with (Nat.odd c).
  - destruct (Nat.odd c); reflexivity.
  - induction c as [|c IH]; [reflexivity|].
    rewrite Nat2Z.inj_succ, Z.odd_succ, Nat.odd_succ.
    rewrite <- Z.negb_odd, <- Nat.negb_odd, IH. reflexivity.
Qed.

Lemma pointInPolygon_odd_rounded_crossings (polygon : Polygon.t) :
  pointInPolygon point polygon = Nat.odd (rounded_crossings point polygon).
Proof.
  unfold pointInPolygon, rounded_crossings, edges.
  set (pts := Polygon.points polygon).
  destruct pts as [|p pts'] eqn:Hpts; [reflexivity|].
  rewrite <- Hpts.
  rewrite (pointInPolygon_loop_counts pts (length pts) 0 _ 0).
  - rewrite Z.add_0_l. apply odd_of_nat.
  - reflexivity.
  - rewrite previous_index_0 by (rewrite Hpts; cbn; lia).
    rewrite Hpts. cbn [length]. lia.
Qed.
(** *** Defined behaviour *)

Lemma y_guard_distinct (pi pj : Point32.t) :
  y_guard point pi pj = true ->
  ~ same_number (Point32.y pj) (Point32.y pi).
Proof.
  unfold y_guard, B64.gtb. intros Hg [[Hj Hi] | Heq].
  - destruct (Point32.y pi) as [si| | |]; try discriminate.
    destruct (Point32.y pj) as [sj| | |]; try discriminate.
    cbn [B64.of_b32] in Hg.
    rewrite (SFltb_zero_r (Point.y point) si sj), xorb_nilpotent in Hg.
    discriminate.
  - rewrite Heq, xorb_nilpotent in Hg. discriminate.
Qed.

Lemma y_guard_not_equal (pi pj : Point32.t) :
  y_guard point pi pj = true ->
  SFeqb (Point32.y pi) (Point32.y pj) = false.
Proof.
  intros Hg. destruct (SFeqb (Point32.y pi) (Point32.y pj)) eqn:He; [|reflexivity].
  exfalso. apply (y_guard_distinct pi pj Hg).
  destruct (SFeqb_same_number _ _ He) as [[Hi Hj] | Heq].
  - left. split; assumption.
  - right. symmetry. assumption.
Qed.

Lemma divisor_not_zero (pi pj : Point32.t) :
  Point32.valid pi = true -> Point32.valid pj = true ->
  y_guard point pi pj = true ->
  is_zero (B64.of_b32 (B32.sub (Point32.y pj) (Point32.y pi))) = false.
Proof.
  unfold Point32.valid, B32.valid. intros Hi Hj Hg.
  apply andb_prop in Hi. destruct Hi as [Hi _].
  apply andb_prop in Hi. destruct Hi as [_ Hi].
  apply andb_prop in Hj. destruct Hj as [Hj _].
  apply andb_prop in Hj. destruct Hj as [_ Hj].
  apply of_b32_away_from_zero. unfold B32.sub.
  apply SFsub_away_from_zero; try assumption.
  - reflexivity.
  - apply y_guard_distinct. assumption.
Qed.

Lemma edge_test_checked_defined (pi pj : Point32.t) :
  Point32.valid pi = true -> Point32.valid pj = true ->
  edge_test_checked point pi pj = Some (edge_test point pi pj).
Proof.
  intros Hi Hj. unfold edge_test_checked, edge_test, crossing_x_checked.
  destruct (y_guard point pi pj) eqn:Hg; [|reflexivity].
  rewrite (divisor_not_zero pi pj Hi Hj Hg). reflexivity.
Qed.

Lemma at_index_checked_in_range (pts : list Point32.t) (i : nat) :
  (i < length pts)%nat ->
  at_index_checked pts (Z.of_nat i) = Some (at_index pts (Z.of_nat i)).
Proof.
  intros H. unfold at_index_checked, at_index.
  destruct (Z.ltb_spec (Z.of_nat i) 0) as [Hneg|_]; [lia|].
  rewrite Nat2Z.id. apply nth_error_nth'. assumption.
Qed.

Lemma at_index_valid (pts : list Point32.t) (i : nat) :
  forallb Point32.valid pts = true -> (i < length pts)%nat ->
  Point32.valid (at_index pts (Z.of_nat i)) = true.
Proof.
  intros Hv Hi. unfold at_index. rewrite Nat2Z.id.
  rewrite forallb_forall in Hv. apply Hv. apply nth_In. assumption.
Qed.

Lemma pointInPolygon_loop_checked_defined (pts : list Point32.t) :
  forallb Point32.valid pts = true ->
  forall (rounds i j : nat) (cross : Z),
    (i + rounds = length pts)%nat -> (j < length pts)%nat ->
    pointInPolygon_loop_checked point pts rounds (Z.of_nat i) (Z.of_nat j) cross
    = Some (pointInPolygon_loop point pts rounds (Z.of_nat i) (Z.of_nat j) cross).
Proof.
  intros Hv. induction rounds as [|rounds IH]; intros i j cross Hlen Hj.
  - reflexivity.
  - cbn [pointInPolygon_loop_checked pointInPolygon_loop].
    rewrite !at_index_checked_in_range by lia.
    rewrite edge_test_checked_defined by (apply at_index_valid; [assumption | lia]).
    replace (Z.of_nat i + 1) with (Z.of_nat (S i)) by lia.
    apply IH; lia.
Qed.

Lemma pointInPolygon_checked_defined (polygon : Polygon.t) :
  Polygon.valid polygon = true ->
  pointInPolygon_checked point polygon = Some (pointInPolygon point polygon).
Proof.
  unfold Polygon.valid, pointInPolygon_checked, pointInPolygon. intros Hv.
  destruct (Polygon.points polygon) as [|p pts'] eqn:Hpts; [reflexivity|].
  rewrite <- Hpts in *.
  assert (Hn : (0 < length (Polygon.points polygon))%nat)
    by (rewrite Hpts; cbn; lia).
  replace (Z.of_nat (length (Polygon.points polygon)) - 1)
    with (Z.of_nat (length (Polygon.points polygon) - 1)) by lia.
  rewrite (pointInPolygon_loop_checked_defined _ Hv _ 0%nat) by lia.
  reflexivity.
Qed.
End PointInPolygonFacts.

(** C7, as stated, fails: the abscissa the loop compares point.x with is
    computed in floating point and can fall on the other side of point.x
    than the point where the edge meets the line y = point.y.  In the
    triangle (5,0), (2^27,2), (5,2) the sloping edge meets the height 1
    at 67108866.5.  Taken from (2^27,2) to (5,0), the loop computes
    5 - 2^27 in binary32, which gives -134217720 and not -134217723, and
    from it the abscissa 67108868.  The point (67108867, 1) lies right of
    the edge, outside the triangle: no edge is a crossing, the number of
    crossings is even.  The loop counts the edge, and the test answers
    true.  With the vertices listed the other way round the edge is
    taken from (5,0) to (2^27,2) and its abscissa is computed as
    67108865.  The point (67108866, 1) lies left of the edge, inside the
    triangle: the edge is the one crossing.  The loop does not count it,
    and the test answers false. *)
Lemma C7_rounding_counterexample :
  let a := Scenario.p32 5 0 in
  let b := Scenario.p32 134217728 2 in
  Qeq_bool (interpolate 5 0 134217728 2 1) (134217733 # 2) = true
  /\ (let point := Scenario.beside_triangle in
      Polygon.valid Scenario.triangle = true
      /\ Point.x point = B64.of_Z 67108867
      /\ filter (is_crossing point) (edges (Polygon.points Scenario.triangle)) = []
      /\ Nat.odd (crossings point Scenario.triangle) = false
      /\ B32.sub (Point32.x a) (Point32.x b) = B32.of_Z (-134217720)
      /\ crossing_x point b a = B64.of_Z 67108868
      /\ pointInPolygon point Scenario.triangle = true)
  /\ (let point := Scenario.within_triangle in
      Polygon.valid Scenario.triangle_reversed = true
      /\ Point.x point = B64.of_Z 67108866
      /\ filter (is_crossing point)
                (edges (Polygon.points Scenario.triangle_reversed)) = [(a, b)]
      /\ Nat.odd (crossings point Scenario.triangle_reversed) = true
      /\ B32.sub (Point32.x b) (Point32.x a) = B32.of_Z 134217720
      /\ crossing_x point a b = B64.of_Z 67108865
      /\ pointInPolygon point Scenario.triangle_reversed = false).
Proof. cbv zeta. repeat split; vm_compute; reflexivity. Qed.

(** C7, amended. For every point and polygon the containment test
    answers true exactly when the number of rounded crossings is odd, a
    rounded crossing being an edge (p_i, p_j), j the previous index with
    wrap-around, such that one endpoint's y exceeds point.y while the
    other's is at most point.y, and point.x is less than the abscissa
    (p_j.x - p_i.x) * (point.y - p_i.y) / (p_j.y - p_i.y) + p_i.x
    evaluated in floating point, the differences of vertex coordinates in
    binary32 and the other operations in binary64. *)
Theorem C7_pointInPolygon_iff_odd_rounded_crossings :
  forall (point : Point.t) (polygon : Polygon.t),
    pointInPolygon point polygon = true
    <-> Nat.odd (rounded_crossings point polygon) = true.
Proof.
  intros point polygon. rewrite pointInPolygon_odd_rounded_crossings. reflexivity.
Qed.

(** C9, as stated, fails: for the two vertices (0,0) and (1,3) and the
    point (1/3, 1) the test answers true.  The two edges are the same
    segment taken in both directions; their abscissae at height 1 are
    computed as 1*1/3+0 and (-1)*(-2)/(-3)+1, which round to two
    neighbouring binary64 numbers, and point.x is the smaller of them. *)
Lemma C9_two_vertices_counterexample :
  (length (Polygon.points Scenario.segment) < 3)%nat
  /\ Polygon.valid Scenario.segment = true
  /\ pointInPolygon Scenario.beside_segment Scenario.segment = true.
Proof. vm_compute. repeat split; lia. Qed.

(** C9, amended. With no vertex or one vertex the test answers false.
    With two vertices it answers true exactly when point.y separates the
    two ordinates and point.x is less than exactly one of the two
    abscissae computed for the segment, one per direction; false
    otherwise. *)
Theorem C9_degenerate_polygon :
  forall (point : Point.t) (polygon : Polygon.t),
    (length (Polygon.points polygon) < 3)%nat ->
    pointInPolygon point polygon
    = match Polygon.points polygon with
      | [p0; p1] =>
          y_guard point p0 p1
          && xorb (B64.ltb (Point.x point) (crossing_x point p0 p1))
                  (B64.ltb (Point.x point) (crossing_x point p1 p0))
      | _ => false
      end.
Proof.
  intros point [pts] Hlen. cbn [Polygon.points] in *.
  destruct pts as [|p0 [|p1 [|p2 pts]]]; cbn [length] in Hlen; try lia.
  - reflexivity.
  - unfold pointInPolygon. cbn [Polygon.points length pointInPolygon_loop].
    unfold edge_test, y_guard. rewrite xorb_nilpotent. reflexivity.
  - unfold pointInPolygon. cbn [Polygon.points length pointInPolygon_loop].
    change (at_index [p0; p1] 0) with p0.
    change (at_index [p0; p1] (Z.of_nat 2 - 1)) with p1.
    change (at_index [p0; p1] (0 + 1)) with p1.
    unfold edge_test.
    assert (Hsym : y_guard point p1 p0 = y_guard point p0 p1)
      by (unfold y_guard; apply xorb_comm).
    rewrite Hsym.
    destruct (y_guard point p0 p1),
             (B64.ltb (Point.x point) (crossing_x point p0 p1)),
             (B64.ltb (Point.x point) (crossing_x point p1 p0)); reflexivity.
Qed.

Lemma C9_degenerate_polygon_witness :
  pointInPolygon (Scenario.p64 1 1) (Polygon.mk [Scenario.p32 0 0]) = false.
Proof.
  apply (C9_degenerate_polygon (Scenario.p64 1 1) (Polygon.mk [Scenario.p32 0 0])).
  cbn. lia.
Defined.

(** C10. The containment test is total.  On the C++ abstract machine,
    where a division by zero and an access out of range are undefined,
    it still yields a boolean for every point and every polygon of
    binary32 coordinates, and it is the boolean of [pointInPolygon].  The
    division is only evaluated under the guard, the guard implies
    p_i.y != p_j.y, and then the divisor p_j.y - p_i.y is not zero. *)
Theorem C10_pointInPolygon_total :
  forall (point : Point.t) (polygon : Polygon.t),
    Polygon.valid polygon = true ->
    pointInPolygon_checked point polygon = Some (pointInPolygon point polygon)
    /\ (forall pi pj : Point32.t,
          In pi (Polygon.points polygon) -> In pj (Polygon.points polygon) ->
          y_guard point pi pj = true ->
          SFeqb (Point32.y pi) (Point32.y pj) = false
          /\ is_zero (B64.of_b32 (B32.sub (Point32.y pj) (Point32.y pi))) = false)
    /\ (forall pi pj : Point32.t,
          y_guard point pi pj = false ->
          edge_test_checked point pi pj = Some false).
Proof.
  intros point polygon Hv. split; [|split].
  - apply pointInPolygon_checked_defined. assumption.
  - intros pi pj Hi Hj Hg. split.
    + apply (y_guard_not_equal point). assumption.
    + unfold Polygon.valid in Hv. rewrite forallb_forall in Hv.
      apply (divisor_not_zero point); auto.
  - intros pi pj Hg. unfold edge_test_checked. rewrite Hg. reflexivity.
Qed.

Lemma C10_pointInPolygon_total_witness :
  pointInPolygon_checked (Scenario.p64 1 1) Scenario.square = Some true.
Proof.
  exact (proj1 (C10_pointInPolygon_total (Scenario.p64 1 1) Scenario.square
                  eq_refl)).
Defined.

(** ** The mission controller *)

(** one step of symbolic execution: split on the next answer of the world *)
Ltac answer H :=
  match type of H with
  | (if negb ?b then _ else _) = _ => destruct b eqn:?
  | (if ?b then _ else _) = _ => destruct b eqn:?
  | (match ?x with _ => _ end) = _ => destruct x eqn:?
  end;
  cbn [negb andb] in H.

Ltac reassoc :=
  repeat (progress (cbn [app]; rewrite <- ?app_assoc)); reflexivity.

Ltac done H :=
  try discriminate H;
  try (injection H as <- <-).

Lemma well_traced_cons (env : Env.t) (e : Event) (h : History) :
  well_traced env (e :: h) = traced_step env e h && well_traced env h.
Proof. reflexivity. Qed.

Section Traces.
Variable env : Env.t.
Variable goal : ExploreTaskGoal.t.

Lemma well_traced_ros_ok (h : History) :
  well_traced env h = true ->
  well_traced env (RosOk (Env.ros_ok env h) :: h) = true.
Proof.
  intros H. cbn [well_traced]. unfold traced_step. cbn [guarded_step is_ok_check].
  rewrite H, Bool.eqb_reflx. destruct h as [|[] h]; reflexivity.
Qed.

Ltac traced :=
  cbn [settled];
  repeat match goal with
         | K : well_traced env ?l = true |- context [well_traced env ?l] =>
             rewrite K
         | |- context [well_traced env (?e :: ?l)] =>
             rewrite (well_traced_cons env e l)
         end;
  unfold traced_step; cbn [guarded_step is_ok_check];
  repeat match goal with
         | E : Env.ros_ok env _ = _ |- _ => rewrite E
         end;
  cbn [Bool.eqb andb];
  auto.

Lemma setBoundary_loop_traced :
  forall (fuel : nat) (retry : Z) (h : History) r h',
    well_traced env h = true ->
    setBoundary_loop env goal fuel retry h = Some (r, h') ->
    well_traced env h' = true /\ settled h' = true.
Proof.
  induction fuel as [|fuel IH]; intros retry h r h' Hh H; [discriminate|].
  cbn [setBoundary_loop ros_ok isPreemptRequested updateBoundaryPolygon_call] in H.
  pose proof (well_traced_ros_ok h Hh) as Hok.
  repeat (answer H; done H; try (split; [traced | reflexivity])).
  apply IH in H; [assumption | traced].
Qed.

Lemma navigate_loop_traced :
  forall (fuel : nat) (retry : Z) target (h : History) r h',
    well_traced env h = true ->
    navigate_loop env fuel retry target h = Some (r, h') ->
    well_traced env h' = true /\ settled h' = true.
Proof.
  induction fuel as [|fuel IH]; intros retry target h r h' Hh H; [discriminate|].
  cbn [navigate_loop ros_ok moveClient_sendGoalAndWait] in H.
  pose proof (well_traced_ros_ok h Hh) as Hok.
  repeat (answer H; done H; try (split; [traced | reflexivity])).
  apply IH in H; [assumption | traced].
Qed.

Lemma frontier_loop_traced :
  forall (fuel : nat) (retry : Z) success start_pose goal_pose (h : History) r h',
    well_traced env h = true ->
    frontier_loop env goal fuel retry success start_pose goal_pose h = Some (r, h') ->
    well_traced env h' = true /\ settled h' = true.
Proof.
  induction fuel as [|fuel IH];
    intros retry success start_pose goal_pose h r h' Hh H; [discriminate|].
  cbn [frontier_loop ros_ok getNextFrontier_call] in H.
  unfold boundary_check_pose, transformPose in H.
  pose proof (well_traced_ros_ok h Hh) as Hok.
  answer H; done H; [|split; [traced | reflexivity]].
  destruct (String.eqb _ _);
    repeat (answer H; done H; try (split; [traced | reflexivity]));
    (apply IH in H; [assumption | traced]).
Qed.

Lemma explore_body_traced :
  forall (fuel : nat) success (h : History) r h',
    well_traced env (RosOk true :: h) = true ->
    explore_body env goal fuel success (RosOk true :: h) = Some (r, h') ->
    well_traced env h' = true /\ settled h' = true.
Proof.
  intros fuel success h r h' Hh H.
  unfold explore_body in H. cbn [getRobotPose] in H.
  destruct (frontier_loop _ _ _ _ _ _ _ _) as [[f h1]|] eqn:Hf; [|discriminate].
  apply frontier_loop_traced in Hf; [|traced].
  destruct Hf as [Hf1 Hf2].
  destruct f as [goal_pose|goal_pose| |]; done H; auto.
  - destruct (navigate_loop _ _ _ _ _) as [[n h2]|] eqn:Hn; [|discriminate].
    apply navigate_loop_traced in Hn; [|assumption].
    destruct n; done H; assumption.
  - destruct (navigate_loop _ _ _ _ _) as [[n h2]|] eqn:Hn; [|discriminate].
    apply navigate_loop_traced in Hn; [|assumption].
    destruct n; done H; assumption.
Qed.

Lemma explore_loop_traced :
  forall (rounds fuel : nat) success (h : History) t h',
    well_traced env h = true ->
    explore_loop env goal rounds fuel success h = Some (t, h') ->
    well_traced env h' = true /\ settled h' = true.
Proof.
  induction rounds as [|rounds IH]; intros fuel success h t h' Hh H; [discriminate|].
  cbn [explore_loop ros_ok] in H.
  pose proof (well_traced_ros_ok h Hh) as Hok.
  answer H; done H; [|split; [assumption | reflexivity]].
  destruct (explore_body _ _ _ _ _) as [[[success'|t'] h1]|] eqn:Hb; [| |discriminate].
  - apply explore_body_traced in Hb; [|assumption].
    apply IH in H; [assumption | apply Hb].
  - apply explore_body_traced in Hb; [|assumption].
    done H. assumption.
Qed.

Lemma executeCB_traced :
  forall (fuel : nat) t h,
    executeCB env goal fuel [] = Some (t, h) ->
    well_traced env h = true /\ settled h = true.
Proof.
  intros fuel t h H. unfold executeCB in H.
  cbn [updateBoundaryPolygon_waitForExistence] in H.
  answer H; done H; [|split; reflexivity].
  destruct (setBoundary_loop _ _ _ _ _) as [[b h1]|] eqn:Hb; [|discriminate].
  apply setBoundary_loop_traced in Hb; [|reflexivity].
  destruct Hb as [Hb1 Hb2].
  assert (Hrest :
    forall h1, well_traced env h1 = true -> settled h1 = true ->
      (let '(connected, h) := moveClient_waitForServer env h1 in
       if negb connected then Some (Returned, SetAborted :: h) else
       match navigate_loop env fuel 5 (center_pose goal) h with
       | None => None
       | Some (Return, h) => Some (Returned, h)
       | Some (Throw, h) => Some (Threw, h)
       | Some (Break _, h) | Some (LoopEnd _, h) =>
           let '(exists_, h) := getNextFrontier_waitForExistence env h in
           if negb exists_ then Some (Returned, SetAborted :: h) else
           explore_loop env goal fuel fuel false h
       end) = Some (t, h) ->
      well_traced env h = true /\ settled h = true).
  { clear. intros h1 Hw Hs H.
    cbn [moveClient_waitForServer] in H.
    assert (Hpush : forall e, guarded_step e h1 = true ->
                              is_ok_check e = false ->
                              match e with RosOk _ => false | _ => true end = true ->
                              well_traced env (e :: h1) = true).
    { intros e Hg _ He. cbn [well_traced]. unfold traced_step.
      rewrite Hg, Hw. destruct e; try discriminate;
        destruct h1 as [|[] ?]; try discriminate; reflexivity. }
    answer H; done H.
    2:{ split; [|reflexivity].
        rewrite well_traced_cons, Hpush by reflexivity.
        unfold traced_step. reflexivity. }
    destruct (navigate_loop _ _ _ _ _) as [[n h2]|] eqn:Hn; [|discriminate].
    apply navigate_loop_traced in Hn; [|apply Hpush; reflexivity].
    destruct Hn as [Hn1 Hn2].
    assert (Hpush2 : forall e, guarded_step e h2 = true ->
                               match e with RosOk _ => false | _ => true end = true ->
                               well_traced env (e :: h2) = true).
    { intros e Hg He. cbn [well_traced]. unfold traced_step.
      rewrite Hg, Hn1. destruct e; try discriminate;
        destruct h2 as [|[] ?]; try discriminate; reflexivity. }
    destruct n; done H; auto;
      cbn [getNextFrontier_waitForExistence] in H;
      answer H; done H;
      try (split; [|reflexivity];
           rewrite well_traced_cons, Hpush2 by reflexivity;
           unfold traced_step; reflexivity);
      (apply explore_loop_traced in H; [assumption | apply Hpush2; reflexivity]). }
  destruct b; done H; auto; apply (Hrest h1); assumption.
Qed.

(** *** What a well-traced history satisfies *)

Lemma well_traced_guarded (h : History) :
  well_traced env h = true -> guarded h = true.
Proof.
  induction h as [|e h IH]; [reflexivity|].
  cbn [well_traced guarded]. unfold traced_step. intros H.
  repeat (apply andb_prop in H; destruct H as [H ?]).
  rewrite H, IH by assumption. reflexivity.
Qed.

Lemma well_traced_delays_checked (h : History) :
  well_traced env h = true -> delays_checked h = true.
Proof.
  induction h as [|e h IH]; [reflexivity|].
  cbn [well_traced delays_checked]. unfold traced_step. intros H.
  repeat (apply andb_prop in H; destruct H as [H ?]).
  rewrite IH by assumption.
  destruct h as [|[] h]; try reflexivity. rewrite andb_true_r. assumption.
Qed.

(** an answer [true] of [ros::ok()] is recorded only if no shutdown was
    seen before *)
Lemma traced_ok_true (h : History) :
  shutdown_is_final env ->
  traced_step env (RosOk true) h = true ->
  existsb is_shutdown_seen h = false.
Proof.
  intros Hfinal H. unfold traced_step in H.
  repeat (apply andb_prop in H; destruct H as [H ?]).
  destruct (existsb is_shutdown_seen h) eqn:Hs; [|reflexivity].
  rewrite (Hfinal h Hs) in *. discriminate.
Qed.

Ltac peel H :=
  repeat match type of H with
         | match ?x with _ => _ end = true => destruct x; try discriminate H
         end.

Lemma well_traced_quiet_after_shutdown (h : History) :
  shutdown_is_final env ->
  well_traced env h = true -> quiet_after_shutdown h = true.
Proof.
  intros Hfinal. induction h as [|e h IH]; [reflexivity|].
  intros H. cbn [quiet_after_shutdown].
  cbn [well_traced] in H. apply andb_prop in H. destruct H as [Hstep Hh].
  rewrite IH by assumption. rewrite andb_true_r.
  destruct (is_collaborator_call e) eqn:Hc; [|reflexivity].
  cbn [negb orb].
  unfold traced_step in Hstep.
  repeat (apply andb_prop in Hstep; destruct Hstep as [Hstep ?]).
  destruct e; try discriminate Hc; cbn [guarded_step] in Hstep; peel Hstep;
    cbn [well_traced] in Hh;
    repeat (apply andb_prop in Hh; destruct Hh as [? Hh]);
    cbn [existsb is_shutdown_seen orb];
    match goal with
    | K : traced_step env (RosOk true) ?l = true |- _ =>
        rewrite (traced_ok_true l Hfinal K)
    end; reflexivity.
Qed.

Lemma delay_cancelled_shutdown_seen (h : History) :
  delay_cancelled h = true -> existsb is_shutdown_seen h = true.
Proof.
  induction h as [|e h IH]; [discriminate|].
  cbn [delay_cancelled existsb].
  destruct e as [[]| | | | | | | | | | | |]; cbn [is_shutdown_seen orb]; auto.
Qed.

Lemma quiet_after_shutdown_delay (h : History) :
  quiet_after_shutdown h = true -> quiet_after_cancelled_delay h = true.
Proof.
  induction h as [|e h IH]; [reflexivity|].
  cbn [quiet_after_shutdown quiet_after_cancelled_delay]. intros H.
  apply andb_prop in H. destruct H as [H1 H2].
  rewrite IH by assumption. rewrite andb_true_r.
  destruct (is_collaborator_call e); [|reflexivity].
  cbn [negb orb] in *.
  destruct (delay_cancelled h) eqn:Hd; [|reflexivity].
  rewrite (delay_cancelled_shutdown_seen h Hd) in H1. discriminate.
Qed.
End Traces.

(** ** What each loop adds to the history *)

Section LoopEvents.
Variable env : Env.t.
Variable goal : ExploreTaskGoal.t.

Lemma navigate_loop_events :
  forall (fuel : nat) (retry : Z) target (h : History) r h',
    navigate_loop env fuel retry target h = Some (r, h') ->
    exists new,
      h' = new ++ h
      /\ Forall (navigation_event target) new
      /\ match r with
         | Break _ => exists rest, new = SendGoalAndWait target SUCCEEDED :: rest
         | LoopEnd _ =>
             existsb is_navigation_success new = false
             /\ existsb is_outcome new = false
         | Return =>
             exists rest, new = SetAborted :: rest
                          /\ existsb is_navigation_success rest = false
         | Throw => False
         end.
Proof.
  induction fuel as [|fuel IH]; intros retry target h r h' H; [discriminate|].
  cbn [navigate_loop ros_ok moveClient_sendGoalAndWait] in H.
  answer H; done H.
  2:{ exists [RosOk false]. repeat split; auto. repeat constructor. }
  destruct (is_SUCCEEDED (Env.moveClient_sendGoalAndWait env (RosOk true :: h) target))
    eqn:Hs.
  { destruct (Env.moveClient_sendGoalAndWait env (RosOk true :: h) target);
      try discriminate Hs.
    done H.
    exists [SendGoalAndWait target SUCCEEDED; RosOk true].
    split; [reflexivity|]. split; [repeat constructor|]. eexists. reflexivity. }
  assert (Hfail : is_navigation_success
                    (SendGoalAndWait target
                       (Env.moveClient_sendGoalAndWait env (RosOk true :: h) target))
                  = false).
  { cbn. destruct (Env.moveClient_sendGoalAndWait env (RosOk true :: h) target);
      try discriminate Hs; reflexivity. }
  set (nav := SendGoalAndWait target _) in *.
  answer H; done H.
  { exists [SetAborted; nav; RosOk true]. split; [reflexivity|]. split.
    - repeat constructor.
    - exists [nav; RosOk true]. split; [reflexivity|].
      cbn [existsb]. rewrite Hfail. reflexivity. }
  answer H; done H.
  2:{ exists [SetAborted; RosOk false; nav; RosOk true]. split; [reflexivity|]. split.
      - repeat constructor.
      - eexists. split; [reflexivity|].
        cbn [existsb is_navigation_success]. rewrite Hfail. reflexivity. }
  apply IH in H. destruct H as (new & -> & Hall & Hr).
  exists (new ++ [Sleep; RosOk true; nav; RosOk true]). split.
  { rewrite <- app_assoc. reflexivity. }
  split.
  { apply Forall_app. split; [assumption|]. repeat constructor. }
  destruct r as [[]|[]| |].
  - destruct Hr as (rest & ->). eexists. reflexivity.
  - destruct Hr as [Hn Ho]. rewrite !existsb_app, Hn, Ho.
    cbn [existsb is_navigation_success is_outcome]. rewrite Hfail. split; reflexivity.
  - destruct Hr as (rest & -> & Hn). eexists. split; [reflexivity|].
    rewrite existsb_app, Hn. cbn [existsb is_navigation_success].
    rewrite Hfail. reflexivity.
  - contradiction.
Qed.

Lemma int_decr_small (retry : Z) :
  1 <= retry < 2 ^ 31 -> int_decr retry = retry - 1.
Proof.
  intros H. unfold int_decr, int_wrap.
  rewrite Z.mod_small; lia.
Qed.

Lemma count_app (p : Event -> bool) (l1 l2 : History) :
  count p (l1 ++ l2) = (count p l1 + count p l2)%nat.
Proof. unfold count. rewrite filter_app, length_app. reflexivity. Qed.

Lemma boundary_check_pose_events start_pose (h : History) c h1 :
  boundary_check_pose env goal start_pose h = (c, h1) ->
  exists pre,
    h1 = pre ++ h
    /\ Forall frontier_event pre
    /\ count is_frontier_failure pre = 0%nat
    /\ existsb is_outcome pre = false
    /\ existsb is_frontier_call pre = false.
Proof.
  unfold boundary_check_pose, transformPose.
  destruct (String.eqb _ _); intros H; injection H as <- <-.
  - exists []. repeat split; constructor.
  - eexists [_]. repeat split. repeat constructor.
Qed.

Lemma frontier_loop_events :
  forall (fuel : nat) (retry : Z) success start_pose goal_pose (h : History) r h',
    1 <= retry < 2 ^ 31 ->
    frontier_loop env goal fuel retry success start_pose goal_pose h = Some (r, h') ->
    exists new,
      h' = new ++ h
      /\ Forall frontier_event new
      /\ Z.of_nat (count is_frontier_failure new) <= retry
      /\ match r with
         | Return =>
             exists rest,
               existsb is_outcome rest = false
               /\ ((new = SetSucceeded :: rest /\ success = true
                    /\ Z.of_nat (count is_frontier_failure new) = retry)
                   \/ (new = SetAborted :: rest
                       /\ (Z.of_nat (count is_frontier_failure new) = retry ->
                           success = false)))
         | _ =>
             existsb is_outcome new = false
             /\ Z.of_nat (count is_frontier_failure new) < retry
         end.
Proof.
  induction fuel as [|fuel IH];
    intros retry success start_pose goal_pose h r h' Hretry H; [discriminate|].
  cbn [frontier_loop ros_ok getNextFrontier_call] in H.
  answer H; done H.
  2:{ exists [RosOk false]. repeat split; try (cbn; lia). repeat constructor. }
  destruct (boundary_check_pose env goal start_pose (RosOk true :: h))
    as [checked h1] eqn:Hc.
  apply boundary_check_pose_events in Hc.
  destruct Hc as (pre & -> & Hpre & Hpre0 & Hpre1 & _).
  assert (Hquiet : forall l, Forall frontier_event l ->
                             count is_frontier_failure l = 0%nat ->
                             existsb is_outcome l = false ->
            Forall frontier_event (l ++ pre ++ [RosOk true])
            /\ count is_frontier_failure (l ++ pre ++ [RosOk true]) = 0%nat
            /\ existsb is_outcome (l ++ pre ++ [RosOk true]) = false).
  { intros l Hl Hl0 Hl1. repeat split.
    - repeat (apply Forall_app; split); auto. repeat constructor.
    - rewrite !count_app, Hl0, Hpre0. reflexivity.
    - rewrite !existsb_app, Hl1, Hpre1. reflexivity. }
  assert (Hshape : forall l, (l ++ pre ++ [RosOk true]) ++ h
                             = l ++ pre ++ RosOk true :: h).
  { intros l. rewrite <- !app_assoc. reflexivity. }
  destruct checked as [eval_pose|]; done H.
  2:{ exists ([] ++ pre ++ [RosOk true]). split; [exact (eq_sym (Hshape []))|].
      destruct (Hquiet [] ltac:(constructor) eq_refl eq_refl) as (Ha & Hb & Hc).
      rewrite Hb, Hc. repeat split; auto; lia. }
  answer H; done H.
  2:{ exists ([] ++ pre ++ [RosOk true]). split; [exact (eq_sym (Hshape []))|].
      destruct (Hquiet [] ltac:(constructor) eq_refl eq_refl) as (Ha & Hb & Hc).
      rewrite Hb, Hc. repeat split; auto; lia. }
  destruct (Env.getNextFrontier_call env (pre ++ RosOk true :: h) start_pose)
    as [next_frontier|] eqn:Hcall; done H.
  { exists ([FrontierCall start_pose (Some next_frontier)] ++ pre ++ [RosOk true]).
    split; [exact (eq_sym (Hshape [_]))|].
    destruct (Hquiet [FrontierCall start_pose (Some next_frontier)]
                ltac:(repeat constructor) eq_refl eq_refl) as (Ha & Hb & Hc).
    rewrite Hb, Hc. repeat split; auto; lia. }
  rewrite int_decr_small in H by assumption.
  set (failure := FrontierCall start_pose None) in *.
  assert (Hone : Forall frontier_event ([failure] ++ pre ++ [RosOk true])
                 /\ count is_frontier_failure ([failure] ++ pre ++ [RosOk true]) = 1%nat
                 /\ existsb is_outcome ([failure] ++ pre ++ [RosOk true]) = false).
  { repeat split.
    - repeat (apply Forall_app; split); auto; repeat constructor.
    - rewrite !count_app, Hpre0. reflexivity.
    - rewrite !existsb_app, Hpre1. reflexivity. }
  destruct Hone as (Ha & Hb & Hc).
  destruct (retry - 1 =? 0) eqn:Hzero; cbn [andb] in H.
  - apply Z.eqb_eq in Hzero.
    destruct success; done H.
    + exists (SetSucceeded :: [failure] ++ pre ++ [RosOk true]).
      split; [reassoc|].
      split; [constructor; [exact I | assumption]|].
      change (count is_frontier_failure (SetSucceeded :: ?l))
        with (count is_frontier_failure l).
      rewrite Hb. split; [lia|].
      eexists. split; [exact Hc|]. left. repeat split. lia.
    + exists (SetAborted :: [failure] ++ pre ++ [RosOk true]).
      split; [reassoc|].
      split; [constructor; [exact I | assumption]|].
      change (count is_frontier_failure (SetAborted :: ?l))
        with (count is_frontier_failure l).
      rewrite Hb. split; [lia|].
      eexists. split; [exact Hc|]. right. repeat split.
  - apply Z.eqb_neq in Hzero.
    answer H; done H.
    2:{ exists (SetAborted :: RosOk false :: [failure] ++ pre ++ [RosOk true]).
        split; [reassoc|].
        split; [do 2 (constructor; [exact I|]); exact Ha|].
        change (count is_frontier_failure (SetAborted :: RosOk false :: ?l))
          with (count is_frontier_failure l).
        rewrite Hb. split; [lia|].
        eexists. split; [|right; split; [reflexivity|]].
        - cbn [existsb is_outcome orb]. exact Hc.
        - lia. }
    apply IH in H; [|lia].
    destruct H as (new & -> & Hall & Hcount & Hr).
    exists (new ++ RosOk true :: [failure] ++ pre ++ [RosOk true]).
    split; [reassoc|].
    assert (Hcnt : count is_frontier_failure
                     (new ++ RosOk true :: [failure] ++ pre ++ [RosOk true])
                   = (count is_frontier_failure new + 1)%nat).
    { rewrite count_app.
      change (count is_frontier_failure (RosOk true :: ?l))
        with (count is_frontier_failure l).
      rewrite Hb. reflexivity. }
    assert (Hout : forall l, existsb is_outcome
                     (l ++ RosOk true :: [failure] ++ pre ++ [RosOk true])
                   = existsb is_outcome l).
    { intros l. rewrite existsb_app. cbn [existsb is_outcome orb].
      rewrite Hc. apply orb_false_r. }
    split; [apply Forall_app; split; [assumption|constructor; [exact I|assumption]]|].
    rewrite Hcnt. split; [lia|].
    destruct r as [g|g| |].
    + rewrite Hout. destruct Hr. split; [assumption|lia].
    + rewrite Hout. destruct Hr. split; [assumption|lia].
    + destruct Hr as (rest & Hrest & Hcases).
      exists (rest ++ RosOk true :: [failure] ++ pre ++ [RosOk true]).
      rewrite Hout. split; [assumption|].
      destruct Hcases as [(-> & Hs & Hn) | (-> & Hn)].
      * left. repeat split; auto. lia.
      * right. split; [reflexivity|]. intros Heq. apply Hn. lia.
    + rewrite Hout. destruct Hr. split; [assumption|lia].
Qed.

Lemma navigation_events_facts target (l : History) :
  Forall (navigation_event target) l ->
  count is_frontier_failure l = 0%nat
  /\ existsb is_succeeded l = false
  /\ existsb is_frontier_call l = false
  /\ navigates_only_to target l.
Proof.
  induction 1 as [|e l He Hl IH].
  - repeat split. intros t s [].
  - destruct IH as (H1 & H2 & H3 & H4).
    destruct e; try contradiction; cbn [navigation_event] in He;
      (repeat split; [exact H1 | exact H2 | exact H3 |]);
      intros t s [Heq | Hin]; try discriminate Heq; eauto.
    injection Heq as <- <-. assumption.
Qed.

Lemma frontier_events_facts (l : History) :
  Forall frontier_event l ->
  existsb is_navigation_success l = false
  /\ (forall t s, ~ In (SendGoalAndWait t s) l).
Proof.
  induction 1 as [|e l He Hl IH].
  - split; [reflexivity | intros t s []].
  - destruct IH as (H1 & H2).
    destruct e; try contradiction; (split; [exact H1|]);
      intros t s [Heq | Hin]; try discriminate Heq; eapply H2; eassumption.
Qed.

Lemma boundary_events_facts (l : History) :
  Forall boundary_event l ->
  existsb is_succeeded l = false.
Proof.
  induction 1 as [|e l He Hl IH]; [reflexivity|].
  destruct e; try contradiction; exact IH.
Qed.

Lemma setBoundary_loop_events :
  forall (fuel : nat) (retry : Z) (h : History) r h',
    setBoundary_loop env goal fuel retry h = Some (r, h') ->
    exists new, h' = new ++ h /\ Forall boundary_event new.
Proof.
  induction fuel as [|fuel IH]; intros retry h r h' H; [discriminate|].
  cbn [setBoundary_loop ros_ok isPreemptRequested updateBoundaryPolygon_call] in H.
  answer H; done H.
  2:{ exists [RosOk false]. split; [reflexivity | repeat constructor]. }
  answer H; done H.
  { exists [IsPreemptRequested true; RosOk true].
    split; [reflexivity | repeat constructor]. }
  set (req := ExploreTaskGoal.explore_boundary goal) in *.
  answer H; done H.
  { exists [BoundaryCall req true; IsPreemptRequested false; RosOk true].
    split; [reflexivity | repeat constructor]. }
  answer H; done H.
  { exists [SetAborted; BoundaryCall req false; IsPreemptRequested false; RosOk true].
    split; [reflexivity | repeat constructor]. }
  answer H; done H.
  2:{ exists [SetAborted; RosOk false; BoundaryCall req false;
              IsPreemptRequested false; RosOk true].
      split; [reflexivity | repeat constructor]. }
  apply IH in H. destruct H as (new & -> & Hall).
  exists (new ++ [Sleep; RosOk true; BoundaryCall req false;
                  IsPreemptRequested false; RosOk true]).
  split; [reassoc|].
  apply Forall_app. split; [assumption | repeat constructor].
Qed.

(** one round of the explore loop *)
Lemma explore_body_events :
  forall (fuel : nat) success (h : History) r h',
    explore_body env goal fuel success h = Some (r, h') ->
    exists new,
      h' = new ++ h
      /\ (count is_frontier_failure new <= 5)%nat
      /\ (count is_frontier_failure new = 5%nat ->
          r = inr Returned
          /\ exists rest,
               new = (if success then SetSucceeded else SetAborted) :: rest
               /\ existsb is_outcome rest = false)
      /\ (existsb is_succeeded new = true ->
          success = true /\ count is_frontier_failure new = 5%nat)
      /\ (forall success', r = inl success' ->
            success' = success || existsb is_navigation_success new).
Proof.
  intros fuel success h r h' H. unfold explore_body in H.
  cbn [getRobotPose] in H.
  set (pose := GetRobotPose _) in *.
  destruct (frontier_loop _ _ _ _ _ _ _ _) as [[f h1]|] eqn:Hf; [|discriminate].
  apply frontier_loop_events in Hf; [|lia].
  destruct Hf as (newf & -> & Hallf & Hcount & Hr).
  destruct (frontier_events_facts newf Hallf) as (Hnavf & _).
  assert (Hff : forall l, count is_frontier_failure (l ++ [pose])
                          = count is_frontier_failure l).
  { intros l. rewrite count_app. cbn. lia. }
  assert (Hsu : forall l, existsb is_succeeded (l ++ [pose]) = existsb is_succeeded l).
  { intros l. rewrite existsb_app. cbn. apply orb_false_r. }
  assert (Hns : forall l, existsb is_navigation_success (l ++ [pose])
                          = existsb is_navigation_success l).
  { intros l. rewrite existsb_app. cbn. apply orb_false_r. }
  assert (Hou : forall l, existsb is_outcome (l ++ [pose]) = existsb is_outcome l).
  { intros l. rewrite existsb_app. cbn. apply orb_false_r. }
  assert (Hnosucc : forall l, existsb is_outcome l = false ->
                              existsb is_succeeded l = false).
  { induction l as [|e l IHl]; [reflexivity|].
    cbn [existsb]. intros Ho. apply orb_false_elim in Ho. destruct Ho as [He Hl].
    rewrite (IHl Hl). destruct e; try discriminate He; reflexivity. }
  assert (Hcontinue :
    forall goal_pose,
      existsb is_outcome newf = false ->
      Z.of_nat (count is_frontier_failure newf) < 5 ->
      match navigate_loop env fuel 5 goal_pose (newf ++ pose :: h) with
      | Some (Break _, h0) => Some (inl true, h0)
      | Some (LoopEnd _, h0) => Some (inl success, h0)
      | Some (Return, h0) => Some (inr Returned, h0)
      | Some (Throw, h0) => Some (inr Threw, h0)
      | None => None
      end = Some (r, h') ->
      exists new,
        h' = new ++ h
        /\ (count is_frontier_failure new <= 5)%nat
        /\ (count is_frontier_failure new = 5%nat ->
            r = inr Returned
            /\ exists rest,
                 new = (if success then SetSucceeded else SetAborted) :: rest
                 /\ existsb is_outcome rest = false)
        /\ (existsb is_succeeded new = true ->
            success = true /\ count is_frontier_failure new = 5%nat)
        /\ (forall success', r = inl success' ->
              success' = success || existsb is_navigation_success new)).
  { intros goal_pose Hout Hlt Hnav.
    destruct (navigate_loop _ _ _ _ _) as [[n h2]|] eqn:Hn; [|discriminate].
    apply navigate_loop_events in Hn.
    destruct Hn as (newn & -> & Halln & Hrn).
    destruct (navigation_events_facts _ newn Halln) as (Hn0 & Hn1 & _ & _).
    exists (newn ++ newf ++ [pose]).
    assert (Hc : count is_frontier_failure (newn ++ newf ++ [pose])
                 = count is_frontier_failure newf).
    { rewrite count_app, Hff, Hn0. reflexivity. }
    assert (Hs : existsb is_succeeded (newn ++ newf ++ [pose]) = false).
    { rewrite existsb_app, Hsu, Hn1, (Hnosucc newf Hout). reflexivity. }
    rewrite Hc, Hs.
    assert (Hshape : (newn ++ newf ++ [pose]) ++ h = newn ++ newf ++ pose :: h)
      by reassoc.
    destruct n as [[]|[]| |]; done Hnav;
      (split; [symmetry; exact Hshape|]);
      (split; [lia|]); (split; [intros; lia|]); (split; [discriminate|]);
      intros success' Heq; try discriminate Heq; injection Heq as <-.
    - destruct Hrn as (rest & ->). cbn [app existsb is_navigation_success].
      rewrite orb_true_r. reflexivity.
    - destruct Hrn as [Hrn _].
      rewrite existsb_app, Hns, Hrn, Hnavf, orb_false_r. reflexivity. }
  destruct f as [goal_pose|goal_pose| |].
  - destruct Hr as [Hout Hlt]. apply (Hcontinue goal_pose); assumption.
  - destruct Hr as [Hout Hlt]. apply (Hcontinue goal_pose); assumption.
  - done H. destruct Hr as (rest & Hrest & Hcases).
    exists (newf ++ [pose]). split; [reassoc|].
    rewrite Hff, Hsu. split; [lia|].
    destruct Hcases as [(-> & Hs & Hn) | (-> & Hn)].
    + split; [|split; [|discriminate]].
      * intros _. split; [reflexivity|]. exists (rest ++ [pose]).
        rewrite Hs, Hou. split; [reflexivity | assumption].
      * intros _. split; [assumption | lia].
    + split; [|split; [|discriminate]].
      * intros H5. split; [reflexivity|]. exists (rest ++ [pose]).
        rewrite Hn by lia. rewrite Hou. split; [reflexivity | assumption].
      * cbn [existsb is_succeeded orb]. intros Hs.
        rewrite (Hnosucc rest Hrest) in Hs. discriminate.
  - done H. destruct Hr as [Hout Hlt].
    exists (newf ++ [pose]). split; [reassoc|].
    rewrite Hff, Hsu, (Hnosucc newf Hout).
    split; [lia|]. split; [intros; lia|]. split; discriminate.
Qed.



End LoopEvents.

(** ** Specified behaviour of the mission controller *)




(** C3 fails on the code: when [ros::ok()] turns false at the head of
    the explore loop, here after the first frontier was reached,
    [executeCB] returns and has reported neither Succeeded nor Aborted. *)
Theorem C3_returns_without_outcome :
  let h := history_of
             (executeCB Scenario.shutdown_after_first_frontier Scenario.goal 10 []) in
  executeCB Scenario.shutdown_after_first_frontier Scenario.goal 10 []
  = Some (Returned, h)
  /\ existsb is_outcome h = false
  /\ count is_navigation_success h = 2%nat.
Proof. vm_compute. repeat split. Qed.

(** C4, as stated, fails: with a preemption requested from the start,
    the check before the Boundary Service call sees it, and the mission
    goes on: it navigates, asks the Frontier Service, and in the end
    reports Succeeded, not Aborted. *)
Lemma C4_preempt_counterexample :
  let h := history_of (executeCB Scenario.preempted_from_start Scenario.goal 10 []) in
  executeCB Scenario.preempted_from_start Scenario.goal 10 [] = Some (Returned, h)
  /\ call_after_preempt h = true
  /\ existsb is_aborted h = false
  /\ count is_navigation h = 2%nat
  /\ count is_frontier_call h = 5%nat
  /\ count is_preempt_seen h = 1%nat.
Proof. vm_compute. repeat split. Qed.

(** C4, amended. In every mission each request to the Boundary,
    Navigation or Frontier Service comes right after a [ros::ok()] that
    answered true (for the Boundary Service also an
    [isPreemptRequested()] that answered false, for the Frontier Service
    possibly with the pose transformation in between), and each round of
    the explore loop starts right after a [ros::ok()] that answered true.
    Shutdown being final, no request is issued once [ros::ok()] has
    answered false. *)
Theorem C4_checkpoints :
  forall (env : Env.t) (goal : ExploreTaskGoal.t) (fuel : nat)
         (t : Termination) (h : History),
    executeCB env goal fuel [] = Some (t, h) ->
    guarded h = true
    /\ (shutdown_is_final env -> quiet_after_shutdown h = true).
Proof.
  intros env goal fuel t h H.
  apply executeCB_traced in H. destruct H as [H _].
  split.
  - apply (well_traced_guarded env). assumption.
  - intros Hfinal. apply (well_traced_quiet_after_shutdown env); assumption.
Qed.

Lemma until_is_final (stop : History -> bool) preempt boundary navigation frontier robot :
  shutdown_is_final
    (Scenario.world (Scenario.until stop) preempt boundary navigation frontier robot).
Proof.
  intros h Hs. cbn. unfold Scenario.until. rewrite Hs. reflexivity.
Qed.

Lemma C4_checkpoints_witness :
  let h := history_of (executeCB Scenario.shutdown_during_delay Scenario.goal 10 []) in
  guarded h = true /\ quiet_after_shutdown h = true.
Proof.
  cbv zeta.
  destruct (C4_checkpoints Scenario.shutdown_during_delay Scenario.goal 10 Returned
              (history_of (executeCB Scenario.shutdown_during_delay Scenario.goal 10 [])))
    as [Hg Hq].
  - vm_compute. reflexivity.
  - split; [exact Hg|]. apply Hq. apply until_is_final.
Defined.

(** C5, as stated, fails.  When the node is shut down during the delay
    after a failed navigation to the center, the loop stops, but
    [executeCB] returns without reporting Aborted.  When a preemption is
    requested during that delay, the navigation loop does not look at it:
    the four remaining attempts are made. *)
Lemma C5_delay_counterexample :
  let h := history_of (executeCB Scenario.shutdown_during_delay Scenario.goal 10 []) in
  let h' := history_of (executeCB Scenario.preempt_during_delay Scenario.goal 10 []) in
  (executeCB Scenario.shutdown_during_delay Scenario.goal 10 [] = Some (Returned, h)
   /\ delay_cancelled h = true
   /\ existsb is_outcome h = false)
  /\ (executeCB Scenario.preempt_during_delay Scenario.goal 10 [] = Some (Returned, h')
      /\ (forall past, existsb is_sleep past = true ->
                       Env.isPreemptRequested Scenario.preempt_during_delay past = true)
      /\ count is_sleep h' = 4%nat
      /\ count is_navigation h' = 5%nat).
Proof.
  cbv zeta. split.
  - vm_compute. repeat split.
  - split; [vm_compute; reflexivity|].
    split; [intros past Hp; exact Hp|].
    vm_compute. split; reflexivity.
Qed.

(** C5, amended. In every mission each delay between two attempts is
    followed at once by a [ros::ok()] check, and the mission does not end
    inside a delay.  Shutdown being final, when that check answers false
    no further attempt of any operation is made. *)
Theorem C5_cancelled_delay :
  forall (env : Env.t) (goal : ExploreTaskGoal.t) (fuel : nat)
         (t : Termination) (h : History),
    executeCB env goal fuel [] = Some (t, h) ->
    settled h = true
    /\ delays_checked h = true
    /\ (shutdown_is_final env -> quiet_after_cancelled_delay h = true).
Proof.
  intros env goal fuel t h H.
  apply executeCB_traced in H. destruct H as [H Hs].
  split; [assumption|]. split.
  - apply (well_traced_delays_checked env). assumption.
  - intros Hfinal. apply quiet_after_shutdown_delay.
    apply (well_traced_quiet_after_shutdown env); assumption.
Qed.

Lemma C5_cancelled_delay_witness :
  let h := history_of (executeCB Scenario.shutdown_during_delay Scenario.goal 10 []) in
  settled h = true /\ delays_checked h = true /\ quiet_after_cancelled_delay h = true.
Proof.
  cbv zeta.
  destruct (C5_cancelled_delay Scenario.shutdown_during_delay Scenario.goal 10 Returned
              (history_of (executeCB Scenario.shutdown_during_delay Scenario.goal 10 [])))
    as (Hs & Hd & Hq).
  - vm_compute. reflexivity.
  - split; [exact Hs|]. split; [exact Hd|]. apply Hq. apply until_is_final.
Defined.

(** ** Retry loops without cancellation *)

Section Retry.
Variable env : Env.t.
Variable goal : ExploreTaskGoal.t.
Hypothesis calm : no_cancellation env.

Lemma calm_ok (h : History) : Env.ros_ok env h = true.
Proof. apply calm. Qed.

Lemma calm_preempt (h : History) : Env.isPreemptRequested env h = false.
Proof. apply calm. Qed.

Lemma int_decr_S (n : nat) :
  (n < 5)%nat -> int_decr (Z.of_nat (S n)) = Z.of_nat n.
Proof.
  intros H. rewrite int_decr_small; [lia|].
  assert (2 ^ 31 = 2147483648) by reflexivity. lia.
Qed.

Lemma fails_until_shift n attempt op (prefix h : History) :
  count attempt prefix = 1%nat ->
  fails_until (S n) attempt op h ->
  fails_until n attempt op (prefix ++ h).
Proof.
  intros Hp Hf new Hn. rewrite app_assoc. apply Hf.
  rewrite count_app, Hp. lia.
Qed.

Lemma succeeds_after_shift n attempt op (prefix h : History) :
  count attempt prefix = 1%nat ->
  succeeds_after (S n) attempt op h ->
  succeeds_after n attempt op (prefix ++ h).
Proof.
  intros Hp Hf new Hn. rewrite app_assoc. apply Hf.
  rewrite count_app, Hp. lia.
Qed.

(** *** Navigation *)

Lemma navigate_loop_exhausts target :
  forall (n fuel : nat) (h : History),
    (1 <= n <= 5)%nat -> (n <= fuel)%nat ->
    fails_until n is_navigation (navigation_succeeds env target) h ->
    exists new,
      navigate_loop env fuel (Z.of_nat n) target h
      = Some (Return, SetAborted :: new ++ h)
      /\ count is_navigation new = n
      /\ existsb is_outcome new = false
      /\ navigates_only_to target new.
Proof.
  induction n as [|n IH]; intros fuel h Hn Hfuel Hfail; [lia|].
  destruct fuel as [|fuel]; [lia|].
  cbn [navigate_loop ros_ok moveClient_sendGoalAndWait].
  rewrite calm_ok. cbn [negb].
  pose proof (Hfail [RosOk true] ltac:(cbn; lia)) as H1.
  unfold navigation_succeeds in H1. cbn [app] in H1. rewrite H1.
  rewrite int_decr_S by lia.
  set (nav := SendGoalAndWait target _).
  destruct n as [|n].
  - cbn [Z.of_nat Z.eqb].
    exists [nav; RosOk true]. repeat split.
    intros t s [Heq | [Heq | []]]; [|discriminate Heq].
    injection Heq as <- _. reflexivity.
  - replace (Z.of_nat (S n) =? 0) with false by (symmetry; apply Z.eqb_neq; lia).
    rewrite calm_ok. cbn [negb].
    destruct (IH fuel (Sleep :: RosOk true :: nav :: RosOk true :: h))
      as (new & Heq & Hc & Ho & Ht); [lia | lia | |].
    { apply (fails_until_shift _ _ _ [Sleep; RosOk true; nav; RosOk true] h);
        [reflexivity | assumption]. }
    exists (new ++ [Sleep; RosOk true; nav; RosOk true]).
    rewrite Heq. split; [f_equal; f_equal; f_equal; reassoc|].
    split; [rewrite count_app, Hc; cbn; lia|].
    split; [rewrite existsb_app, Ho; reflexivity|].
    intros t s Hin. apply in_app_or in Hin. destruct Hin as [Hin | Hin].
    + eapply Ht; eassumption.
    + destruct Hin as [Heq' | [Heq' | [Heq' | [Heq' | []]]]]; try discriminate Heq'.
      injection Heq' as <- _. reflexivity.
Qed.

Lemma navigate_loop_succeeds target :
  forall (k n fuel : nat) (h : History),
    (k < n <= 5)%nat -> (k < fuel)%nat ->
    fails_until k is_navigation (navigation_succeeds env target) h ->
    succeeds_after k is_navigation (navigation_succeeds env target) h ->
    exists new,
      navigate_loop env fuel (Z.of_nat n) target h
      = Some (Break tt, SendGoalAndWait target SUCCEEDED :: new ++ h)
      /\ count is_navigation new = k
      /\ existsb is_outcome new = false.
Proof.
  induction k as [|k IH]; intros n fuel h Hn Hfuel Hfail Hsucc.
  - destruct fuel as [|fuel]; [lia|].
    cbn [navigate_loop ros_ok moveClient_sendGoalAndWait].
    rewrite calm_ok. cbn [negb].
    pose proof (Hsucc [RosOk true] eq_refl) as H1.
    unfold navigation_succeeds in H1. cbn [app] in H1. rewrite H1.
    destruct (Env.moveClient_sendGoalAndWait env (RosOk true :: h) target);
      try discriminate H1.
    exists [RosOk true]. repeat split.
  - destruct fuel as [|fuel]; [lia|].
    destruct n as [|n]; [lia|].
    cbn [navigate_loop ros_ok moveClient_sendGoalAndWait].
    rewrite calm_ok. cbn [negb].
    pose proof (Hfail [RosOk true] ltac:(cbn; lia)) as H1.
    unfold navigation_succeeds in H1. cbn [app] in H1. rewrite H1.
    rewrite int_decr_S by lia.
    set (nav := SendGoalAndWait target _).
    replace (Z.of_nat n =? 0) with false by (symmetry; apply Z.eqb_neq; lia).
    rewrite calm_ok. cbn [negb].
    destruct (IH n fuel (Sleep :: RosOk true :: nav :: RosOk true :: h))
      as (new & Heq & Hc & Ho); [lia | lia | | |].
    { apply (fails_until_shift _ _ _ [Sleep; RosOk true; nav; RosOk true] h);
        [reflexivity | assumption]. }
    { apply (succeeds_after_shift _ _ _ [Sleep; RosOk true; nav; RosOk true] h);
        [reflexivity | assumption]. }
    exists (new ++ [Sleep; RosOk true; nav; RosOk true]).
    rewrite Heq. split; [f_equal; f_equal; f_equal; reassoc|].
    split; [rewrite count_app, Hc; cbn; lia|].
    rewrite existsb_app, Ho. reflexivity.
Qed.

(** *** The Boundary Service *)

Lemma setBoundary_loop_exhausts :
  forall (n fuel : nat) (h : History),
    (1 <= n <= 5)%nat -> (n <= fuel)%nat ->
    fails_until n is_boundary_call (boundary_call_succeeds env goal) h ->
    exists new,
      setBoundary_loop env goal fuel (Z.of_nat n) h
      = Some (Return, SetAborted :: new ++ h)
      /\ count is_boundary_call new = n
      /\ existsb is_outcome new = false.
Proof.
  induction n as [|n IH]; intros fuel h Hn Hfuel Hfail; [lia|].
  destruct fuel as [|fuel]; [lia|].
  cbn [setBoundary_loop ros_ok isPreemptRequested updateBoundaryPolygon_call].
  rewrite calm_ok. cbn [negb]. rewrite calm_preempt.
  pose proof (Hfail [IsPreemptRequested false; RosOk true] ltac:(cbn; lia)) as H1.
  unfold boundary_call_succeeds in H1. cbn [app] in H1. rewrite H1.
  rewrite int_decr_S by lia.
  set (call := BoundaryCall _ false).
  destruct n as [|n].
  - cbn [Z.of_nat Z.eqb].
    exists [call; IsPreemptRequested false; RosOk true]. repeat split.
  - replace (Z.of_nat (S n) =? 0) with false by (symmetry; apply Z.eqb_neq; lia).
    rewrite calm_ok. cbn [negb].
    set (prefix := [Sleep; RosOk true; call; IsPreemptRequested false; RosOk true]).
    change (Sleep :: RosOk true :: call :: IsPreemptRequested false :: RosOk true :: h)
      with (prefix ++ h).
    destruct (IH fuel (prefix ++ h)) as (new & Heq & Hc & Ho); [lia | lia | |].
    { apply fails_until_shift; [reflexivity | assumption]. }
    exists (new ++ prefix).
    rewrite Heq. split; [f_equal; f_equal; f_equal; reassoc|].
    split; [rewrite count_app, Hc; cbn; lia|].
    rewrite existsb_app, Ho. reflexivity.
Qed.

Lemma setBoundary_loop_succeeds :
  forall (k n fuel : nat) (h : History),
    (k < n <= 5)%nat -> (k < fuel)%nat ->
    fails_until k is_boundary_call (boundary_call_succeeds env goal) h ->
    succeeds_after k is_boundary_call (boundary_call_succeeds env goal) h ->
    exists new,
      setBoundary_loop env goal fuel (Z.of_nat n) h
      = Some (Break tt,
              BoundaryCall (ExploreTaskGoal.explore_boundary goal) true :: new ++ h)
      /\ count is_boundary_call new = k
      /\ existsb is_outcome new = false.
Proof.
  induction k as [|k IH]; intros n fuel h Hn Hfuel Hfail Hsucc.
  - destruct fuel as [|fuel]; [lia|].
    cbn [setBoundary_loop ros_ok isPreemptRequested updateBoundaryPolygon_call].
    rewrite calm_ok. cbn [negb]. rewrite calm_preempt.
    pose proof (Hsucc [IsPreemptRequested false; RosOk true] eq_refl) as H1.
    unfold boundary_call_succeeds in H1. cbn [app] in H1. rewrite H1.
    exists [IsPreemptRequested false; RosOk true]. repeat split.
  - destruct fuel as [|fuel]; [lia|].
    destruct n as [|n]; [lia|].
    cbn [setBoundary_loop ros_ok isPreemptRequested updateBoundaryPolygon_call].
    rewrite calm_ok. cbn [negb]. rewrite calm_preempt.
    pose proof (Hfail [IsPreemptRequested false; RosOk true] ltac:(cbn; lia)) as H1.
    unfold boundary_call_succeeds in H1. cbn [app] in H1. rewrite H1.
    rewrite int_decr_S by lia.
    set (call := BoundaryCall _ false).
    replace (Z.of_nat n =? 0) with false by (symmetry; apply Z.eqb_neq; lia).
    rewrite calm_ok. cbn [negb].
    set (prefix := [Sleep; RosOk true; call; IsPreemptRequested false; RosOk true]).
    change (Sleep :: RosOk true :: call :: IsPreemptRequested false :: RosOk true :: h)
      with (prefix ++ h).
    destruct (IH n fuel (prefix ++ h)) as (new & Heq & Hc & Ho); [lia | lia | | |].
    { apply fails_until_shift; [reflexivity | assumption]. }
    { apply succeeds_after_shift; [reflexivity | assumption]. }
    exists (new ++ prefix).
    rewrite Heq. split; [f_equal; f_equal; f_equal; reassoc|].
    split; [rewrite count_app, Hc; cbn; lia|].
    rewrite existsb_app, Ho. reflexivity.
Qed.

(** *** The Frontier Service *)

Lemma count_none (p : Event -> bool) (l : History) :
  existsb p l = false -> count p l = 0%nat.
Proof.
  unfold count. induction l as [|e l IH]; [reflexivity|].
  cbn [existsb filter]. intros H. apply orb_false_elim in H. destruct H as [He Hl].
  rewrite He. auto.
Qed.

Lemma stays_inside_shift start_pose (prefix h : History) :
  stays_inside env goal start_pose h ->
  stays_inside env goal start_pose (prefix ++ h).
Proof. intros H new. rewrite app_assoc. apply H. Qed.

(** the boundary check of one round, the pose staying inside *)
Lemma inside_check start_pose (h : History) :
  stays_inside env goal start_pose h ->
  exists eval_pose pre,
    boundary_check_pose env goal start_pose (RosOk true :: h)
    = (Some eval_pose, pre ++ RosOk true :: h)
    /\ pointInPolygon (Pose.position (PoseStamped.pose eval_pose))
                      (boundary_polygon goal) = true
    /\ count is_frontier_call pre = 0%nat
    /\ existsb is_outcome pre = false.
Proof.
  intros Hin. destruct (Hin [RosOk true]) as (eval_pose & Hc & Hp).
  cbn [app] in Hc.
  destruct (boundary_check_pose env goal start_pose (RosOk true :: h))
    as [c h1] eqn:Hb.
  cbn [fst] in Hc. subst c.
  apply boundary_check_pose_events in Hb.
  destruct Hb as (pre & -> & _ & _ & Ho & Hf).
  exists eval_pose, pre. repeat split; auto. apply count_none. assumption.
Qed.

Lemma frontier_loop_exhausts success start_pose goal_pose :
  forall (n fuel : nat) (h : History),
    (1 <= n <= 5)%nat -> (n <= fuel)%nat ->
    stays_inside env goal start_pose h ->
    fails_until n is_frontier_call (frontier_call_succeeds env start_pose) h ->
    exists new,
      frontier_loop env goal fuel (Z.of_nat n) success start_pose goal_pose h
      = Some (Return, (if success then SetSucceeded else SetAborted) :: new ++ h)
      /\ count is_frontier_call new = n
      /\ existsb is_outcome new = false.
Proof.
  induction n as [|n IH]; intros fuel h Hn Hfuel Hin Hfail; [lia|].
  destruct fuel as [|fuel]; [lia|].
  cbn [frontier_loop ros_ok getNextFrontier_call].
  rewrite calm_ok. cbn [negb].
  destruct (inside_check start_pose h Hin) as (eval_pose & pre & -> & -> & Hpre & Hout).
  cbn [negb].
  pose proof (Hfail (pre ++ [RosOk true])
                ltac:(rewrite count_app, Hpre; cbn; lia)) as H1.
  unfold frontier_call_succeeds in H1. rewrite <- app_assoc in H1. cbn [app] in H1.
  destruct (Env.getNextFrontier_call env (pre ++ RosOk true :: h) start_pose);
    [discriminate H1|].
  rewrite int_decr_S by lia.
  set (call := FrontierCall start_pose None).
  assert (Hshape : call :: pre ++ RosOk true :: h = (call :: pre ++ [RosOk true]) ++ h)
    by reassoc.
  assert (Hcount : count is_frontier_call (call :: pre ++ [RosOk true]) = 1%nat).
  { change (count is_frontier_call (call :: pre ++ [RosOk true]))
      with (S (count is_frontier_call (pre ++ [RosOk true]))).
    rewrite count_app, Hpre. reflexivity. }
  assert (Hquiet : existsb is_outcome (call :: pre ++ [RosOk true]) = false).
  { cbn [existsb is_outcome call orb]. rewrite existsb_app, Hout. reflexivity. }
  destruct n as [|n].
  - cbn [Z.of_nat Z.eqb andb].
    exists (call :: pre ++ [RosOk true]).
    split; [destruct success; rewrite Hshape; reflexivity|].
    split; assumption.
  - replace (Z.of_nat (S n) =? 0) with false by (symmetry; apply Z.eqb_neq; lia).
    cbn [andb]. rewrite calm_ok. cbn [negb].
    set (prefix := RosOk true :: call :: pre ++ [RosOk true]).
    assert (Hprefix : RosOk true :: call :: pre ++ RosOk true :: h = prefix ++ h)
      by (unfold prefix; reassoc).
    rewrite Hprefix.
    destruct (IH fuel (prefix ++ h)) as (new & Heq & Hc & Ho); [lia | lia | | |].
    { apply stays_inside_shift. assumption. }
    { apply fails_until_shift; [exact Hcount | assumption]. }
    exists (new ++ prefix).
    rewrite Heq. split; [f_equal; f_equal; f_equal; reassoc|].
    split; [rewrite count_app, Hc; unfold prefix;
            change (count is_frontier_call (RosOk true :: ?l))
              with (count is_frontier_call l); rewrite Hcount; lia|].
    rewrite existsb_app, Ho. unfold prefix. cbn [existsb is_outcome orb].
    exact Hquiet.
Qed.

Lemma frontier_loop_succeeds success start_pose goal_pose :
  forall (k n fuel : nat) (h : History),
    (k < n <= 5)%nat -> (k < fuel)%nat ->
    stays_inside env goal start_pose h ->
    fails_until k is_frontier_call (frontier_call_succeeds env start_pose) h ->
    succeeds_after k is_frontier_call (frontier_call_succeeds env start_pose) h ->
    exists new next_frontier,
      frontier_loop env goal fuel (Z.of_nat n) success start_pose goal_pose h
      = Some (Break next_frontier,
              FrontierCall start_pose (Some next_frontier) :: new ++ h)
      /\ count is_frontier_call new = k
      /\ existsb is_outcome new = false.
Proof.
  induction k as [|k IH]; intros n fuel h Hn Hfuel Hin Hfail Hsucc.
  - destruct fuel as [|fuel]; [lia|].
    cbn [frontier_loop ros_ok getNextFrontier_call].
    rewrite calm_ok. cbn [negb].
    destruct (inside_check start_pose h Hin)
      as (eval_pose & pre & -> & -> & Hpre & Hout).
    cbn [negb].
    pose proof (Hsucc (pre ++ [RosOk true])
                  ltac:(rewrite count_app, Hpre; reflexivity)) as H1.
    unfold frontier_call_succeeds in H1. rewrite <- app_assoc in H1. cbn [app] in H1.
    destruct (Env.getNextFrontier_call env (pre ++ RosOk true :: h) start_pose)
      as [next_frontier|]; [|discriminate H1].
    exists (pre ++ [RosOk true]), next_frontier.
    split; [f_equal; f_equal; f_equal; reassoc|].
    split; [rewrite count_app, Hpre; reflexivity|].
    rewrite existsb_app, Hout. reflexivity.
  - destruct fuel as [|fuel]; [lia|].
    destruct n as [|n]; [lia|].
    cbn [frontier_loop ros_ok getNextFrontier_call].
    rewrite calm_ok. cbn [negb].
    destruct (inside_check start_pose h Hin)
      as (eval_pose & pre & -> & -> & Hpre & Hout).
    cbn [negb].
    pose proof (Hfail (pre ++ [RosOk true])
                  ltac:(rewrite count_app, Hpre; cbn; lia)) as H1.
    unfold frontier_call_succeeds in H1. rewrite <- app_assoc in H1. cbn [app] in H1.
    destruct (Env.getNextFrontier_call env (pre ++ RosOk true :: h) start_pose);
      [discriminate H1|].
    rewrite int_decr_S by lia.
    set (call := FrontierCall start_pose None).
    replace (Z.of_nat n =? 0) with false by (symmetry; apply Z.eqb_neq; lia).
    cbn [andb]. rewrite calm_ok. cbn [negb].
    set (prefix := RosOk true :: call :: pre ++ [RosOk true]).
    assert (Hprefix : RosOk true :: call :: pre ++ RosOk true :: h = prefix ++ h)
      by (unfold prefix; reassoc).
    assert (Hcount : count is_frontier_call prefix = 1%nat).
    { unfold prefix.
      change (count is_frontier_call (RosOk true :: call :: pre ++ [RosOk true]))
        with (S (count is_frontier_call (pre ++ [RosOk true]))).
      rewrite count_app, Hpre. reflexivity. }
    rewrite Hprefix.
    destruct (IH n fuel (prefix ++ h)) as (new & f & Heq & Hc & Ho);
      [lia | lia | | | |].
    { apply stays_inside_shift. assumption. }
    { apply fails_until_shift; assumption. }
    { apply succeeds_after_shift; assumption. }
    exists (new ++ prefix), f.
    rewrite Heq. split; [f_equal; f_equal; f_equal; reassoc|].
    split; [rewrite count_app, Hc, Hcount; lia|].
    rewrite existsb_app, Ho. unfold prefix. cbn [existsb is_outcome call orb].
    rewrite existsb_app, Hout. reflexivity.
Qed.
End Retry.

(** ** The retry loops end *)

Section Termination.
Variable env : Env.t.
Variable goal : ExploreTaskGoal.t.

Lemma setBoundary_loop_terminates :
  forall (n fuel : nat) (h : History),
    (1 <= n <= 5)%nat -> (n <= fuel)%nat ->
    exists r new,
      setBoundary_loop env goal fuel (Z.of_nat n) h = Some (r, new ++ h)
      /\ (count is_boundary_call new <= n)%nat.
Proof.
  induction n as [|n IH]; intros fuel h Hn Hfuel; [lia|].
  destruct fuel as [|fuel]; [lia|].
  cbn [setBoundary_loop ros_ok isPreemptRequested updateBoundaryPolygon_call].
  destruct (Env.ros_ok env h); cbn [negb].
  2:{ exists (LoopEnd tt), [RosOk false]. split; [reflexivity | cbn; lia]. }
  destruct (Env.isPreemptRequested env _).
  { exists (LoopEnd tt), [IsPreemptRequested true; RosOk true].
    split; [reflexivity | cbn; lia]. }
  set (req := ExploreTaskGoal.explore_boundary goal).
  destruct (Env.updateBoundaryPolygon_call env _ _).
  { exists (Break tt), [BoundaryCall req true; IsPreemptRequested false; RosOk true].
    split; [reflexivity | cbn; lia]. }
  rewrite int_decr_S by lia.
  destruct n as [|n].
  { exists Return, [SetAborted; BoundaryCall req false; IsPreemptRequested false;
                    RosOk true].
    split; [reflexivity | cbn; lia]. }
  replace (Z.of_nat (S n) =? 0) with false by (symmetry; apply Z.eqb_neq; lia).
  destruct (Env.ros_ok env _); cbn [negb].
  2:{ exists Return, [SetAborted; RosOk false; BoundaryCall req false;
                      IsPreemptRequested false; RosOk true].
      split; [reflexivity | cbn; lia]. }
  set (prefix := [Sleep; RosOk true; BoundaryCall req false;
                  IsPreemptRequested false; RosOk true]).
  change (Sleep :: RosOk true :: BoundaryCall req false
            :: IsPreemptRequested false :: RosOk true :: h) with (prefix ++ h).
  destruct (IH fuel (prefix ++ h)) as (r & new & Heq & Hc); [lia | lia |].
  exists r, (new ++ prefix). rewrite Heq. split; [f_equal; f_equal; reassoc|].
  rewrite count_app. change (count is_boundary_call prefix) with 1%nat. lia.
Qed.

Lemma navigate_loop_terminates target :
  forall (n fuel : nat) (h : History),
    (1 <= n <= 5)%nat -> (n <= fuel)%nat ->
    exists r new,
      navigate_loop env fuel (Z.of_nat n) target h = Some (r, new ++ h)
      /\ (count is_navigation new <= n)%nat.
Proof.
  induction n as [|n IH]; intros fuel h Hn Hfuel; [lia|].
  destruct fuel as [|fuel]; [lia|].
  cbn [navigate_loop ros_ok moveClient_sendGoalAndWait].
  destruct (Env.ros_ok env h); cbn [negb].
  2:{ exists (LoopEnd tt), [RosOk false]. split; [reflexivity | cbn; lia]. }
  set (nav := SendGoalAndWait target _).
  destruct (is_SUCCEEDED _).
  { exists (Break tt), [nav; RosOk true]. split; [reflexivity | cbn; lia]. }
  rewrite int_decr_S by lia.
  destruct n as [|n].
  { exists Return, [SetAborted; nav; RosOk true]. split; [reflexivity | cbn; lia]. }
  replace (Z.of_nat (S n) =? 0) with false by (symmetry; apply Z.eqb_neq; lia).
  destruct (Env.ros_ok env _); cbn [negb].
  2:{ exists Return, [SetAborted; RosOk false; nav; RosOk true].
      split; [reflexivity | cbn; lia]. }
  set (prefix := [Sleep; RosOk true; nav; RosOk true]).
  change (Sleep :: RosOk true :: nav :: RosOk true :: h) with (prefix ++ h).
  destruct (IH fuel (prefix ++ h)) as (r & new & Heq & Hc); [lia | lia |].
  exists r, (new ++ prefix). rewrite Heq. split; [f_equal; f_equal; reassoc|].
  rewrite count_app. change (count is_navigation prefix) with 1%nat. lia.
Qed.

Lemma frontier_loop_terminates success start_pose goal_pose :
  forall (n fuel : nat) (h : History),
    (1 <= n <= 5)%nat -> (n <= fuel)%nat ->
    exists r new,
      frontier_loop env goal fuel (Z.of_nat n) success start_pose goal_pose h
      = Some (r, new ++ h)
      /\ (count is_frontier_call new <= n)%nat.
Proof.
  induction n as [|n IH]; intros fuel h Hn Hfuel; [lia|].
  destruct fuel as [|fuel]; [lia|].
  cbn [frontier_loop ros_ok getNextFrontier_call].
  destruct (Env.ros_ok env h); cbn [negb].
  2:{ exists (LoopEnd goal_pose), [RosOk false]. split; [reflexivity | cbn; lia]. }
  destruct (boundary_check_pose env goal start_pose (RosOk true :: h))
    as [checked h1] eqn:Hb.
  apply boundary_check_pose_events in Hb.
  destruct Hb as (pre & -> & _ & _ & _ & Hpre).
  apply count_none in Hpre.
  assert (Hcount : forall l, count is_frontier_call (l ++ pre ++ [RosOk true])
                             = count is_frontier_call l).
  { intros l. rewrite !count_app, Hpre. cbn. lia. }
  assert (Hshape : forall l, l ++ pre ++ RosOk true :: h
                             = (l ++ pre ++ [RosOk true]) ++ h) by (intros; reassoc).
  destruct checked as [eval_pose|].
  2:{ exists Throw, ([] ++ pre ++ [RosOk true]).
      split; [f_equal; f_equal; apply (Hshape []) | rewrite Hcount; cbn; lia]. }
  destruct (negb (pointInPolygon _ _)).
  { exists (Break (center_pose goal)), ([] ++ pre ++ [RosOk true]).
    split; [f_equal; f_equal; apply (Hshape []) | rewrite Hcount; cbn; lia]. }
  destruct (Env.getNextFrontier_call env _ start_pose) as [next_frontier|].
  { exists (Break next_frontier),
      ([FrontierCall start_pose (Some next_frontier)] ++ pre ++ [RosOk true]).
    split; [f_equal; f_equal; apply (Hshape [_]) | rewrite Hcount; cbn; lia]. }
  set (call := FrontierCall start_pose None).
  rewrite int_decr_S by lia.
  destruct n as [|n].
  { cbn [Z.of_nat Z.eqb andb].
    exists Return,
      ([if success then SetSucceeded else SetAborted; call] ++ pre ++ [RosOk true]).
    split.
    - destruct success; f_equal; f_equal; apply (Hshape [_; _]).
    - rewrite Hcount. destruct success; cbn; lia. }
  replace (Z.of_nat (S n) =? 0) with false by (symmetry; apply Z.eqb_neq; lia).
  cbn [andb].
  destruct (Env.ros_ok env _); cbn [negb].
  2:{ exists Return, ([SetAborted; RosOk false; call] ++ pre ++ [RosOk true]).
      split; [f_equal; f_equal; apply (Hshape [_; _; _]) | rewrite Hcount; cbn; lia]. }
  change (RosOk true :: call :: pre ++ RosOk true :: h)
    with ([RosOk true; call] ++ pre ++ RosOk true :: h).
  rewrite (Hshape [RosOk true; call]).
  destruct (IH fuel (([RosOk true; call] ++ pre ++ [RosOk true]) ++ h))
    as (r & new & Heq & Hc); [lia | lia |].
  exists r, (new ++ [RosOk true; call] ++ pre ++ [RosOk true]).
  rewrite Heq. split; [f_equal; f_equal; reassoc|].
  rewrite count_app, Hcount. change (count is_frontier_call [RosOk true; call])
    with 1%nat. lia.
Qed.

Lemma explore_body_terminates :
  forall (fuel : nat) (success : bool) (h : History),
    (5 <= fuel)%nat ->
    exists r new,
      explore_body env goal fuel success h = Some (r, new ++ h)
      /\ (count is_frontier_call new <= 5)%nat
      /\ (count is_navigation new <= 5)%nat.
Proof.
  intros fuel success h Hfuel. unfold explore_body. cbn [getRobotPose].
  set (pose := Env.getRobotPose env h).
  destruct (frontier_loop_terminates success pose PoseStamped_default 5 fuel
              (GetRobotPose pose :: h)) as (f & newf & Hf & Hcf); [lia | lia |].
  change (Z.of_nat 5) with 5 in Hf. rewrite Hf.
  pose proof Hf as Hev. apply frontier_loop_events in Hev; [|lia].
  destruct Hev as (newf' & Heq & Hall & _).
  apply app_inv_tail in Heq. subst newf'.
  destruct (frontier_events_facts newf Hall) as (_ & Hnonav).
  assert (Hnav0 : count is_navigation (newf ++ [GetRobotPose pose]) = 0%nat).
  { apply count_none. destruct (existsb is_navigation _) eqn:Hex; [|reflexivity].
    exfalso. apply existsb_exists in Hex. destruct Hex as (e & Hin & He).
    apply in_app_or in Hin. destruct Hin as [Hin | [<- | []]]; [|discriminate He].
    destruct e; try discriminate He. eapply Hnonav; eassumption. }
  assert (Hfc : count is_frontier_call (newf ++ [GetRobotPose pose])
                = count is_frontier_call newf).
  { rewrite count_app. cbn. lia. }
  assert (Hdone : forall r : unit, exists new : History,
             newf ++ GetRobotPose pose :: h = new ++ h
             /\ (count is_frontier_call new <= 5)%nat
             /\ (count is_navigation new <= 5)%nat).
  { intros _. exists (newf ++ [GetRobotPose pose]).
    split; [reassoc|]. rewrite Hfc, Hnav0. lia. }
  assert (Hgo : forall target,
             exists r new,
               match navigate_loop env fuel 5 target (newf ++ GetRobotPose pose :: h)
               with
               | Some (Break _, h0) => Some (inl true, h0)
               | Some (LoopEnd _, h0) => Some (inl success, h0)
               | Some (Return, h0) => Some (inr Returned, h0)
               | Some (Throw, h0) => Some (inr Threw, h0)
               | None => None
               end = Some (r, new ++ h)
               /\ (count is_frontier_call new <= 5)%nat
               /\ (count is_navigation new <= 5)%nat).
  { intros target.
    destruct (navigate_loop_terminates target 5 fuel (newf ++ GetRobotPose pose :: h))
      as (n & newn & Hn & Hcn); [lia | lia |].
    change (Z.of_nat 5) with 5 in Hn. rewrite Hn.
    pose proof Hn as Hev. apply navigate_loop_events in Hev.
    destruct Hev as (newn' & Heq & Halln & _).
    apply app_inv_tail in Heq. subst newn'.
    destruct (navigation_events_facts _ newn Halln) as (_ & _ & Hnf & _).
    apply count_none in Hnf.
    assert (Hres : newn ++ newf ++ GetRobotPose pose :: h
                   = (newn ++ newf ++ [GetRobotPose pose]) ++ h) by reassoc.
    assert (Hc1 : (count is_frontier_call (newn ++ newf ++ [GetRobotPose pose]) <= 5)%nat).
    { rewrite count_app, Hnf, Hfc. lia. }
    assert (Hc2 : (count is_navigation (newn ++ newf ++ [GetRobotPose pose]) <= 5)%nat).
    { rewrite count_app, Hnav0. lia. }
    destruct n as [[]|[]| |]; eexists; exists (newn ++ newf ++ [GetRobotPose pose]);
      (split; [rewrite Hres; reflexivity | split; assumption]). }
  destruct f as [target|target| |].
  - apply Hgo.
  - apply Hgo.
  - destruct (Hdone tt) as (new & Heq & Hc1 & Hc2).
    exists (inr Returned), new. rewrite Heq. auto.
  - destruct (Hdone tt) as (new & Heq & Hc1 & Hc2).
    exists (inr Threw), new. rewrite Heq. auto.
Qed.
End Termination.

(** ** The Frontier Service step while the node runs *)

Section Running.
Variable env : Env.t.
Variable goal : ExploreTaskGoal.t.
Hypothesis running_ok : forall h, Env.ros_ok env h = true.

End Running.

(** ** The passes of the loop that looks for a frontier *)

Section Passes.
Variable env : Env.t.
Variable goal : ExploreTaskGoal.t.

Lemma frontier_pass_events start_pose (h : History) :
  forall (k : nat) (retry : Z) (hk : History),
    frontier_pass env goal k start_pose h = Some (retry, hk) ->
    retry = 5 - Z.of_nat k /\ 1 <= retry
    /\ exists earlier,
         hk = earlier ++ h
         /\ Forall frontier_event earlier
         /\ count is_frontier_call earlier = k
         /\ count is_frontier_failure earlier = k.
Proof.
  induction k as [|k IH]; intros retry hk H.
  - injection H as <- <-. split; [reflexivity|]. split; [lia|].
    exists []. repeat split. constructor.
  - cbn [frontier_pass] in H.
    destruct (frontier_pass env goal k start_pose h) as [[r1 h1]|]; [|discriminate].
    destruct (IH r1 h1 eq_refl) as (Hr & Hpos & earlier & -> & Hall & Hc & Hf).
    cbn [ros_ok getNextFrontier_call] in H.
    answer H; done H.
    destruct (boundary_check_pose env goal start_pose (RosOk true :: earlier ++ h))
      as [checked h2] eqn:Hb.
    apply boundary_check_pose_events in Hb.
    destruct Hb as (pre & -> & Hpre & Hpre0 & _ & Hpre1).
    apply count_none in Hpre1.
    destruct checked as [eval_pose|]; done H.
    answer H; done H.
    answer H; done H.
    rewrite int_decr_small in H by lia.
    answer H; done H.
    answer H; done H.
    apply Z.eqb_neq in Heqb1.
    split; [lia|]. split; [lia|].
    exists (RosOk true :: FrontierCall start_pose None :: pre ++ RosOk true :: earlier).
    split; [reassoc|].
    split.
    { do 2 (constructor; [exact I|]). apply Forall_app. split; [assumption|].
      constructor; [exact I | assumption]. }
    split.
    + change (S (count is_frontier_call (pre ++ RosOk true :: earlier)) = S k).
      rewrite count_app, Hpre1.
      change (count is_frontier_call (RosOk true :: earlier))
        with (count is_frontier_call earlier). rewrite Hc. reflexivity.
    + change (S (count is_frontier_failure (pre ++ RosOk true :: earlier)) = S k).
      rewrite count_app, Hpre0.
      change (count is_frontier_failure (RosOk true :: earlier))
        with (count is_frontier_failure earlier). rewrite Hf. reflexivity.
Qed.

(** the loop of lines 137-168 goes through each of its passes *)
Lemma frontier_pass_loop start_pose (h : History) :
  forall (k : nat) (retry : Z) (hk : History),
    frontier_pass env goal k start_pose h = Some (retry, hk) ->
    forall (fuel : nat) success goal_pose,
      frontier_loop env goal (k + fuel) 5 success start_pose goal_pose h
      = frontier_loop env goal fuel retry success start_pose goal_pose hk.
Proof.
  induction k as [|k IH]; intros retry hk H fuel success goal_pose.
  - injection H as <- <-. reflexivity.
  - cbn [frontier_pass] in H.
    destruct (frontier_pass env goal k start_pose h) as [[r1 h1]|]; [|discriminate].
    replace (S k + fuel)%nat with (k + S fuel)%nat by lia.
    rewrite (IH r1 h1 eq_refl (S fuel) success goal_pose).
    cbn [frontier_loop ros_ok getNextFrontier_call] in H |- *.
    destruct (Env.ros_ok env h1); cbn [negb] in H |- *; [|discriminate].
    destruct (boundary_check_pose env goal start_pose (RosOk true :: h1))
      as [checked h2].
    destruct checked as [eval_pose|]; [|discriminate].
    destruct (negb (pointInPolygon _ _)); [discriminate|].
    destruct (Env.getNextFrontier_call env h2 start_pose); [discriminate|].
    destruct (int_decr r1 =? 0); [discriminate|]. cbn [andb].
    destruct (Env.ros_ok env _); cbn [negb] in H |- *; [|discriminate].
    injection H as <- <-. reflexivity.
Qed.

(** how a navigation loop begins *)
Lemma navigate_loop_begins :
  forall (fuel : nat) (retry : Z) target (h : History) r h',
    navigate_loop env fuel retry target h = Some (r, h') ->
    exists nav,
      h' = nav ++ h
      /\ Forall (navigation_event target) nav
      /\ (Env.ros_ok env h = true ->
          exists rest state,
            nav = rest ++ [SendGoalAndWait target state; RosOk true]).
Proof.
  intros fuel retry target h r h' H.
  pose proof H as Hev. apply navigate_loop_events in Hev.
  destruct Hev as (nav & Hh' & Hall & _).
  exists nav. split; [assumption|]. split; [assumption|].
  intros Hok. destruct fuel as [|fuel]; [discriminate|].
  cbn [navigate_loop ros_ok moveClient_sendGoalAndWait] in H.
  rewrite Hok in H. cbn [negb] in H.
  set (nav1 := SendGoalAndWait target _) in H.
  assert (Hcut : forall l, l ++ nav1 :: RosOk true :: h = nav ++ h ->
                           nav = l ++ [nav1; RosOk true]).
  { intros l Heq. apply (app_inv_tail h). rewrite <- Heq. reassoc. }
  answer H; done H.
  { exists [], (Env.moveClient_sendGoalAndWait env (RosOk true :: h) target).
    apply Hcut. assumption. }
  answer H; done H.
  { exists [SetAborted], (Env.moveClient_sendGoalAndWait env (RosOk true :: h) target).
    apply Hcut. assumption. }
  answer H; done H.
  2:{ exists [SetAborted; RosOk false],
        (Env.moveClient_sendGoalAndWait env (RosOk true :: h) target).
      apply Hcut. assumption. }
  apply navigate_loop_events in H. destruct H as (new & Heq & _).
  exists (new ++ [Sleep; RosOk true]),
    (Env.moveClient_sendGoalAndWait env (RosOk true :: h) target).
  apply Hcut. rewrite <- Hh', Heq. reassoc.
Qed.

(** a pass whose check finds the pose outside *)
Lemma frontier_loop_outside start_pose (h : History) :
  Env.ros_ok env h = true ->
  left_boundary env goal start_pose (RosOk true :: h) = true ->
  exists pre,
    snd (boundary_check_pose env goal start_pose (RosOk true :: h))
    = pre ++ RosOk true :: h
    /\ existsb is_frontier_call pre = false
    /\ Forall frontier_event pre
    /\ forall fuel retry success goal_pose,
         frontier_loop env goal (S fuel) retry success start_pose goal_pose h
         = Some (Break (center_pose goal), pre ++ RosOk true :: h).
Proof.
  intros Hok Hleft. unfold left_boundary in Hleft.
  destruct (boundary_check_pose env goal start_pose (RosOk true :: h))
    as [c h1] eqn:Hb.
  cbn [fst] in Hleft.
  pose proof Hb as Hev. apply boundary_check_pose_events in Hev.
  destruct Hev as (pre & -> & Hall & _ & _ & Hf).
  destruct c as [eval_pose|]; [|discriminate Hleft].
  exists pre. split; [reflexivity|]. split; [assumption|]. split; [assumption|].
  intros fuel retry success goal_pose.
  cbn [frontier_loop ros_ok]. rewrite Hok. cbn [negb].
  rewrite Hb, Hleft. reflexivity.
Qed.

Lemma frontier_events_no_navigation (l : History) :
  Forall frontier_event l -> existsb is_navigation l = false.
Proof.
  induction 1 as [|e l He Hl IH]; [reflexivity|].
  destruct e; try contradiction; exact IH.
Qed.

End Passes.

(** ** The last pass of a round *)

Section LastPass.
Variable env : Env.t.
Variable goal : ExploreTaskGoal.t.

(** a pass is followed by another one only when its check found the
    pose inside *)
Lemma frontier_pass_inside start_pose (h : History) (k : nat) retry' hk' :
  frontier_pass env goal (S k) start_pose h = Some (retry', hk') ->
  exists retry hk,
    frontier_pass env goal k start_pose h = Some (retry, hk)
    /\ Env.ros_ok env hk = true
    /\ left_boundary env goal start_pose (RosOk true :: hk) = false.
Proof.
  cbn [frontier_pass]. intros H.
  destruct (frontier_pass env goal k start_pose h) as [[retry hk]|]; [|discriminate].
  exists retry, hk. split; [reflexivity|].
  cbn [ros_ok] in H. unfold left_boundary.
  destruct (Env.ros_ok env hk); cbn [negb] in H; [|discriminate].
  split; [reflexivity|].
  destruct (boundary_check_pose env goal start_pose (RosOk true :: hk)) as [c h2].
  cbn [fst]. destruct c as [eval_pose|]; [|reflexivity].
  destruct (pointInPolygon _ _); [reflexivity | discriminate].
Qed.

Lemma frontier_pass_earlier start_pose (h : History) :
  forall (k j : nat) retry hk,
    frontier_pass env goal k start_pose h = Some (retry, hk) ->
    (j < k)%nat ->
    forall retry_j hj,
      frontier_pass env goal j start_pose h = Some (retry_j, hj) ->
      Env.ros_ok env hj = true
      /\ left_boundary env goal start_pose (RosOk true :: hj) = false.
Proof.
  induction k as [|k IH]; intros j retry hk Hk Hj retry_j hj Hpj; [lia|].
  destruct (frontier_pass_inside start_pose h k retry hk Hk)
    as (r1 & h1 & Hk1 & Hok & Hin).
  destruct (Nat.eq_dec j k) as [-> | Hne].
  - rewrite Hk1 in Hpj. injection Hpj as <- <-. split; assumption.
  - apply (IH j r1 h1 Hk1 ltac:(lia) retry_j hj Hpj).
Qed.

(** the loop of lines 137-168 ends in one of its passes; only there can
    the check have found the pose outside *)
Lemma frontier_loop_last_pass success start_pose goal_pose (h : History) :
  forall (fuel k : nat) (retry : Z) (hk : History) res h1,
    frontier_pass env goal k start_pose h = Some (retry, hk) ->
    frontier_loop env goal fuel retry success start_pose goal_pose hk
    = Some (res, h1) ->
    exists k' retry' hk' later,
      frontier_pass env goal k' start_pose h = Some (retry', hk')
      /\ frontier_pass env goal (S k') start_pose h = None
      /\ h1 = later ++ hk'
      /\ Forall frontier_event later
      /\ (count is_frontier_call later <= 1)%nat
      /\ (existsb is_frontier_call later = true ->
          left_boundary env goal start_pose (RosOk true :: hk') = false).
Proof.
  induction fuel as [|fuel IH]; intros k retry hk res h1 Hk H; [discriminate|].
  pose proof (frontier_pass_events env goal start_pose h k retry hk Hk)
    as (Hretry & Hpos & _).
  pose proof Hk as Hnext.
  assert (Hstep : frontier_pass env goal (S k) start_pose h
                  = match frontier_pass env goal k start_pose h with
                    | Some (retry, h) =>
                        let '(ok, h) := ros_ok env h in
                        if negb ok then None else
                        let '(checked, h) := boundary_check_pose env goal start_pose h in
                        match checked with
                        | None => None
                        | Some eval_pose =>
                            if negb (pointInPolygon
                                       (Pose.position (PoseStamped.pose eval_pose))
                                       (boundary_polygon goal))
                            then None
                            else
                              let '(found, h) := getNextFrontier_call env start_pose h in
                              match found with
                              | Some _ => None
                              | None =>
                                  let retry := int_decr retry in
                                  if retry =? 0 then None else
                                  let '(ok, h) := ros_ok env h in
                                  if negb ok then None else Some (retry, h)
                              end
                        end
                    | None => None
                    end) by reflexivity.
  rewrite Hk in Hstep.
  cbn [frontier_loop ros_ok getNextFrontier_call] in H, Hstep.
  destruct (Env.ros_ok env hk); cbn [negb] in H, Hstep.
  2:{ done H. exists k, retry, hk, [RosOk false].
      split; [assumption|]. split; [exact Hstep|]. split; [reflexivity|].
      split; [repeat constructor|]. split; [cbn; lia | discriminate]. }
  destruct (boundary_check_pose env goal start_pose (RosOk true :: hk))
    as [checked h2] eqn:Hb.
  pose proof Hb as Hev. apply boundary_check_pose_events in Hev.
  destruct Hev as (pre & -> & Hpre & _ & _ & Hpre1).
  pose proof (count_none _ _ Hpre1) as Hpre0.
  assert (Hquiet : forall l, existsb is_frontier_call l = false ->
                             Forall frontier_event l ->
            Forall frontier_event (l ++ pre ++ [RosOk true])
            /\ (count is_frontier_call (l ++ pre ++ [RosOk true]) <= 1)%nat
            /\ (existsb is_frontier_call (l ++ pre ++ [RosOk true]) = true -> False)).
  { intros l Hl Hall. split; [|split].
    - repeat (apply Forall_app; split); auto. repeat constructor.
    - rewrite !count_app, Hpre0, (count_none _ _ Hl). cbn. lia.
    - rewrite !existsb_app, Hl, Hpre1. discriminate. }
  assert (Hshape : forall l, l ++ pre ++ RosOk true :: hk
                             = (l ++ pre ++ [RosOk true]) ++ hk)
    by (intros; reassoc).
  destruct checked as [eval_pose|]; done H.
  2:{ exists k, retry, hk, ([] ++ pre ++ [RosOk true]).
      destruct (Hquiet [] eq_refl ltac:(constructor)) as (Ha & Hc & Hn).
      split; [assumption|]. split; [exact Hstep|]. split; [apply (Hshape [])|].
      split; [assumption|]. split; [assumption|]. intros Hx. destruct (Hn Hx). }
  destruct (pointInPolygon _ _) eqn:Hin; cbn [negb] in H, Hstep; done H.
  2:{ exists k, retry, hk, ([] ++ pre ++ [RosOk true]).
      destruct (Hquiet [] eq_refl ltac:(constructor)) as (Ha & Hc & Hn).
      split; [assumption|]. split; [exact Hstep|]. split; [apply (Hshape [])|].
      split; [assumption|]. split; [assumption|]. intros Hx. destruct (Hn Hx). }
  assert (Hinside : left_boundary env goal start_pose (RosOk true :: hk) = false).
  { unfold left_boundary. rewrite Hb. cbn [fst]. rewrite Hin. reflexivity. }
  assert (Hone : forall l call,
             is_frontier_call call = true -> frontier_event call ->
             existsb is_frontier_call l = false -> Forall frontier_event l ->
             Forall frontier_event ((l ++ [call]) ++ pre ++ [RosOk true])
             /\ (count is_frontier_call ((l ++ [call]) ++ pre ++ [RosOk true]) <= 1)%nat).
  { intros l call Hcall Hevc Hl Hall. split.
    - repeat (apply Forall_app; split); auto; repeat constructor; assumption.
    - rewrite !count_app, Hpre0, (count_none _ _ Hl). unfold count. cbn [filter].
      rewrite Hcall. cbn. lia. }
  destruct (Env.getNextFrontier_call env (pre ++ RosOk true :: hk) start_pose)
    as [next_frontier|] eqn:Hcall; done H.
  { exists k, retry, hk,
      (([] ++ [FrontierCall start_pose (Some next_frontier)]) ++ pre ++ [RosOk true]).
    destruct (Hone [] (FrontierCall start_pose (Some next_frontier))
                eq_refl I eq_refl ltac:(constructor)) as (Ha & Hc).
    split; [assumption|]. split; [exact Hstep|]. split; [reassoc|].
    split; [assumption|]. split; [assumption | intros _; exact Hinside]. }
  set (call := FrontierCall start_pose None) in *.
  destruct (int_decr retry =? 0) eqn:Hzero; cbn [andb] in H, Hstep.
  { exists k, retry, hk,
      (([if success then SetSucceeded else SetAborted] ++ [call])
         ++ pre ++ [RosOk true]).
    destruct (Hone [if success then SetSucceeded else SetAborted] call
                eq_refl I ltac:(destruct success; reflexivity)
                ltac:(destruct success; repeat constructor)) as (Ha & Hc).
    split; [assumption|]. split; [exact Hstep|].
    split; [destruct success; done H; reassoc|].
    split; [assumption|]. split; [assumption | intros _; exact Hinside]. }
  destruct (Env.ros_ok env (call :: pre ++ RosOk true :: hk)) eqn:Hok2;
    cbn [negb] in H, Hstep.
  2:{ done H. exists k, retry, hk,
        (([SetAborted; RosOk false] ++ [call]) ++ pre ++ [RosOk true]).
      destruct (Hone [SetAborted; RosOk false] call eq_refl I eq_refl
                  ltac:(repeat constructor)) as (Ha & Hc).
      split; [assumption|]. split; [exact Hstep|]. split; [reassoc|].
      split; [assumption|]. split; [assumption | intros _; exact Hinside]. }
  apply (IH (S k) _ _ res h1 Hstep H).
Qed.

End LastPass.

Section Rounds.
Variable env : Env.t.
Variable goal : ExploreTaskGoal.t.

(** a round is made of passes whose checks found the pose inside and of
    a last pass; the Frontier Service is asked in the last pass only if
    its check found the pose inside, too *)
Lemma explore_body_passes :
  forall (fuel : nat) (success : bool) (h : History) r h',
    explore_body env goal fuel success h = Some (r, h') ->
    let robot_pose := Env.getRobotPose env h in
    let h0 := GetRobotPose robot_pose :: h in
    exists k retry hk later,
      frontier_pass env goal k robot_pose h0 = Some (retry, hk)
      /\ frontier_pass env goal (S k) robot_pose h0 = None
      /\ h' = later ++ hk
      /\ (forall j retry_j hj,
            (j < k)%nat ->
            frontier_pass env goal j robot_pose h0 = Some (retry_j, hj) ->
            left_boundary env goal robot_pose (RosOk true :: hj) = false)
      /\ (count is_frontier_call later <= 1)%nat
      /\ (existsb is_frontier_call later = true ->
          left_boundary env goal robot_pose (RosOk true :: hk) = false).
Proof.
  intros fuel success h r h' H robot_pose h0.
  unfold explore_body in H. cbn [getRobotPose] in H.
  fold robot_pose in H. fold h0 in H.
  destruct (frontier_loop env goal fuel 5 success robot_pose PoseStamped_default h0)
    as [[f h1]|] eqn:Hf; [|discriminate].
  apply (frontier_loop_last_pass env goal success robot_pose PoseStamped_default h0
           fuel 0%nat 5 h0 f h1 eq_refl) in Hf.
  destruct Hf as (k & retry & hk & later & Hk & Hlast & -> & Hall & Hc & Hin).
  assert (Hearlier : forall j retry_j hj,
             (j < k)%nat ->
             frontier_pass env goal j robot_pose h0 = Some (retry_j, hj) ->
             left_boundary env goal robot_pose (RosOk true :: hj) = false).
  { intros j retry_j hj Hj Hpj.
    apply (frontier_pass_earlier env goal robot_pose h0 k j retry hk Hk Hj
             retry_j hj Hpj). }
  assert (Hnav : forall target,
             match navigate_loop env fuel 5 target (later ++ hk) with
             | Some (Break _, h0) => Some (@inl bool Termination true, h0)
             | Some (LoopEnd _, h0) => Some (inl success, h0)
             | Some (Return, h0) => Some (inr Returned, h0)
             | Some (Throw, h0) => Some (inr Threw, h0)
             | None => None
             end = Some (r, h') ->
             exists k retry hk later,
               frontier_pass env goal k robot_pose h0 = Some (retry, hk)
               /\ frontier_pass env goal (S k) robot_pose h0 = None
               /\ h' = later ++ hk
               /\ (forall j retry_j hj,
                      (j < k)%nat ->
                      frontier_pass env goal j robot_pose h0 = Some (retry_j, hj) ->
                      left_boundary env goal robot_pose (RosOk true :: hj) = false)
               /\ (count is_frontier_call later <= 1)%nat
               /\ (existsb is_frontier_call later = true ->
                   left_boundary env goal robot_pose (RosOk true :: hk) = false)).
  { intros target Hn.
    destruct (navigate_loop env fuel 5 target (later ++ hk)) as [[n h2]|] eqn:Hnl;
      [|discriminate].
    apply navigate_loop_events in Hnl. destruct Hnl as (nav & -> & Halln & _).
    destruct (navigation_events_facts _ nav Halln) as (_ & _ & Hnf & _).
    exists k, retry, hk, (nav ++ later).
    split; [assumption|]. split; [assumption|].
    split; [destruct n; done Hn; reassoc|].
    split; [assumption|].
    split; [rewrite count_app, (count_none _ _ Hnf); exact Hc|].
    rewrite existsb_app, Hnf. exact Hin. }
  destruct f as [target|target| |].
  - apply (Hnav target). exact H.
  - apply (Hnav target). exact H.
  - done H. exists k, retry, hk, later. repeat (split; [first [assumption | reflexivity]|]).
    assumption.
  - done H. exists k, retry, hk, later. repeat (split; [first [assumption | reflexivity]|]).
    assumption.
Qed.
End Rounds.



(** C6, as stated, fails for the Frontier Service step: in this mission a
    frontier is found and reached, then the Frontier Service fails for
    good.  It is asked exactly 5 times, and the exhausted step makes the
    mission report Succeeded, not Aborted. *)
Lemma C6_frontier_exhaustion_counterexample :
  let env := Scenario.one_frontier_then_nothing in
  let h := history_of (executeCB env Scenario.goal 10 []) in
  no_cancellation env
  /\ executeCB env Scenario.goal 10 [] = Some (Returned, h)
  /\ hd Sleep h = SetSucceeded
  /\ count is_frontier_failure (firstn 15 h) = 5%nat
  /\ existsb is_frontier_found (firstn 15 h) = false
  /\ existsb is_aborted h = false.
Proof.
  cbv zeta. split.
  - intros h. split; reflexivity.
  - vm_compute. repeat split.
Qed.

(** C6, amended. Without cancellation, with the budget of 5: a Boundary
    Service call or a navigation that always fails is attempted exactly
    5 times and the step ends the mission with Aborted; a Frontier
    Service call that always fails, the pose staying inside the boundary,
    is attempted exactly 5 times and the step ends the mission with
    Succeeded if [success] is set and with Aborted if not.  In each of
    the three steps an operation that first succeeds at attempt k, 1 <= k
    <= 5, is attempted exactly k times, and the step is left at once by
    [break] with the answer of that attempt. *)
Theorem C6_retry_bound :
  forall (env : Env.t) (goal : ExploreTaskGoal.t),
    no_cancellation env ->
    (forall (fuel : nat) (h : History),
        (5 <= fuel)%nat ->
        let op := boundary_call_succeeds env goal in
        (fails_until 5 is_boundary_call op h ->
         exists new,
           setBoundary_loop env goal fuel 5 h = Some (Return, SetAborted :: new ++ h)
           /\ count is_boundary_call new = 5%nat
           /\ existsb is_outcome new = false)
        /\ (forall k : nat,
              (1 <= k <= 5)%nat ->
              fails_until (k - 1) is_boundary_call op h ->
              succeeds_after (k - 1) is_boundary_call op h ->
              exists new,
                setBoundary_loop env goal fuel 5 h
                = Some (Break tt,
                        BoundaryCall (ExploreTaskGoal.explore_boundary goal) true
                          :: new ++ h)
                /\ S (count is_boundary_call new) = k
                /\ existsb is_outcome new = false))
    /\ (forall (fuel : nat) (target : PoseStamped.t) (h : History),
          (5 <= fuel)%nat ->
          let op := navigation_succeeds env target in
          (fails_until 5 is_navigation op h ->
           exists new,
             navigate_loop env fuel 5 target h = Some (Return, SetAborted :: new ++ h)
             /\ count is_navigation new = 5%nat
             /\ existsb is_outcome new = false
             /\ navigates_only_to target new)
          /\ (forall k : nat,
                (1 <= k <= 5)%nat ->
                fails_until (k - 1) is_navigation op h ->
                succeeds_after (k - 1) is_navigation op h ->
                exists new,
                  navigate_loop env fuel 5 target h
                  = Some (Break tt, SendGoalAndWait target SUCCEEDED :: new ++ h)
                  /\ S (count is_navigation new) = k
                  /\ existsb is_outcome new = false))
    /\ (forall (fuel : nat) (success : bool) (start_pose goal_pose : PoseStamped.t)
               (h : History),
          (5 <= fuel)%nat ->
          stays_inside env goal start_pose h ->
          let op := frontier_call_succeeds env start_pose in
          (fails_until 5 is_frontier_call op h ->
           exists new,
             frontier_loop env goal fuel 5 success start_pose goal_pose h
             = Some (Return,
                     (if success then SetSucceeded else SetAborted) :: new ++ h)
             /\ count is_frontier_call new = 5%nat
             /\ existsb is_outcome new = false)
          /\ (forall k : nat,
                (1 <= k <= 5)%nat ->
                fails_until (k - 1) is_frontier_call op h ->
                succeeds_after (k - 1) is_frontier_call op h ->
                exists new next_frontier,
                  frontier_loop env goal fuel 5 success start_pose goal_pose h
                  = Some (Break next_frontier,
                          FrontierCall start_pose (Some next_frontier) :: new ++ h)
                  /\ S (count is_frontier_call new) = k
                  /\ existsb is_outcome new = false)).
Proof.
  intros env goal calm. split; [|split].
  - intros fuel h Hfuel op. subst op. split.
    + intros Hfail. change 5 with (Z.of_nat 5).
      apply setBoundary_loop_exhausts; auto; lia.
    + intros k Hk Hfail Hsucc. change 5 with (Z.of_nat 5).
      destruct (setBoundary_loop_succeeds env goal calm (k - 1) 5 fuel h)
        as (new & Heq & Hc & Ho); auto; try lia.
      exists new. repeat split; auto. lia.
  - intros fuel target h Hfuel op. subst op. split.
    + intros Hfail. change 5 with (Z.of_nat 5).
      apply navigate_loop_exhausts; auto; lia.
    + intros k Hk Hfail Hsucc. change 5 with (Z.of_nat 5).
      destruct (navigate_loop_succeeds env calm target (k - 1) 5 fuel h)
        as (new & Heq & Hc & Ho); auto; try lia.
      exists new. repeat split; auto. lia.
  - intros fuel success start_pose goal_pose h Hfuel Hin op. subst op. split.
    + intros Hfail. change 5 with (Z.of_nat 5).
      apply frontier_loop_exhausts; auto; lia.
    + intros k Hk Hfail Hsucc. change 5 with (Z.of_nat 5).
      destruct (frontier_loop_succeeds env goal calm success start_pose goal_pose
                  (k - 1) 5 fuel h)
        as (new & f & Heq & Hc & Ho); auto; try lia.
      exists new, f. repeat split; auto. lia.
Qed.

Lemma C6_retry_bound_witness :
  (exists new,
      setBoundary_loop Scenario.nothing_works Scenario.goal 5 5 []
      = Some (Return, SetAborted :: new ++ [])
      /\ count is_boundary_call new = 5%nat
      /\ existsb is_outcome new = false)
  /\ (exists new,
         navigate_loop Scenario.third_attempt_succeeds 5 5 Scenario.frontier_pose []
         = Some (Break tt,
                 SendGoalAndWait Scenario.frontier_pose SUCCEEDED :: new ++ [])
         /\ S (count is_navigation new) = 3%nat
         /\ existsb is_outcome new = false).
Proof.
  split.
  - apply (proj1 (proj1 (C6_retry_bound Scenario.nothing_works Scenario.goal
                            (fun h => conj eq_refl eq_refl))
                        5%nat [] (le_n 5))).
    intros new _. reflexivity.
  - apply (proj2 (proj1 (proj2 (C6_retry_bound Scenario.third_attempt_succeeds
                                   Scenario.goal (fun h => conj eq_refl eq_refl)))
                        5%nat Scenario.frontier_pose [] (le_n 5))
             3%nat).
    + lia.
    + intros new Hn. rewrite app_nil_r. cbn [Nat.sub] in Hn.
      unfold navigation_succeeds, Scenario.third_attempt_succeeds, Scenario.world.
      cbn [Env.moveClient_sendGoalAndWait]. unfold Scenario.third_time.
      destruct (Nat.leb_spec 2 (count is_navigation new)); [lia | reflexivity].
    + intros new Hn. rewrite app_nil_r. cbn [Nat.sub] in Hn.
      unfold navigation_succeeds, Scenario.third_attempt_succeeds, Scenario.world.
      cbn [Env.moveClient_sendGoalAndWait]. unfold Scenario.third_time.
      rewrite Hn. reflexivity.
Defined.

(** C8, as stated, fails: the check is made anew before each request to
    the Frontier Service, with the robot pose of the round transformed
    again.  In this mission the first check of the round finds the pose
    inside and the Frontier Service fails; the second check finds the
    pose outside.  The round then navigates to the center pose, but the
    Frontier Service has been asked once in it. *)
Lemma C8_late_check_counterexample :
  let env := Scenario.drifts_outside in
  let goal := Scenario.goal in
  let p := Scenario.odom_pose in
  let h := history_of (executeCB env goal 10 []) in
  let before := skipn 10 h in
  let round :=
    [SendGoalAndWait (center_pose goal) SUCCEEDED; RosOk true;
     TransformPose "map" p (Some Scenario.outside_pose); RosOk true;
     RosOk true; FrontierCall p None;
     TransformPose "map" p (Some Scenario.inside_pose); RosOk true;
     GetRobotPose p] in
  let hk := skipn 4 round ++ before in
  executeCB env goal 10 [] = Some (Returned, RosOk false :: round ++ before)
  /\ explore_body env goal 10 false before = Some (inl true, round ++ before)
  /\ frontier_pass env goal 1 p (GetRobotPose p :: before) = Some (4, hk)
  /\ left_boundary env goal p (RosOk true :: hk) = true
  /\ count is_frontier_call round = 1%nat.
Proof. vm_compute. repeat split. Qed.

(** C8, amended. Whenever the boundary check of the explore loop finds
    the pose outside the boundary polygon, the loop that looks for a
    frontier is left at once with the center pose as the target and
    without a request to the Frontier Service.  The check is made in each
    pass of that loop.  A round consists of passes whose checks found the
    pose inside, each with a request to the Frontier Service that failed,
    and of a last pass; so only the check of the last pass can find the
    pose outside, and then the Frontier Service is not asked in that pass
    or later in the round.  When the last pass is pass k+1 and its check
    finds the pose outside, the Frontier Service has been asked exactly k
    times in the round, each time in vain (not at all when k = 0); after
    the check the round only navigates, each request goes to the center
    pose, and a first request is sent when [ros::ok()] answers true. *)
Theorem C8_outside_goes_to_center :
  forall (env : Env.t) (goal : ExploreTaskGoal.t),
    (forall fuel retry success start_pose goal_pose h,
        Env.ros_ok env h = true ->
        left_boundary env goal start_pose (RosOk true :: h) = true ->
        exists pre,
          frontier_loop env goal (S fuel) retry success start_pose goal_pose h
          = Some (Break (center_pose goal), pre ++ RosOk true :: h)
          /\ existsb is_frontier_call pre = false)
    /\ (forall (fuel : nat) (success : bool) (h : History) r h',
          explore_body env goal fuel success h = Some (r, h') ->
          let robot_pose := Env.getRobotPose env h in
          let h0 := GetRobotPose robot_pose :: h in
          exists k retry hk later,
            frontier_pass env goal k robot_pose h0 = Some (retry, hk)
            /\ frontier_pass env goal (S k) robot_pose h0 = None
            /\ h' = later ++ hk
            /\ (forall j retry_j hj,
                  (j < k)%nat ->
                  frontier_pass env goal j robot_pose h0 = Some (retry_j, hj) ->
                  left_boundary env goal robot_pose (RosOk true :: hj) = false)
            /\ (count is_frontier_call later <= 1)%nat
            /\ (existsb is_frontier_call later = true ->
                left_boundary env goal robot_pose (RosOk true :: hk) = false))
    /\ (forall (success : bool) (h : History) (k : nat) (retry : Z) (hk : History),
          let robot_pose := Env.getRobotPose env h in
          let hc := snd (boundary_check_pose env goal robot_pose (RosOk true :: hk)) in
          frontier_pass env goal k robot_pose (GetRobotPose robot_pose :: h)
          = Some (retry, hk) ->
          Env.ros_ok env hk = true ->
          left_boundary env goal robot_pose (RosOk true :: hk) = true ->
          (exists earlier pre,
              hk = earlier ++ GetRobotPose robot_pose :: h
              /\ count is_frontier_call earlier = k
              /\ count is_frontier_failure earlier = k
              /\ existsb is_navigation earlier = false
              /\ hc = pre ++ RosOk true :: hk
              /\ existsb is_frontier_call pre = false
              /\ existsb is_navigation pre = false)
          /\ forall fuel : nat,
               (5 <= fuel)%nat ->
               exists r nav,
                 explore_body env goal fuel success h = Some (r, nav ++ hc)
                 /\ existsb is_frontier_call nav = false
                 /\ navigates_only_to (center_pose goal) nav
                 /\ (Env.ros_ok env hc = true ->
                     exists rest state,
                       nav = rest ++ [SendGoalAndWait (center_pose goal) state;
                                      RosOk true])).
Proof.
  intros env goal. split; [|split].
  - intros fuel retry success start_pose goal_pose h Hok Hleft.
    destruct (frontier_loop_outside env goal start_pose h Hok Hleft)
      as (pre & _ & Hf & _ & Heq).
    exists pre. auto.
  - intros fuel success h r h' H. apply (explore_body_passes env goal fuel success h r h' H).
  - intros success h k retry hk robot_pose hc Hpass Hok Hleft.
    destruct (frontier_pass_events env goal robot_pose _ k retry hk Hpass)
      as (Hr & Hpos & earlier & Hhk & Hall & Hc & Hf).
    destruct (frontier_loop_outside env goal robot_pose hk Hok Hleft)
      as (pre & Hhc & Hpre & Hallpre & Hloop).
    fold hc in Hhc. split.
    { exists earlier, pre.
      split; [assumption|]. split; [assumption|]. split; [assumption|].
      split; [apply frontier_events_no_navigation; assumption|].
      split; [assumption|]. split; [assumption|].
      apply frontier_events_no_navigation; assumption. }
    intros fuel Hfuel.
    assert (Hk : exists f, fuel = (k + S f)%nat) by (exists (fuel - k - 1)%nat; lia).
    destruct Hk as (f & Hfu).
    assert (Hfl : frontier_loop env goal fuel 5 success robot_pose
                    PoseStamped_default (GetRobotPose robot_pose :: h)
                  = Some (Break (center_pose goal), hc)).
    { rewrite Hfu.
      rewrite (frontier_pass_loop env goal robot_pose _ k retry hk Hpass).
      rewrite Hhc. apply Hloop. }
    unfold explore_body. cbn [getRobotPose]. fold robot_pose. rewrite Hfl.
    destruct (navigate_loop_terminates env (center_pose goal) 5 fuel hc)
      as (n & nav & Hn & _); [lia | lia |].
    change (Z.of_nat 5) with 5 in Hn. rewrite Hn.
    apply navigate_loop_begins in Hn.
    destruct Hn as (nav' & Heq & Hnav & Hfirst).
    apply app_inv_tail in Heq. subst nav'.
    destruct (navigation_events_facts _ nav Hnav) as (_ & _ & Hnf & Hto).
    assert (Hr' : exists r,
               match n with
               | Break _ => Some (@inl bool Termination true, nav ++ hc)
               | LoopEnd _ => Some (inl success, nav ++ hc)
               | Return => Some (inr Returned, nav ++ hc)
               | Throw => Some (inr Threw, nav ++ hc)
               end = Some (r, nav ++ hc))
      by (destruct n; eexists; reflexivity).
    destruct Hr' as (r & Hr').
    exists r, nav. split; [|auto].
    rewrite <- Hr'. destruct n; reflexivity.
Qed.

Lemma C8_outside_goes_to_center_witness :
  let env := Scenario.drifts_outside in
  let p := Scenario.odom_pose in
  let hk := [RosOk true; FrontierCall p None;
             TransformPose "map" p (Some Scenario.inside_pose);
             RosOk true; GetRobotPose p] in
  let hc := TransformPose "map" p (Some Scenario.outside_pose) :: RosOk true :: hk in
  (exists r nav rest state,
      explore_body env Scenario.goal 5 false [] = Some (r, nav ++ hc)
      /\ existsb is_frontier_call nav = false
      /\ navigates_only_to (center_pose Scenario.goal) nav
      /\ nav = rest ++ [SendGoalAndWait (center_pose Scenario.goal) state; RosOk true])
  /\ (exists k retry hk' later,
         frontier_pass env Scenario.goal k p [GetRobotPose p] = Some (retry, hk')
         /\ frontier_pass env Scenario.goal (S k) p [GetRobotPose p] = None
         /\ SendGoalAndWait (center_pose Scenario.goal) SUCCEEDED :: RosOk true :: hc
            = later ++ hk'
         /\ (forall j retry_j hj,
               (j < k)%nat ->
               frontier_pass env Scenario.goal j p [GetRobotPose p] = Some (retry_j, hj) ->
               left_boundary env Scenario.goal p (RosOk true :: hj) = false)
         /\ (count is_frontier_call later <= 1)%nat
         /\ (existsb is_frontier_call later = true ->
             left_boundary env Scenario.goal p (RosOk true :: hk') = false)).
Proof.
  cbv zeta. split.
  - destruct (proj2 (proj2 (proj2 (C8_outside_goes_to_center Scenario.drifts_outside
                                     Scenario.goal))
                           false [] 1%nat 4
                           [RosOk true; FrontierCall Scenario.odom_pose None;
                            TransformPose "map" Scenario.odom_pose
                              (Some Scenario.inside_pose);
                            RosOk true; GetRobotPose Scenario.odom_pose]
                           eq_refl eq_refl eq_refl)
                    5%nat (le_n 5))
      as (r & nav & Heq & Hf & Hto & Hfirst).
    destruct (Hfirst eq_refl) as (rest & state & Hnav).
    exists r, nav, rest, state.
    split; [exact Heq|]. split; [exact Hf|]. split; [exact Hto | exact Hnav].
  - apply (proj1 (proj2 (C8_outside_goes_to_center Scenario.drifts_outside
                           Scenario.goal))
             5%nat false [] (inl true)).
    vm_compute. reflexivity.
Defined.

(** * Further properties of the server *)

(** ** The protocol [executeCB] follows *)

Lemma running_follows (e : Event) (h : History) : running h -> follows e h.
Proof.
  destruct h as [|latest h]; [intros; exact I|].
  intros [Ho Hw]. split; [assumption | congruence].
Qed.

Lemma target_known_cons goal target (e : Event) (h : History) :
  target_known goal target h -> target_known goal target (e :: h).
Proof.
  intros [H | [[sp H] | [H1 H2]]].
  - left. assumption.
  - right. left. exists sp. right. assumption.
  - right. right. split; [assumption|].
    cbn [existsb]. rewrite H2. apply orb_true_r.
Qed.

Section Protocol.
Variable env : Env.t.
Variable goal : ExploreTaskGoal.t.

(** discharge the obligations of the events added on top of [h] *)
Ltac obligations :=
  cbn [protocol];
  repeat match goal with
         | |- _ /\ _ => split
         | |- True => exact I
         | |- follows _ _ => assumption
         | |- follows _ [] => exact I
         | |- running [] => exact I
         | |- protocol goal ?h => assumption
         | |- follows _ (_ :: _) =>
             cbn [follows is_outcome is_failed_wait];
             split; [reflexivity | intros K; (discriminate K || reflexivity)]
         | |- follows _ _ => apply running_follows; assumption
         | |- running (_ :: _) =>
             cbn [running is_outcome is_failed_wait]; split; reflexivity
         | |- requires goal _ _ =>
             cbn [requires existsb boundary_available navigation_available
                    frontier_available last_robot_pose orb is_failed_attempt
                    is_preempt_seen is_move_wait is_failure is_failed_wait]
         | |- target_known goal _ (_ :: _) => apply target_known_cons
         | |- negb (is_SUCCEEDED _) = true =>
             match goal with E : is_SUCCEEDED _ = false |- _ => rewrite E end;
             reflexivity
         | |- ended _ _ => reflexivity
         | |- _ = _ => reflexivity || assumption
         | |- target_known goal _ _ => assumption
         end.

Lemma setBoundary_loop_protocol :
  forall (fuel : nat) (retry : Z) (h : History) r h',
    running h -> protocol goal h ->
    existsb boundary_available h = true ->
    existsb is_preempt_seen h = false ->
    existsb is_move_wait h = false ->
    setBoundary_loop env goal fuel retry h = Some (r, h') ->
    protocol goal h'
    /\ match r with
       | Return => ended Returned h'
       | Throw => False
       | _ => running h'
       end.
Proof.
  induction fuel as [|fuel IH]; intros retry h r h' Hr Hp Hb Hq Hm H;
    [discriminate|].
  cbn [setBoundary_loop ros_ok isPreemptRequested updateBoundaryPolygon_call] in H.
  repeat (answer H; done H; try solve [split; obligations]).
  apply IH in H; [assumption | obligations ..].
Qed.

Lemma navigate_loop_protocol :
  forall (fuel : nat) (retry : Z) target (h : History) r h',
    running h -> protocol goal h ->
    existsb navigation_available h = true ->
    target_known goal target h ->
    navigate_loop env fuel retry target h = Some (r, h') ->
    protocol goal h'
    /\ match r with
       | Return => ended Returned h'
       | Throw => False
       | _ => running h'
       end.
Proof.
  induction fuel as [|fuel IH]; intros retry target h r h' Hr Hp Hb Ht H;
    [discriminate|].
  cbn [navigate_loop ros_ok moveClient_sendGoalAndWait] in H.
  repeat (answer H; done H; try solve [split; obligations]).
  apply IH in H; [assumption | obligations ..].
Qed.

Lemma frontier_loop_protocol :
  forall (fuel : nat) (retry : Z) success start_pose goal_pose (h : History) r h',
    running h -> protocol goal h ->
    existsb frontier_available h = true ->
    last_robot_pose h = Some start_pose ->
    frontier_loop env goal fuel retry success start_pose goal_pose h = Some (r, h') ->
    protocol goal h'
    /\ match r with
       | Return => ended Returned h'
       | Throw => ended Threw h'
       | Break target => running h' /\ target_known goal target h'
       | LoopEnd target =>
           running h' /\ target = goal_pose
           /\ existsb is_shutdown_seen h' = true
       end.
Proof.
  induction fuel as [|fuel IH];
    intros retry success start_pose goal_pose h r h' Hr Hp Hf Hpose H;
    [discriminate|].
  cbn [frontier_loop ros_ok getNextFrontier_call] in H.
  unfold boundary_check_pose, transformPose in H.
  answer H; done H; [|solve [split; obligations]].
  destruct (String.eqb _ _) eqn:Hframe.
  - repeat (answer H; done H; try solve [split; obligations]).
    + split; [obligations|]. split; [obligations|].
      right. left. eexists. left. reflexivity.
    + apply IH in H; [assumption | obligations ..].
    + split; [obligations|]. split; [obligations|]. left. reflexivity.
  - repeat (answer H; done H; try solve [split; obligations]).
    + split; [obligations|]. split; [obligations|].
      right. left. eexists. left. reflexivity.
    + apply IH in H; [assumption | obligations ..].
    + split; [obligations|]. split; [obligations|]. left. reflexivity.
Qed.

Lemma existsb_grows (p : Event -> bool) (new h : History) :
  existsb p h = true -> existsb p (new ++ h) = true.
Proof. intros H. rewrite existsb_app, H. apply orb_true_r. Qed.

Lemma explore_body_protocol :
  forall (fuel : nat) success (h : History) r h',
    protocol goal (RosOk true :: h) ->
    existsb navigation_available h = true ->
    existsb frontier_available h = true ->
    explore_body env goal fuel success (RosOk true :: h) = Some (r, h') ->
    protocol goal h'
    /\ match r with
       | inr t => ended t h'
       | inl _ => running h'
       end.
Proof.
  intros fuel success h r h' Hp Hn Hf H.
  cbn [protocol] in Hp. destruct Hp as [[Hfollows _] Hp].
  unfold explore_body in H. cbn [getRobotPose] in H.
  set (pose := Env.getRobotPose env (RosOk true :: h)) in *.
  destruct (frontier_loop _ _ _ _ _ _ _ _) as [[f h1]|] eqn:Hloop; [|discriminate].
  pose proof Hloop as Hev.
  apply frontier_loop_events in Hev; [|lia].
  destruct Hev as (newf & Hh1 & _).
  apply frontier_loop_protocol in Hloop; [|obligations ..].
  destruct Hloop as [Hp1 Hpost].
  assert (Hn1 : existsb navigation_available h1 = true).
  { rewrite Hh1. apply existsb_grows. cbn [existsb navigation_available orb].
    assumption. }
  assert (Hnav : forall target,
             running h1 -> target_known goal target h1 ->
             match navigate_loop env fuel 5 target h1 with
             | Some (Break _, h0) => Some (inl true, h0)
             | Some (LoopEnd _, h0) => Some (inl success, h0)
             | Some (Return, h0) => Some (inr Returned, h0)
             | Some (Throw, h0) => Some (inr Threw, h0)
             | None => None
             end = Some (r, h') ->
             protocol goal h'
             /\ match r with
                | inr t => ended t h'
                | inl _ => running h'
                end).
  { intros target Hr Ht Hres.
    destruct (navigate_loop _ _ _ _ _) as [[n h2]|] eqn:Hl; [|discriminate].
    apply navigate_loop_protocol in Hl; try assumption.
    destruct Hl as [Hp2 Hpost2].
    destruct n; done Hres; auto. contradiction. }
  destruct f as [target|target| |]; done H; auto.
  - destruct Hpost as [Hr Ht]. apply (Hnav target); assumption.
  - destruct Hpost as (Hr & -> & Hs). apply (Hnav PoseStamped_default); [assumption | |assumption].
    right. right. split; [reflexivity | assumption].
Qed.

Lemma explore_loop_protocol :
  forall (rounds fuel : nat) success (h : History) t h',
    running h -> protocol goal h ->
    existsb navigation_available h = true ->
    existsb frontier_available h = true ->
    explore_loop env goal rounds fuel success h = Some (t, h') ->
    protocol goal h' /\ ended t h'.
Proof.
  induction rounds as [|rounds IH]; intros fuel success h t h' Hr Hp Hn Hf H;
    [discriminate|].
  cbn [explore_loop ros_ok] in H.
  answer H; done H; [|solve [split; obligations]].
  destruct (explore_body _ _ _ _ _) as [[[success'|t'] h1]|] eqn:Hb;
    [| |discriminate].
  - pose proof Hb as Hev. apply explore_body_events in Hev.
    destruct Hev as (new & Hh1 & _).
    apply explore_body_protocol in Hb; [|obligations ..].
    destruct Hb as [Hp1 Hr1].
    apply IH in H; try assumption.
    + rewrite Hh1. apply existsb_grows. cbn [existsb navigation_available orb].
      assumption.
    + rewrite Hh1. apply existsb_grows. cbn [existsb frontier_available orb].
      assumption.
  - done H. apply explore_body_protocol in Hb; [assumption | obligations ..].
Qed.

Lemma executeCB_protocol :
  forall (fuel : nat) t h,
    executeCB env goal fuel [] = Some (t, h) ->
    protocol goal h /\ ended t h.
Proof.
  intros fuel t h H. unfold executeCB in H.
  cbn [updateBoundaryPolygon_waitForExistence] in H.
  answer H; done H; [|solve [split; obligations]].
  destruct (setBoundary_loop _ _ _ _ _) as [[b h1]|] eqn:Hb; [|discriminate].
  apply setBoundary_loop_protocol in Hb; [| obligations ..].
  destruct Hb as [Hp1 Hpost1].
  assert (Hrest :
    running h1 ->
    (let '(connected, h) := moveClient_waitForServer env h1 in
     if negb connected then Some (Returned, SetAborted :: h) else
     match navigate_loop env fuel 5 (center_pose goal) h with
     | None => None
     | Some (Return, h) => Some (Returned, h)
     | Some (Throw, h) => Some (Threw, h)
     | Some (Break _, h) | Some (LoopEnd _, h) =>
         let '(exists_, h) := getNextFrontier_waitForExistence env h in
         if negb exists_ then Some (Returned, SetAborted :: h) else
         explore_loop env goal fuel fuel false h
     end) = Some (t, h) -> protocol goal h /\ ended t h).
  { clear H. intros Hr1 H. cbn [moveClient_waitForServer] in H.
    answer H; done H; [|solve [split; obligations]].
    destruct (navigate_loop _ _ _ _ _) as [[n h2]|] eqn:Hn; [|discriminate].
    pose proof Hn as Hev. apply navigate_loop_events in Hev.
    destruct Hev as (newn & Hh2 & _).
    apply navigate_loop_protocol in Hn; [| obligations .. | left; reflexivity].
    destruct Hn as [Hp2 Hpost2].
    assert (Hexplore :
      running h2 ->
      (let '(exists_, h) := getNextFrontier_waitForExistence env h2 in
       if negb exists_ then Some (Returned, SetAborted :: h) else
       explore_loop env goal fuel fuel false h) = Some (t, h) ->
      protocol goal h /\ ended t h).
    { clear H. intros Hr2 H. cbn [getNextFrontier_waitForExistence] in H.
      answer H; done H; [|solve [split; obligations]].
      apply explore_loop_protocol in H; [assumption | obligations .. ].
      cbn [existsb navigation_available orb].
      rewrite Hh2. apply existsb_grows. reflexivity. }
    destruct n; done H; auto. contradiction. }
  destruct b; done H; auto. contradiction.
Qed.
End Protocol.

(** *** What the protocol gives *)

Lemma protocol_split goal (l1 : History) (e : Event) (l2 : History) :
  protocol goal (l1 ++ e :: l2) ->
  follows e l2 /\ requires goal e l2 /\ protocol goal l2.
Proof.
  induction l1 as [|a l1 IH]; cbn [app protocol].
  - intros [[Hf Hr] Hp]. auto.
  - intros [_ Hp]. apply IH. assumption.
Qed.

Lemma protocol_outcome_last goal (e : Event) (rest : History) :
  protocol goal (e :: rest) -> existsb is_outcome rest = false.
Proof.
  revert e. induction rest as [|a rest IH]; intros e; [reflexivity|].
  cbn [protocol]. intros [[Hf _] Hp].
  cbn [follows] in Hf. destruct Hf as [Ho _].
  cbn [existsb]. rewrite Ho. cbn [orb]. apply (IH a). exact Hp.
Qed.

Lemma well_traced_split env (l1 : History) (e : Event) (l2 : History) :
  well_traced env (l1 ++ e :: l2) = true -> traced_step env e l2 = true.
Proof.
  induction l1 as [|a l1 IH]; cbn [app well_traced]; intros H;
    apply andb_prop in H; destruct H as [H1 H2]; auto.
Qed.

Lemma last_robot_pose_In (h : History) (p : PoseStamped.t) :
  last_robot_pose h = Some p -> In (GetRobotPose p) h.
Proof.
  induction h as [|e h IH]; [discriminate|].
  destruct e; cbn [last_robot_pose]; intros H;
    try (right; apply IH; assumption).
  injection H as <-. left. reflexivity.
Qed.

(** X1. [executeCB] ends in one of three ways: by [return] right after
    reporting an outcome, by running off its end right after [ros::ok()]
    answered false, or by an exception of [transformPose].  An outcome
    is reported at most once, and nothing happens after it. *)
Theorem executeCB_ends :
  forall (env : Env.t) (goal : ExploreTaskGoal.t) (fuel : nat)
         (t : Termination) (h : History),
    executeCB env goal fuel [] = Some (t, h) ->
    ended t h
    /\ (count is_outcome h <= 1)%nat
    /\ (forall l1 e l2, h = l1 ++ e :: l2 -> is_outcome e = true -> l1 = []).
Proof.
  intros env goal fuel t h H.
  apply executeCB_protocol in H. destruct H as [Hp He].
  split; [assumption|]. split.
  - destruct h as [|e rest]; [cbn; lia|].
    pose proof (protocol_outcome_last goal e rest Hp) as Hq.
    apply count_none in Hq. unfold count in *. cbn [filter].
    destruct (is_outcome e); cbn [length]; lia.
  - intros l1 e l2 -> Ho.
    destruct l1 as [|a l1]; [reflexivity|]. exfalso.
    cbn [app] in Hp. apply protocol_outcome_last in Hp.
    rewrite existsb_app in Hp. cbn [existsb] in Hp.
    rewrite Ho, orb_true_r in Hp. discriminate.
Qed.

Lemma executeCB_ends_witness :
  let h := history_of
             (executeCB Scenario.one_frontier_then_nothing Scenario.goal 10 []) in
  ended Returned h /\ (count is_outcome h <= 1)%nat.
Proof.
  cbv zeta.
  destruct (executeCB_ends Scenario.one_frontier_then_nothing Scenario.goal 10 Returned
              (history_of
                 (executeCB Scenario.one_frontier_then_nothing Scenario.goal 10 [])))
    as (He & Hc & _).
  - vm_compute. reflexivity.
  - split; assumption.
Defined.

(** X4. A service is only used after the wait for it answered true: the
    Boundary Service after [waitForExistence], the Navigation Service
    after [waitForServer], the Frontier Service and the robot pose after
    the Frontier Service's [waitForExistence].  When one of the three
    waits answers false, [executeCB] reports Aborted and does nothing
    else. *)
Theorem executeCB_services_available :
  forall (env : Env.t) (goal : ExploreTaskGoal.t) (fuel : nat)
         (t : Termination) (h : History),
    executeCB env goal fuel [] = Some (t, h) ->
    (forall l1 e l2,
        h = l1 ++ e :: l2 ->
        (is_boundary_call e = true -> existsb boundary_available l2 = true)
        /\ (is_navigation e = true -> existsb navigation_available l2 = true)
        /\ (is_frontier_call e = true -> existsb frontier_available l2 = true)
        /\ (is_pose_query e = true -> existsb frontier_available l2 = true))
    /\ (forall l1 e l2,
          h = l1 ++ e :: l2 -> is_failed_wait e = true -> l1 = [SetAborted]).
Proof.
  intros env goal fuel t h H.
  apply executeCB_protocol in H. destruct H as [Hp He].
  split.
  - intros l1 e l2 ->. apply protocol_split in Hp.
    destruct Hp as (_ & Hr & _).
    destruct e; cbn [requires] in Hr;
      (repeat split; intros K; try discriminate K); tauto.
  - intros l1 e l2 -> Hw.
    destruct l1 as [|a l1] using rev_ind.
    + exfalso. cbn [app] in He.
      destruct e as [| | [] | | [] | | [] | | | | | |]; try discriminate Hw;
        exact He.
    + clear IHl1. rewrite <- app_assoc in Hp. cbn [app] in Hp.
      pose proof (protocol_split goal l1 a (e :: l2) Hp) as (Hf & _ & _).
      cbn [follows] in Hf. destruct Hf as [_ Ha].
      specialize (Ha Hw). subst a.
      destruct l1 as [|b l1]; [reflexivity|]. exfalso.
      cbn [app] in Hp. apply protocol_outcome_last in Hp.
      rewrite existsb_app in Hp. cbn [existsb is_outcome] in Hp.
      rewrite orb_true_r in Hp. discriminate.
Qed.

Lemma executeCB_services_available_witness :
  let h := history_of
             (executeCB Scenario.one_frontier_then_nothing Scenario.goal 10 []) in
  existsb frontier_available (tl (tl h)) = true.
Proof.
  cbv zeta.
  set (h := history_of
              (executeCB Scenario.one_frontier_then_nothing Scenario.goal 10 [])).
  apply (proj1 (proj2 (proj2
           (proj1 (executeCB_services_available Scenario.one_frontier_then_nothing
                     Scenario.goal 10 Returned h ltac:(vm_compute; reflexivity))
                  [SetSucceeded] (hd Sleep (tl h)) (tl (tl h))
                  ltac:(vm_compute; reflexivity))))).
  vm_compute. reflexivity.
Defined.

(** X5. What the requests carry: the Boundary Service gets the boundary
    of the goal; the Frontier Service gets as start pose the pose
    [getRobotPose] answered at the start of the round, also when the
    request is repeated; a pose transformation is asked only for that
    pose, only into the frame of the boundary, and only if the pose is
    not in this frame already. *)
Theorem executeCB_request_contents :
  forall (env : Env.t) (goal : ExploreTaskGoal.t) (fuel : nat)
         (t : Termination) (h : History),
    executeCB env goal fuel [] = Some (t, h) ->
    forall l1 e l2,
      h = l1 ++ e :: l2 ->
      match e with
      | BoundaryCall request _ => request = ExploreTaskGoal.explore_boundary goal
      | FrontierCall start_pose _ => last_robot_pose l2 = Some start_pose
      | TransformPose frame pose _ =>
          frame = boundary_frame goal
          /\ last_robot_pose l2 = Some pose
          /\ Header.frame_id (PoseStamped.header pose) <> boundary_frame goal
      | _ => True
      end.
Proof.
  intros env goal fuel t h H l1 e l2 ->.
  apply executeCB_protocol in H. destruct H as [Hp _].
  apply protocol_split in Hp. destruct Hp as (_ & Hr & _).
  destruct e; cbn [requires] in Hr; try exact I; try tauto.
  destruct Hr as (-> & Hpose & Hneq). repeat split; auto.
  intros Heq. apply String.eqb_neq in Hneq. contradiction.
Qed.

Lemma executeCB_request_contents_witness :
  let h := history_of
             (executeCB Scenario.one_frontier_then_nothing Scenario.goal 10 []) in
  last_robot_pose (tl (tl h)) = Some Scenario.inside_pose.
Proof.
  cbv zeta.
  set (h := history_of
              (executeCB Scenario.one_frontier_then_nothing Scenario.goal 10 [])).
  apply (executeCB_request_contents Scenario.one_frontier_then_nothing
           Scenario.goal 10 Returned h ltac:(vm_compute; reflexivity)
           [SetSucceeded] (FrontierCall Scenario.inside_pose None) (tl (tl h))).
  vm_compute. reflexivity.
Defined.

Lemma delays_bounded goal :
  forall (n : nat) (h : History),
    (length h <= n)%nat -> protocol goal h ->
    (count is_sleep h <= count is_failed_attempt h)%nat.
Proof.
  induction n as [|n IH]; intros h Hlen Hp.
  - destruct h; [cbn; lia | cbn in Hlen; lia].
  - destruct h as [|e h]; [cbn; lia|].
    cbn [length] in Hlen. cbn [protocol] in Hp. destruct Hp as [[_ Hr] Hp].
    assert (Hh : (count is_sleep h <= count is_failed_attempt h)%nat)
      by (apply IH; [lia | assumption]).
    assert (Hmono : (count is_failed_attempt h
                     <= count is_failed_attempt (e :: h))%nat).
    { unfold count. cbn [filter]. destruct (is_failed_attempt e); cbn [length]; lia. }
    destruct (is_sleep e) eqn:He.
    + destruct e; try discriminate He. cbn [requires] in Hr.
      destruct h as [|[[]| | | | | | | | | | | |] [|attempt rest]]; try contradiction.
      cbn [protocol] in Hp. destruct Hp as [_ [_ Hrest]].
      assert (Hl : (count is_sleep rest <= count is_failed_attempt rest)%nat)
        by (apply IH; [cbn [length] in Hlen; lia | assumption]).
      assert (Ha : is_sleep attempt = false)
        by (destruct attempt; try discriminate Hr; reflexivity).
      unfold count in *. cbn [filter is_sleep is_failed_attempt].
      rewrite Ha, Hr. cbn [length]. lia.
    + unfold count in *. cbn [filter]. rewrite He.
      destruct (is_failed_attempt e); cbn [length]; lia.
Qed.

(** X8. A delay happens only after a Boundary Service call or a
    navigation that failed, and after the [ros::ok()] check that follows
    the failure answered true.  In particular requests to the Frontier
    Service are repeated without any delay, and there are no more delays
    than failed Boundary calls and navigations. *)
Theorem executeCB_delays_follow_failures :
  forall (env : Env.t) (goal : ExploreTaskGoal.t) (fuel : nat)
         (t : Termination) (h : History),
    executeCB env goal fuel [] = Some (t, h) ->
    (forall l1 l2,
        h = l1 ++ Sleep :: l2 ->
        exists attempt rest,
          l2 = RosOk true :: attempt :: rest
          /\ is_failed_attempt attempt = true)
    /\ (count is_sleep h <= count is_failed_attempt h)%nat.
Proof.
  intros env goal fuel t h H.
  apply executeCB_protocol in H. destruct H as [Hp _].
  split.
  - intros l1 l2 ->. apply protocol_split in Hp. destruct Hp as (_ & Hr & _).
    cbn [requires] in Hr.
    destruct l2 as [|[[]| | | | | | | | | | | |] [|attempt rest]]; try contradiction.
    exists attempt, rest. split; [reflexivity | assumption].
  - apply (delays_bounded goal (length h)); [lia | assumption].
Qed.

Lemma executeCB_delays_follow_failures_witness :
  let h := history_of (executeCB Scenario.nothing_works Scenario.goal 10 []) in
  (count is_sleep h <= count is_failed_attempt h)%nat.
Proof.
  cbv zeta.
  apply (proj2 (executeCB_delays_follow_failures Scenario.nothing_works
                  Scenario.goal 10 Returned _ ltac:(vm_compute; reflexivity))).
Defined.

(** X7. If every pose [getRobotPose] answered is in the frame of the
    boundary, no pose transformation is requested and [executeCB] does
    not end by an exception. *)
Theorem executeCB_same_frame_no_transform :
  forall (env : Env.t) (goal : ExploreTaskGoal.t) (fuel : nat)
         (t : Termination) (h : History),
    executeCB env goal fuel [] = Some (t, h) ->
    (forall pose, In (GetRobotPose pose) h ->
                  Header.frame_id (PoseStamped.header pose) = boundary_frame goal) ->
    existsb is_transform h = false /\ t = Returned.
Proof.
  intros env goal fuel t h H Hframe.
  apply executeCB_protocol in H. destruct H as [Hp He].
  assert (Hnone : existsb is_transform h = false).
  { destruct (existsb is_transform h) eqn:Hex; [|reflexivity]. exfalso.
    apply existsb_exists in Hex. destruct Hex as (e & Hin & Hte).
    apply in_split in Hin. destruct Hin as (l1 & l2 & Heq).
    rewrite Heq in Hp. apply protocol_split in Hp. destruct Hp as (_ & Hr & _).
    destruct e; try discriminate Hte. cbn [requires] in Hr.
    destruct Hr as (-> & Hpose & Hneq).
    apply last_robot_pose_In in Hpose.
    assert (Hin : In (GetRobotPose pose) h).
    { rewrite Heq. apply in_or_app. right. right. assumption. }
    apply Hframe in Hin. apply String.eqb_neq in Hneq. contradiction. }
  split; [assumption|].
  destruct t; [reflexivity|]. exfalso.
  unfold ended in He.
  repeat match type of He with
         | match ?x with _ => _ end => destruct x
         end;
    try contradiction; try discriminate He.
  cbn in Hnone. discriminate Hnone.
Qed.

Lemma executeCB_same_frame_no_transform_witness :
  let h := history_of
             (executeCB Scenario.one_frontier_then_nothing Scenario.goal 10 []) in
  existsb is_transform h = false /\ Returned = Returned.
Proof.
  cbv zeta.
  apply (executeCB_same_frame_no_transform Scenario.one_frontier_then_nothing
           Scenario.goal 10 Returned _ ltac:(vm_compute; reflexivity)).
  intros pose Hin. vm_compute in Hin.
  repeat (destruct Hin as [Hin | Hin]; [try discriminate Hin|]);
    try contradiction;
    injection Hin as <-; reflexivity.
Defined.

(** X6. Shutdown being final, every navigation request goes to the center
    of the goal or to a pose the Frontier Service answered earlier in
    the mission. *)
Theorem executeCB_navigation_targets :
  forall (env : Env.t) (goal : ExploreTaskGoal.t) (fuel : nat)
         (t : Termination) (h : History),
    shutdown_is_final env ->
    executeCB env goal fuel [] = Some (t, h) ->
    forall l1 target state l2,
      h = l1 ++ SendGoalAndWait target state :: l2 ->
      target = center_pose goal
      \/ exists start_pose, In (FrontierCall start_pose (Some target)) l2.
Proof.
  intros env goal fuel t h Hfinal H l1 target state l2 ->.
  pose proof (executeCB_traced env goal fuel t _ H) as [Hw _].
  apply executeCB_protocol in H. destruct H as [Hp _].
  apply protocol_split in Hp. destruct Hp as (_ & Hr & _).
  cbn [requires] in Hr. destruct Hr as [_ [Hc | [Hf | [_ Hs]]]]; auto.
  exfalso.
  pose proof (well_traced_split env l1 _ l2 Hw) as Hstep.
  unfold traced_step in Hstep.
  apply andb_prop in Hstep. destruct Hstep as [Hstep _].
  apply andb_prop in Hstep. destruct Hstep as [Hg _].
  cbn [guarded_step] in Hg.
  destruct l2 as [|[[]| | | | | | | | | | | |] l3]; try discriminate Hg.
  assert (Hw3 : traced_step env (RosOk true) l3 = true).
  { apply (well_traced_split env (l1 ++ [SendGoalAndWait target state])).
    rewrite <- app_assoc. exact Hw. }
  cbn [existsb is_shutdown_seen orb] in Hs.
  rewrite (traced_ok_true env l3 Hfinal Hw3) in Hs. discriminate.
Qed.

Lemma executeCB_navigation_targets_witness :
  let h := history_of (executeCB Scenario.shutdown_during_delay Scenario.goal 10 []) in
  center_pose Scenario.goal = center_pose Scenario.goal
  \/ exists start_pose,
       In (FrontierCall start_pose (Some (center_pose Scenario.goal))) (skipn 6 h).
Proof.
  cbv zeta.
  set (h := history_of (executeCB Scenario.shutdown_during_delay Scenario.goal 10 [])).
  apply (executeCB_navigation_targets Scenario.shutdown_during_delay Scenario.goal
           10 Returned h (until_is_final _ _ _ _ _ _)
           ltac:(vm_compute; reflexivity)
           (firstn 5 h) (center_pose Scenario.goal) ABORTED (skipn 6 h)).
  vm_compute. reflexivity.
Defined.

(** ** The retry loops end within their budget *)

(** X10. Within its budget of 5 each retry loop ends, whatever the world
    answers: the loop that sets the boundary, a navigation loop, the loop
    that looks for a frontier, and with them a whole round of the explore
    loop.  None makes more than 5 attempts. *)
Theorem retry_loops_terminate :
  forall (env : Env.t) (goal : ExploreTaskGoal.t) (fuel : nat) (h : History),
    (5 <= fuel)%nat ->
    (exists r new,
        setBoundary_loop env goal fuel 5 h = Some (r, new ++ h)
        /\ (count is_boundary_call new <= 5)%nat)
    /\ (forall target,
          exists r new,
            navigate_loop env fuel 5 target h = Some (r, new ++ h)
            /\ (count is_navigation new <= 5)%nat)
    /\ (forall success start_pose goal_pose,
          exists r new,
            frontier_loop env goal fuel 5 success start_pose goal_pose h
            = Some (r, new ++ h)
            /\ (count is_frontier_call new <= 5)%nat)
    /\ (forall success,
          exists r new,
            explore_body env goal fuel success h = Some (r, new ++ h)
            /\ (count is_frontier_call new <= 5)%nat
            /\ (count is_navigation new <= 5)%nat).
Proof.
  intros env goal fuel h Hfuel. change 5 with (Z.of_nat 5).
  split; [|split; [|split]].
  - apply setBoundary_loop_terminates; lia.
  - intros target. apply navigate_loop_terminates; lia.
  - intros success start_pose goal_pose. apply frontier_loop_terminates; lia.
  - intros success. apply explore_body_terminates. assumption.
Qed.

Lemma retry_loops_terminate_witness :
  exists r new,
    explore_body Scenario.nothing_works Scenario.goal 5 false [] = Some (r, new ++ [])
    /\ (count is_frontier_call new <= 5)%nat
    /\ (count is_navigation new <= 5)%nat.
Proof.
  apply (proj2 (proj2 (proj2 (retry_loops_terminate Scenario.nothing_works
                                Scenario.goal 5 [] (le_n 5))))).
Defined.

(** ** Succeeded comes from an exhausted round *)

Section Exhausted.
Variable env : Env.t.
Variable goal : ExploreTaskGoal.t.

Lemma frontier_loop_found :
  forall (fuel : nat) (retry : Z) success start_pose goal_pose (h : History) r h',
    frontier_loop env goal fuel retry success start_pose goal_pose h = Some (r, h') ->
    match r with
    | Break _ => True
    | _ => count is_frontier_found h' = count is_frontier_found h
    end.
Proof.
  induction fuel as [|fuel IH];
    intros retry success start_pose goal_pose h r h' H; [discriminate|].
  cbn [frontier_loop ros_ok getNextFrontier_call] in H.
  unfold boundary_check_pose, transformPose in H.
  answer H; done H; [|reflexivity].
  destruct (String.eqb _ _);
    repeat (answer H; done H; try solve [exact I | reflexivity]);
    (apply IH in H; destruct r; auto; rewrite H; reflexivity).
Qed.

Lemma explore_body_succeeded :
  forall (fuel : nat) success (h : History) r h',
    explore_body env goal fuel success h = Some (r, h') ->
    existsb is_succeeded h = false ->
    existsb is_succeeded h' = true ->
    exists round pose,
      h' = SetSucceeded :: round ++ GetRobotPose pose :: h
      /\ count is_frontier_failure round = 5%nat
      /\ count is_frontier_found round = 0%nat
      /\ Forall frontier_event round.
Proof.
  intros fuel success h r h' H Hh Hs.
  unfold explore_body in H. cbn [getRobotPose] in H.
  set (pose := Env.getRobotPose env h) in *.
  destruct (frontier_loop _ _ _ _ _ _ _ _) as [[f h1]|] eqn:Hf; [|discriminate].
  pose proof (frontier_loop_found _ _ _ _ _ _ _ _ Hf) as Hfound.
  apply frontier_loop_events in Hf; [|lia].
  destruct Hf as (newf & -> & Hallf & Hcount & Hr).
  assert (Hnosucc : forall l, existsb is_outcome l = false ->
                              existsb is_succeeded l = false).
  { induction l as [|e l IHl]; [reflexivity|].
    cbn [existsb]. intros Ho. apply orb_false_elim in Ho. destruct Ho as [He Hl].
    rewrite (IHl Hl). destruct e; try discriminate He; reflexivity. }
  assert (Hcontinue :
    forall goal_pose,
      existsb is_outcome newf = false ->
      match navigate_loop env fuel 5 goal_pose (newf ++ GetRobotPose pose :: h) with
      | Some (Break _, h0) => Some (inl true, h0)
      | Some (LoopEnd _, h0) => Some (inl success, h0)
      | Some (Return, h0) => Some (inr Returned, h0)
      | Some (Throw, h0) => Some (inr Threw, h0)
      | None => None
      end = Some (r, h') -> False).
  { intros goal_pose Hout Hnav.
    destruct (navigate_loop _ _ _ _ _) as [[n h2]|] eqn:Hn; [|discriminate].
    apply navigate_loop_events in Hn.
    destruct Hn as (newn & -> & Halln & _).
    destruct (navigation_events_facts _ newn Halln) as (_ & Hn1 & _ & _).
    assert (Hno : existsb is_succeeded (newn ++ newf ++ GetRobotPose pose :: h)
                  = false).
    { rewrite !existsb_app, Hn1, (Hnosucc newf Hout).
      cbn [existsb is_succeeded orb]. assumption. }
    destruct n; done Hnav; congruence. }
  destruct f as [goal_pose|goal_pose| |].
  - exfalso. destruct Hr as [Hout _]. apply (Hcontinue goal_pose); assumption.
  - exfalso. destruct Hr as [Hout _]. apply (Hcontinue goal_pose); assumption.
  - done H. destruct Hr as (rest & Hrest & [(-> & _ & Hn) | (-> & _)]).
    + exists rest, pose. split; [reflexivity|].
      split; [unfold count in *; cbn [filter is_frontier_failure] in Hn; lia|].
      split.
      * unfold count in *. cbn [app filter is_frontier_found] in Hfound.
        rewrite filter_app, length_app in Hfound.
        cbn [filter is_frontier_found length] in Hfound. lia.
      * inversion Hallf. assumption.
    + exfalso. cbn [app existsb is_succeeded orb] in Hs.
      rewrite existsb_app, (Hnosucc rest Hrest) in Hs.
      cbn [existsb is_succeeded orb] in Hs. congruence.
  - done H. exfalso. destruct Hr as [Hout _].
    rewrite existsb_app, (Hnosucc newf Hout) in Hs.
    cbn [existsb is_succeeded orb] in Hs. congruence.
Qed.

Lemma explore_loop_succeeded :
  forall (rounds fuel : nat) success (h : History) t h',
    explore_loop env goal rounds fuel success h = Some (t, h') ->
    existsb is_succeeded h = false ->
    existsb is_succeeded h' = true ->
    exists round pose older,
      h' = SetSucceeded :: round ++ GetRobotPose pose :: older
      /\ count is_frontier_failure round = 5%nat
      /\ count is_frontier_found round = 0%nat
      /\ Forall frontier_event round.
Proof.
  induction rounds as [|rounds IH]; intros fuel success h t h' H Hh Hs;
    [discriminate|].
  cbn [explore_loop ros_ok] in H.
  answer H; done H.
  2:{ cbn [existsb is_succeeded orb] in Hs. congruence. }
  destruct (explore_body _ _ _ _ _) as [[[success'|t'] h1]|] eqn:Hb;
    [| |discriminate].
  - destruct (existsb is_succeeded h1) eqn:Hs1.
    + exfalso. pose proof Hb as Hev. apply explore_body_events in Hev.
      destruct Hev as (new & -> & _ & Hfive & Hsucc & _).
      rewrite existsb_app in Hs1. cbn [existsb is_succeeded orb] in Hs1.
      rewrite Hh, orb_false_r in Hs1.
      destruct (Hsucc Hs1) as [_ H5]. destruct (Hfive H5) as [Hr _]. discriminate.
    + eapply IH; eassumption.
  - done H. apply explore_body_succeeded in Hb; auto.
    destruct Hb as (round & pose & -> & H5 & H0 & Hall).
    exists round, pose, (RosOk true :: h). auto.
Qed.
End Exhausted.

(** X3. A mission that reports Succeeded does so at the end of a round of
    the explore loop that, after asking for the robot's pose, only dealt
    with the Frontier Service: the service failed 5 times, answered no
    frontier, and no navigation and no delay took place in that round. *)
Theorem executeCB_succeeded_after_exhaustion :
  forall (env : Env.t) (goal : ExploreTaskGoal.t) (fuel : nat)
         (t : Termination) (h : History),
    executeCB env goal fuel [] = Some (t, h) ->
    In SetSucceeded h ->
    exists round pose older,
      h = SetSucceeded :: round ++ GetRobotPose pose :: older
      /\ count is_frontier_failure round = 5%nat
      /\ count is_frontier_found round = 0%nat
      /\ existsb is_navigation round = false
      /\ existsb is_sleep round = false.
Proof.
  intros env goal fuel t h H Hin.
  assert (Hs : existsb is_succeeded h = true).
  { apply existsb_exists. exists SetSucceeded. split; [assumption | reflexivity]. }
  assert (Hfacts : forall round, Forall frontier_event round ->
             existsb is_navigation round = false /\ existsb is_sleep round = false).
  { induction 1 as [|e l He Hl [IH1 IH2]]; [split; reflexivity|].
    destruct e; try contradiction; split; assumption. }
  assert (Hgoal : (exists round pose older,
             h = SetSucceeded :: round ++ GetRobotPose pose :: older
             /\ count is_frontier_failure round = 5%nat
             /\ count is_frontier_found round = 0%nat
             /\ Forall frontier_event round) ->
           exists round pose older,
             h = SetSucceeded :: round ++ GetRobotPose pose :: older
             /\ count is_frontier_failure round = 5%nat
             /\ count is_frontier_found round = 0%nat
             /\ existsb is_navigation round = false
             /\ existsb is_sleep round = false).
  { intros (round & pose & older & Heq & H5 & H0 & Hall).
    destruct (Hfacts round Hall) as [Hn Hsl].
    exists round, pose, older. auto. }
  apply Hgoal. clear Hgoal Hfacts Hin.
  unfold executeCB in H. cbn [updateBoundaryPolygon_waitForExistence] in H.
  answer H; done H; [|discriminate Hs].
  destruct (setBoundary_loop _ _ _ _ _) as [[b h1]|] eqn:Hb; [|discriminate].
  apply setBoundary_loop_events in Hb. destruct Hb as (newb & -> & Hallb).
  pose proof (boundary_events_facts newb Hallb) as Hnb.
  set (h1 := newb ++ [BoundaryWaitForExistence true]) in *.
  assert (Hh1 : existsb is_succeeded h1 = false).
  { unfold h1. rewrite existsb_app, Hnb. reflexivity. }
  clearbody h1. clear newb Hallb Hnb.
  assert (Hrest :
    (let '(connected, h) := moveClient_waitForServer env h1 in
     if negb connected then Some (Returned, SetAborted :: h) else
     match navigate_loop env fuel 5 (center_pose goal) h with
     | None => None
     | Some (Return, h) => Some (Returned, h)
     | Some (Throw, h) => Some (Threw, h)
     | Some (Break _, h) | Some (LoopEnd _, h) =>
         let '(exists_, h) := getNextFrontier_waitForExistence env h in
         if negb exists_ then Some (Returned, SetAborted :: h) else
         explore_loop env goal fuel fuel false h
     end) = Some (t, h) ->
    exists round pose older,
      h = SetSucceeded :: round ++ GetRobotPose pose :: older
      /\ count is_frontier_failure round = 5%nat
      /\ count is_frontier_found round = 0%nat
      /\ Forall frontier_event round).
  { clear H. intros H. cbn [moveClient_waitForServer] in H.
    answer H; done H.
    2:{ cbn [existsb is_succeeded orb] in Hs. congruence. }
    destruct (navigate_loop _ _ _ _ _) as [[n h2]|] eqn:Hn; [|discriminate].
    apply navigate_loop_events in Hn. destruct Hn as (newn & -> & Halln & _).
    destruct (navigation_events_facts _ newn Halln) as (_ & Hnn & _ & _).
    set (h2 := newn ++ MoveWaitForServer true :: h1) in *.
    assert (Hh2 : existsb is_succeeded h2 = false).
    { unfold h2. rewrite existsb_app, Hnn. cbn [existsb is_succeeded orb].
      exact Hh1. }
    clearbody h2.
    assert (Hexplore :
      (let '(exists_, h) := getNextFrontier_waitForExistence env h2 in
       if negb exists_ then Some (Returned, SetAborted :: h) else
       explore_loop env goal fuel fuel false h) = Some (t, h) ->
      exists round pose older,
        h = SetSucceeded :: round ++ GetRobotPose pose :: older
        /\ count is_frontier_failure round = 5%nat
        /\ count is_frontier_found round = 0%nat
        /\ Forall frontier_event round).
    { clear H. intros H. cbn [getNextFrontier_waitForExistence] in H.
      answer H; done H.
      2:{ cbn [existsb is_succeeded orb] in Hs. congruence. }
      eapply explore_loop_succeeded; [eassumption | | assumption].
      cbn [existsb is_succeeded orb]. assumption. }
    destruct n; done H; auto; congruence. }
  destruct b; done H; auto; congruence.
Qed.

Lemma executeCB_succeeded_after_exhaustion_witness :
  let h := history_of
             (executeCB Scenario.one_frontier_then_nothing Scenario.goal 10 []) in
  exists round pose older,
    h = SetSucceeded :: round ++ GetRobotPose pose :: older
    /\ count is_frontier_failure round = 5%nat
    /\ count is_frontier_found round = 0%nat
    /\ existsb is_navigation round = false
    /\ existsb is_sleep round = false.
Proof.
  cbv zeta.
  apply (executeCB_succeeded_after_exhaustion Scenario.one_frontier_then_nothing
           Scenario.goal 10 Returned).
  - vm_compute. reflexivity.
  - vm_compute. left. reflexivity.
Defined.

(** X9. The preemption request is looked at only while the boundary is
    being set: [isPreemptRequested()] is never asked once the wait for
    the navigation server has happened.  And once it has answered true,
    the Boundary Service is not called any more. *)
Theorem executeCB_preemption_only_for_boundary :
  forall (env : Env.t) (goal : ExploreTaskGoal.t) (fuel : nat)
         (t : Termination) (h : History),
    executeCB env goal fuel [] = Some (t, h) ->
    (forall l1 e l2,
        h = l1 ++ e :: l2 -> is_move_wait e = true ->
        existsb is_preempt_check l1 = false)
    /\ (forall l1 e l2,
          h = l1 ++ e :: l2 -> is_preempt_seen e = true ->
          existsb is_boundary_call l1 = false).
Proof.
  intros env goal fuel t h H.
  apply executeCB_protocol in H. destruct H as [Hp _].
  split.
  - intros l1 e l2 -> He.
    destruct (existsb is_preempt_check l1) eqn:Hex; [|reflexivity]. exfalso.
    apply existsb_exists in Hex. destruct Hex as (p & Hin & Hpc).
    apply in_split in Hin. destruct Hin as (a & b & ->).
    rewrite <- app_assoc in Hp. cbn [app] in Hp.
    apply protocol_split in Hp. destruct Hp as (_ & Hr & _).
    destruct p; try discriminate Hpc. cbn [requires] in Hr.
    rewrite existsb_app in Hr. cbn [existsb] in Hr.
    rewrite He, orb_true_r in Hr. discriminate.
  - intros l1 e l2 -> He.
    destruct (existsb is_boundary_call l1) eqn:Hex; [|reflexivity]. exfalso.
    apply existsb_exists in Hex. destruct Hex as (c & Hin & Hc).
    apply in_split in Hin. destruct Hin as (a & b & ->).
    rewrite <- app_assoc in Hp. cbn [app] in Hp.
    apply protocol_split in Hp. destruct Hp as (_ & Hr & _).
    destruct c; try discriminate Hc. cbn [requires] in Hr.
    destruct Hr as (_ & _ & Hr).
    rewrite existsb_app in Hr. cbn [existsb] in Hr.
    rewrite He, orb_true_r in Hr. discriminate.
Qed.

Lemma executeCB_preemption_only_for_boundary_witness :
  let h := history_of (executeCB Scenario.preempted_from_start Scenario.goal 10 []) in
  existsb is_boundary_call (firstn (length h - 3) h) = false.
Proof.
  cbv zeta.
  set (h := history_of (executeCB Scenario.preempted_from_start Scenario.goal 10 [])).
  apply (proj2 (executeCB_preemption_only_for_boundary Scenario.preempted_from_start
                  Scenario.goal 10 Returned h ltac:(vm_compute; reflexivity))
           (firstn (length h - 3) h) (IsPreemptRequested true)
           (skipn (length h - 2) h)).
  - vm_compute. reflexivity.
  - reflexivity.
Defined.

(** X2. An outcome is only reported in reaction to a failure.  Succeeded
    is reported right after a failed Frontier Service call.  Aborted is
    reported right after a wait for a service that does not exist, right
    after a failed Boundary call, navigation or Frontier call, or right
    after the [ros::ok()] check that follows such a failure answered
    false. *)
Theorem executeCB_outcome_after_failure :
  forall (env : Env.t) (goal : ExploreTaskGoal.t) (fuel : nat)
         (t : Termination) (h : History),
    executeCB env goal fuel [] = Some (t, h) ->
    (forall rest,
        h = SetSucceeded :: rest ->
        exists start_pose older, rest = FrontierCall start_pose None :: older)
    /\ (forall rest,
          h = SetAborted :: rest ->
          (exists latest older,
              rest = latest :: older
              /\ (is_failed_wait latest = true \/ is_failure latest = true))
          \/ (exists attempt older,
                rest = RosOk false :: attempt :: older
                /\ is_failure attempt = true)).
Proof.
  intros env goal fuel t h H.
  apply executeCB_protocol in H. destruct H as [Hp _].
  split.
  - intros rest ->. cbn [protocol] in Hp. destruct Hp as [[_ Hr] _].
    cbn [requires] in Hr.
    destruct rest as [|[| | | | | | | | |start_pose []| | |] older];
      try contradiction.
    exists start_pose, older. reflexivity.
  - intros rest ->. cbn [protocol] in Hp. destruct Hp as [[_ Hr] _].
    cbn [requires] in Hr.
    destruct rest as [|latest older]; [contradiction|].
    destruct latest as [[]| | | | | | | | | | | |];
      try (left; eexists; eexists; split; [reflexivity|];
           apply orb_prop in Hr; exact Hr).
    destruct older as [|attempt older].
    + cbn in Hr. discriminate Hr.
    + right. exists attempt, older. split; [reflexivity | assumption].
Qed.

Lemma executeCB_outcome_after_failure_witness :
  let h := history_of (executeCB Scenario.nothing_works Scenario.goal 10 []) in
  (exists latest older,
      tl h = latest :: older
      /\ (is_failed_wait latest = true \/ is_failure latest = true))
  \/ (exists attempt older,
        tl h = RosOk false :: attempt :: older
        /\ is_failure attempt = true).
Proof.
  cbv zeta.
  apply (proj2 (executeCB_outcome_after_failure Scenario.nothing_works
                  Scenario.goal 10 Returned
                  (history_of (executeCB Scenario.nothing_works Scenario.goal 10 []))
                  ltac:(vm_compute; reflexivity))).
  vm_compute. reflexivity.
Defined.

(** ** More about [pointInPolygon] *)

Lemma last_cons_default (a : Point32.t) (l : list Point32.t) (d d' : Point32.t) :
  last (a :: l) d = last (a :: l) d'.
Proof.
  revert a. induction l as [|b l IH]; intros a; [reflexivity|].
  change (last (b :: l) d = last (b :: l) d'). apply IH.
Qed.

Lemma edges_from_app (prev : Point32.t) (l1 l2 : list Point32.t) :
  edges_from prev (l1 ++ l2)
  = edges_from prev l1 ++ edges_from (last l1 prev) l2.
Proof.
  revert prev. induction l1 as [|a l1 IH]; intros prev; [reflexivity|].
  cbn [app edges_from]. rewrite IH. f_equal. f_equal.
  destruct l1 as [|b l1]; [reflexivity|].
  change (last (a :: b :: l1) prev) with (last (b :: l1) prev).
  f_equal. apply last_cons_default.
Qed.

Lemma edges_tail (pre : list Point32.t) :
  forall (x : Point32.t) (l : list Point32.t) (size : nat),
    size = length (pre ++ x :: l) ->
    map (fun i => (nth i (pre ++ x :: l) Point32.zero,
                   nth (previous_index size i) (pre ++ x :: l) Point32.zero))
        (seq (S (length pre)) (length l))
    = edges_from x l.
Proof.
  intros x l. revert pre x. induction l as [|a l IH]; intros pre x size Hsize;
    [reflexivity|].
  cbn [length seq map edges_from].
  assert (Hlen : size = (length pre + S (S (length l)))%nat).
  { rewrite Hsize, length_app. reflexivity. }
  f_equal.
  - rewrite previous_index_S by lia.
    f_equal.
    + rewrite app_nth2 by lia.
      replace (S (length pre) - length pre)%nat with 1%nat by lia. reflexivity.
    + rewrite app_nth2 by lia. rewrite Nat.sub_diag. reflexivity.
  - assert (Hl : length (pre ++ [x]) = S (length pre))
      by (rewrite length_app; cbn; lia).
    specialize (IH (pre ++ [x]) a size).
    rewrite <- app_assoc in IH. cbn [app] in IH.
    rewrite Hl in IH. apply IH. assumption.
Qed.

(** the edges the loop visits, as a walk along the vertex list *)
Lemma edges_walk (pts : list Point32.t) :
  edges pts = edges_from (last pts Point32.zero) pts.
Proof.
  destruct pts as [|a l]; [reflexivity|].
  unfold edges. cbn [length seq map edges_from]. f_equal.
  - unfold edge_at. rewrite previous_index_0 by (cbn; lia).
    cbn [nth length]. f_equal.
    replace (S (length l) - 1)%nat with (length l) by lia.
    clear. revert a. induction l as [|b l IH]; intros a; [reflexivity|].
    cbn [length nth]. rewrite IH.
    change (last (a :: b :: l) Point32.zero) with (last (b :: l) Point32.zero).
    reflexivity.
  - apply (edges_tail [] a l). reflexivity.
Qed.

Lemma last_In (a : Point32.t) (l : list Point32.t) (d : Point32.t) :
  In (last (a :: l) d) (a :: l).
Proof.
  revert a. induction l as [|b l IH]; intros a; [left; reflexivity|].
  right. change (last (a :: b :: l) d) with (last (b :: l) d). apply IH.
Qed.

Lemma edges_from_In (prev : Point32.t) (l : list Point32.t) (a b : Point32.t) :
  In (a, b) (edges_from prev l) -> In a l /\ (b = prev \/ In b l).
Proof.
  revert prev. induction l as [|p l IH]; intros prev; [intros []|].
  cbn [edges_from]. intros [Heq | Hin].
  - injection Heq as <- <-. split; [left; reflexivity | left; reflexivity].
  - apply IH in Hin. destruct Hin as [Ha [Hb | Hb]].
    + split; [right; assumption | right; left; symmetry; assumption].
    + split; [right; assumption | right; right; assumption].
Qed.

Lemma edges_In (pts : list Point32.t) (a b : Point32.t) :
  In (a, b) (edges pts) -> In a pts /\ In b pts.
Proof.
  rewrite edges_walk. intros H. apply edges_from_In in H.
  destruct H as [Ha [Hb | Hb]]; split; auto.
  subst b. destruct pts as [|p l]; [destruct Ha|]. apply last_In.
Qed.

Lemma filter_none {A : Type} (f : A -> bool) (l : list A) :
  (forall x, In x l -> f x = false) -> filter f l = [].
Proof.
  induction l as [|x l IH]; intros H; [reflexivity|].
  cbn [filter]. rewrite (H x (or_introl eq_refl)).
  apply IH. intros y Hy. apply H. right. assumption.
Qed.

(** no edge passes the test of the loop body: the point is outside *)
Lemma no_crossing_outside (point : Point.t) (polygon : Polygon.t) :
  (forall a b, In a (Polygon.points polygon) -> In b (Polygon.points polygon) ->
               edge_test point a b = false) ->
  pointInPolygon point polygon = false.
Proof.
  intros H. rewrite pointInPolygon_odd_rounded_crossings. unfold rounded_crossings.
  rewrite filter_none; [reflexivity|].
  intros [a b] Hin.
  apply edges_In in Hin. destruct Hin as [Ha Hb].
  rewrite <- edge_test_is_rounded_crossing. rewrite (H a b Ha Hb). reflexivity.
Qed.

(** X11. A point with a NaN abscissa or ordinate is outside every polygon. *)
Theorem pointInPolygon_nan_point :
  forall (point : Point.t) (polygon : Polygon.t),
    is_nan (Point.x point) = true \/ is_nan (Point.y point) = true ->
    pointInPolygon point polygon = false.
Proof.
  intros point polygon H. apply no_crossing_outside. intros a b _ _.
  unfold edge_test. destruct H as [Hx | Hy].
  - unfold B64.ltb. destruct (Point.x point); try discriminate Hx.
    rewrite SFltb_nan_l. apply andb_false_r.
  - unfold y_guard, B64.gtb. destruct (Point.y point); try discriminate Hy.
    rewrite !SFltb_nan_l. reflexivity.
Qed.

Lemma pointInPolygon_nan_point_witness :
  pointInPolygon (Point.mk S754_nan (B64.of_Z 1) zero64) Scenario.square = false.
Proof.
  apply pointInPolygon_nan_point. left. reflexivity.
Defined.

(** X12. A point is outside when the ordinates of all vertices exceed
    point.y, and when none does: the polygon lies wholly above the
    point, or wholly at or below it. *)
Theorem pointInPolygon_beside_all_vertices :
  forall (point : Point.t) (polygon : Polygon.t) (above : bool),
    (forall p, In p (Polygon.points polygon) ->
               exceeds point (Point32.y p) = above) ->
    pointInPolygon point polygon = false.
Proof.
  intros point polygon above H. apply no_crossing_outside. intros a b Ha Hb.
  unfold edge_test, y_guard.
  fold (exceeds point (Point32.y a)). fold (exceeds point (Point32.y b)).
  rewrite (H a Ha), (H b Hb), xorb_nilpotent. reflexivity.
Qed.

Lemma pointInPolygon_beside_all_vertices_witness :
  pointInPolygon (Scenario.p64 2 5) Scenario.square = false.
Proof.
  apply (pointInPolygon_beside_all_vertices (Scenario.p64 2 5) Scenario.square false).
  intros p Hp. cbn in Hp.
  repeat (destruct Hp as [<- | Hp]; [vm_compute; reflexivity|]). destruct Hp.
Defined.

Lemma last_app_cons (l1 : list Point32.t) (a : Point32.t) (l2 : list Point32.t)
      (d : Point32.t) :
  last (l1 ++ a :: l2) d = last (a :: l2) d.
Proof.
  induction l1 as [|b l1 IH]; [reflexivity|].
  cbn [app]. destruct (l1 ++ a :: l2) eqn:E.
  - destruct l1; discriminate E.
  - rewrite <- IH. reflexivity.
Qed.

(** X13. The answer does not depend on the vertex the list starts with:
    moving a prefix of the vertex list to its end changes nothing. *)
Theorem pointInPolygon_rotate :
  forall (point : Point.t) (l1 l2 : list Point32.t),
    pointInPolygon point (Polygon.mk (l2 ++ l1))
    = pointInPolygon point (Polygon.mk (l1 ++ l2)).
Proof.
  intros point l1 l2.
  destruct l1 as [|a1 l1]; [rewrite app_nil_r; reflexivity|].
  destruct l2 as [|a2 l2]; [rewrite app_nil_r; reflexivity|].
  rewrite !pointInPolygon_odd_rounded_crossings. unfold rounded_crossings.
  cbn [Polygon.points]. rewrite !edges_walk.
  rewrite !last_app_cons.
  rewrite !edges_from_app, !filter_app, !length_app.
  rewrite (last_cons_default a1 l1 (last (a2 :: l2) Point32.zero) Point32.zero).
  rewrite (last_cons_default a2 l2 (last (a1 :: l1) Point32.zero) Point32.zero).
  f_equal. apply Nat.add_comm.
Qed.

Lemma edges_from_map (f : Point32.t -> Point32.t) (prev : Point32.t)
      (l : list Point32.t) :
  edges_from (f prev) (map f l)
  = map (fun e => (f (fst e), f (snd e))) (edges_from prev l).
Proof.
  revert prev. induction l as [|a l IH]; intros prev; [reflexivity|].
  cbn [map edges_from fst snd]. rewrite IH. reflexivity.
Qed.

Lemma last_map_cons (f : Point32.t -> Point32.t) (a : Point32.t)
      (l : list Point32.t) (d d' : Point32.t) :
  last (map f (a :: l)) d = f (last (a :: l) d').
Proof.
  revert a. induction l as [|b l IH]; intros a; [reflexivity|].
  change (last (map f (b :: l)) d = f (last (b :: l) d')). apply IH.
Qed.

Lemma count_crossings_map (pt pt' : Point.t) (f : Point32.t -> Point32.t)
      (l : list (Point32.t * Point32.t)) :
  (forall a b, is_rounded_crossing pt' (f a, f b) = is_rounded_crossing pt (a, b)) ->
  length (filter (is_rounded_crossing pt') (map (fun e => (f (fst e), f (snd e))) l))
  = length (filter (is_rounded_crossing pt) l).
Proof.
  intros H. induction l as [|[a b] l IH]; [reflexivity|].
  cbn [map filter fst snd]. rewrite H.
  destruct (is_rounded_crossing pt (a, b)); cbn [length]; rewrite IH; reflexivity.
Qed.

(** X14. The test is two-dimensional: the third coordinates of the point
    and of the vertices have no influence on the answer. *)
Theorem pointInPolygon_ignores_z :
  forall (point : Point.t) (polygon : Polygon.t) (z : B64.t)
         (vertex_z : Point32.t -> B32.t),
    pointInPolygon
      (Point.mk (Point.x point) (Point.y point) z)
      (Polygon.mk (map (fun p => with_z (vertex_z p) p) (Polygon.points polygon)))
    = pointInPolygon point polygon.
Proof.
  intros point [pts] z vertex_z. cbn [Polygon.points].
  rewrite !pointInPolygon_odd_rounded_crossings. unfold rounded_crossings.
  cbn [Polygon.points].
  f_equal. rewrite !edges_walk.
  destruct pts as [|a l]; [reflexivity|].
  set (f := fun p => with_z (vertex_z p) p).
  rewrite (last_map_cons f a l Point32.zero Point32.zero).
  rewrite edges_from_map.
  apply count_crossings_map. intros p q. reflexivity.
Qed.
